(** * DragonbornVoiceControl: the pipe client (src/src/PipeClient.cpp)

    A shallow embedding of [PipeClient]: the wire codec (sanitising, the
    favorites batch, the decoding of RES / TRIG / DBG lines), the bounded
    response queue, and one iteration of the connection thread
    ([ThreadMain]) as a state-passing computation that records what it
    does to the outside world (locks, channel writes and reads, sleeps)
    in an event trace.

    What is outside the program is an input of the model:
    - [std::stof] and the type [float] are parameters of the section;
    - whether [CreateFileW], [WriteFile], [PeekNamedPipe] and [ReadFile]
      succeed, and what is read, is given by an [Env];
    - log lines ([SKSE::log::info]) are not recorded. *)

From Stdlib Require Import String Ascii List ZArith Lia Bool Arith DecimalString Sorted.
Import ListNotations.

Set Implicit Arguments.

(* ================================================================== *)
(** * std::string *)
(* ================================================================== *)

Module Str.

Local Open Scope string_scope.

(** [s.find(c, pos)]: the first position [>= pos] holding [c];
    [None] is [std::string::npos]. *)
Fixpoint find (c : ascii) (pos : nat) (s : string) : option nat :=
  match s with
  | EmptyString => None
  | String a s' =>
      match pos with
      | 0 => if Ascii.eqb a c then Some 0 else option_map S (find c 0 s')
      | S p => option_map S (find c p s')
      end
  end.

Fixpoint drop (n : nat) (s : string) : string :=
  match n, s with
  | 0, _ => s
  | S n', String _ s' => drop n' s'
  | S _, EmptyString => EmptyString
  end.

Fixpoint take (n : nat) (s : string) : string :=
  match n, s with
  | 0, _ => EmptyString
  | S n', String a s' => String a (take n' s')
  | S _, EmptyString => EmptyString
  end.

(** [s.substr(pos, n)] and [s.substr(pos)], for [pos <= s.size()] (every
    call of the source is within this range). *)
Definition substr (pos n : nat) (s : string) : string := take n (drop pos s).
Definition substr_from (pos : nat) (s : string) : string := drop pos s.

(** [s.rfind(p, 0) == 0]: [s] starts with [p]. *)
Definition starts_with (p s : string) : bool := String.prefix p s.

Fixpoint map (f : ascii -> ascii) (s : string) : string :=
  match s with
  | EmptyString => EmptyString
  | String a s' => String (f a) (map f s')
  end.

Fixpoint mem (c : ascii) (s : string) : bool :=
  match s with
  | EmptyString => false
  | String a s' => Ascii.eqb a c || mem c s'
  end.

(** [std::to_string] of a size. *)
Definition of_nat (n : nat) : string := NilZero.string_of_uint (Nat.to_uint n).

(** Cutting [s] at every [c]: the pieces that end with a [c] (without
    it), and what is left after the last [c]. *)
Fixpoint cut (c : ascii) (s : string) : list string * string :=
  match s with
  | EmptyString => ([], EmptyString)
  | String a s' =>
      let (pieces, rest) := cut c s' in
      if Ascii.eqb a c then (EmptyString :: pieces, rest)
      else match pieces with
           | [] => ([], String a rest)
           | p :: pieces' => (String a p :: pieces', rest)
           end
  end.

(** The fields of a line: the pieces of [s] between the occurrences of
    [c]. *)
Definition split (c : ascii) (s : string) : list string :=
  (fst (cut c s) ++ [snd (cut c s)])%list.

End Str.

Definition LF : ascii := "010"%char.
Definition CR : ascii := "013"%char.
Definition BAR : ascii := "|"%char.
Definition SP : ascii := " "%char.

(** [SanitizeInPlace]: every line feed and carriage return becomes a space. *)
Definition SanitizeInPlace (s : string) : string :=
  Str.map (fun c => if Ascii.eqb c LF || Ascii.eqb c CR then SP else c) s.

(** [SanitizeFavoriteField]: [SanitizeInPlace], then every '|' becomes a
    space. *)
Definition SanitizeFavoriteField (s : string) : string :=
  Str.map (fun c => if Ascii.eqb c BAR then SP else c) (SanitizeInPlace s).

(* ================================================================== *)
(** * std::stoi *)
(* ================================================================== *)

(** [std::stoi(s)] in base 10: leading white space is skipped, then an
    optional sign, then the longest run of digits; what follows is ignored.
    [None] stands for the two exceptions: [std::invalid_argument] when
    there is no digit, [std::out_of_range] when the value is not an [int]. *)

Definition isspace (c : ascii) : bool :=
  let n := nat_of_ascii c in (n =? 32) || ((9 <=? n) && (n <=? 13)).

Definition digit_of (c : ascii) : option Z :=
  let n := nat_of_ascii c in
  if (48 <=? n) && (n <=? 57) then Some (Z.of_nat (n - 48)) else None.

Fixpoint skip_spaces (s : string) : string :=
  match s with
  | String a s' => if isspace a then skip_spaces s' else s
  | EmptyString => EmptyString
  end.

(** The value of the leading digits of [s], with [acc] the value read so
    far and [seen] telling whether a digit was read. *)
Fixpoint read_digits (acc : Z) (seen : bool) (s : string) : option Z :=
  match s with
  | String a s' =>
      match digit_of a with
      | Some d => read_digits (10 * acc + d) true s'
      | None => if seen then Some acc else None
      end
  | EmptyString => if seen then Some acc else None
  end.

Definition INT_MIN : Z := -2147483648.
Definition INT_MAX : Z := 2147483647.

Definition stoi (s : string) : option Z :=
  let s1 := skip_spaces s in
  let '(neg, s2) :=
    match s1 with
    | String "-" r => (true, r)
    | String "+" r => (false, r)
    | _ => (false, s1)
    end in
  match read_digits 0 false s2 with
  | Some v =>
      let v' := if neg then (- v)%Z else v in
      if (INT_MIN <=? v')%Z && (v' <=? INT_MAX)%Z then Some v' else None
  | None => None
  end.


(** How a computation of the connection thread ends: normally, or at a
    [goto disconnect]. *)
Inductive Flow (A : Type) :=
| Done (a : A)
| GotoDisconnect.
Arguments GotoDisconnect {A}.

(* ================================================================== *)
(** * The client *)
(* ================================================================== *)

Section Client.

(** [float] with its [0.0f], and [std::stof] ([None]: it throws). *)
Variable float : Type.
Variable float_zero : float.
Variable stof : string -> option float.

Local Open Scope string_scope.

(** ** PipeResponse (include/PipeClient.h) *)

Record PipeResponse := mkResp {
  index : Z;
  score : float;
  type : string;
  trigKind : string;
  trigText : string;
  shoutPlugin : string;
  shoutFormID : string;
  shoutPower : Z;
  powerFormID : string;
  itemFormID : string
}.

(** A default-constructed [PipeResponse]: the member initialisers of the
    struct. *)
Definition resp_default : PipeResponse :=
  mkResp (-1) float_zero "" "" "" "" "" 0 "" "".

Definition set_index (v : Z) (r : PipeResponse) : PipeResponse :=
  mkResp v (score r) (type r) (trigKind r) (trigText r) (shoutPlugin r)
         (shoutFormID r) (shoutPower r) (powerFormID r) (itemFormID r).
Definition set_score (v : float) (r : PipeResponse) : PipeResponse :=
  mkResp (index r) v (type r) (trigKind r) (trigText r) (shoutPlugin r)
         (shoutFormID r) (shoutPower r) (powerFormID r) (itemFormID r).
Definition set_type (v : string) (r : PipeResponse) : PipeResponse :=
  mkResp (index r) (score r) v (trigKind r) (trigText r) (shoutPlugin r)
         (shoutFormID r) (shoutPower r) (powerFormID r) (itemFormID r).
Definition set_trigKind (v : string) (r : PipeResponse) : PipeResponse :=
  mkResp (index r) (score r) (type r) v (trigText r) (shoutPlugin r)
         (shoutFormID r) (shoutPower r) (powerFormID r) (itemFormID r).
Definition set_trigText (v : string) (r : PipeResponse) : PipeResponse :=
  mkResp (index r) (score r) (type r) (trigKind r) v (shoutPlugin r)
         (shoutFormID r) (shoutPower r) (powerFormID r) (itemFormID r).
Definition set_shoutPlugin (v : string) (r : PipeResponse) : PipeResponse :=
  mkResp (index r) (score r) (type r) (trigKind r) (trigText r) v
         (shoutFormID r) (shoutPower r) (powerFormID r) (itemFormID r).
Definition set_shoutFormID (v : string) (r : PipeResponse) : PipeResponse :=
  mkResp (index r) (score r) (type r) (trigKind r) (trigText r) (shoutPlugin r)
         v (shoutPower r) (powerFormID r) (itemFormID r).
Definition set_shoutPower (v : Z) (r : PipeResponse) : PipeResponse :=
  mkResp (index r) (score r) (type r) (trigKind r) (trigText r) (shoutPlugin r)
         (shoutFormID r) v (powerFormID r) (itemFormID r).
Definition set_powerFormID (v : string) (r : PipeResponse) : PipeResponse :=
  mkResp (index r) (score r) (type r) (trigKind r) (trigText r) (shoutPlugin r)
         (shoutFormID r) (shoutPower r) v (itemFormID r).
Definition set_itemFormID (v : string) (r : PipeResponse) : PipeResponse :=
  mkResp (index r) (score r) (type r) (trigKind r) (trigText r) (shoutPlugin r)
         (shoutFormID r) (shoutPower r) (powerFormID r) v.

(** ** The body of a [try] block over a response

    The response is declared before the [try], so what the body assigned
    before an exception is still there in the handler. [None] as the
    result: an exception was thrown. *)

Definition Try (A : Type) : Type := PipeResponse -> PipeResponse * option A.

Definition try_ret {A} (a : A) : Try A := fun r => (r, Some a).
Definition try_bind {A B} (m : Try A) (k : A -> Try B) : Try B :=
  fun r => match m r with
           | (r', Some a) => k a r'
           | (r', None) => (r', None)
           end.
(** A call that may throw. *)
Definition try_call {A} (o : option A) : Try A := fun r => (r, o).
(** An assignment to a member of the response. *)
Definition try_set (f : PipeResponse -> PipeResponse) : Try unit :=
  fun r => (f r, Some tt).

Notation "x <-- m ;; k" := (try_bind m (fun x => k))
  (at level 61, m at next level, right associativity).
Notation "m ;;; k" := (try_bind m (fun _ => k))
  (at level 61, right associativity).

(** ** Decoding a RES line (ProcessIncoming, lines 325-337) *)

Definition try_RES (line : string) : Try unit :=
  match Str.find BAR 4 line with
  | Some p1 =>
      i <-- try_call (stoi (Str.substr 4 (p1 - 4) line)) ;;
      try_set (set_index i) ;;;
      f <-- try_call (stof (Str.substr_from (p1 + 1) line)) ;;
      try_set (set_score f)
  | None => try_ret tt
  end.

Definition decode_RES (line : string) : PipeResponse :=
  match try_RES line (set_type "RES" resp_default) with
  | (r, Some _) => r
  | (r, None) => set_score float_zero (set_index (-1) r)
  end.

(** ** Decoding a TRIG line (ProcessIncoming, lines 349-408) *)

Definition try_TRIG_shout (line : string) (p1 : nat) : Try unit :=
  match Str.find BAR (p1 + 1) line with
  | Some p2 =>
      try_set (set_shoutPlugin (Str.substr (p1 + 1) (p2 - p1 - 1) line)) ;;;
      match Str.find BAR (p2 + 1) line with
      | Some p3 =>
          try_set (set_shoutFormID (Str.substr (p2 + 1) (p3 - p2 - 1) line)) ;;;
          match Str.find BAR (p3 + 1) line with
          | Some p4 =>
              n <-- try_call (stoi (Str.substr (p3 + 1) (p4 - p3 - 1) line)) ;;
              try_set (set_shoutPower n) ;;;
              match Str.find BAR (p4 + 1) line with
              | Some p5 =>
                  f <-- try_call (stof (Str.substr (p4 + 1) (p5 - p4 - 1) line)) ;;
                  try_set (set_score f) ;;;
                  try_set (set_trigText (Str.substr_from (p5 + 1) line))
              | None => try_ret tt
              end
          | None => try_ret tt
          end
      | None => try_ret tt
      end
  | None => try_ret tt
  end.

Definition try_TRIG_power (line : string) (p1 : nat) : Try unit :=
  match Str.find BAR (p1 + 1) line with
  | Some p2 =>
      try_set (set_powerFormID (Str.substr (p1 + 1) (p2 - p1 - 1) line)) ;;;
      match Str.find BAR (p2 + 1) line with
      | Some p3 =>
          f <-- try_call (stof (Str.substr (p2 + 1) (p3 - p2 - 1) line)) ;;
          try_set (set_score f) ;;;
          match Str.find BAR (p3 + 1) line with
          | Some p4 => try_set (set_trigText (Str.substr_from (p4 + 1) line))
          | None => try_ret tt
          end
      | None => try_ret tt
      end
  | None => try_ret tt
  end.

Definition try_TRIG_item (line : string) (p1 : nat) : Try unit :=
  match Str.find BAR (p1 + 1) line with
  | Some p2 =>
      try_set (set_itemFormID (Str.substr (p1 + 1) (p2 - p1 - 1) line)) ;;;
      match Str.find BAR (p2 + 1) line with
      | Some p3 =>
          f <-- try_call (stof (Str.substr (p2 + 1) (p3 - p2 - 1) line)) ;;
          try_set (set_score f) ;;;
          try_set (set_trigText (Str.substr_from (p3 + 1) line))
      | None => try_ret tt
      end
  | None => try_ret tt
  end.

Definition try_TRIG_other (line : string) (p1 : nat) : Try unit :=
  match Str.find BAR (p1 + 1) line with
  | Some p2 =>
      f <-- try_call (stof (Str.substr (p1 + 1) (p2 - p1 - 1) line)) ;;
      try_set (set_score f) ;;;
      try_set (set_trigText (Str.substr_from (p2 + 1) line))
  | None => try_ret tt
  end.

Definition try_TRIG (line : string) : Try unit :=
  match Str.find BAR 5 line with
  | Some p1 =>
      let kind := Str.substr 5 (p1 - 5) line in
      try_set (set_trigKind kind) ;;;
      if kind =? "shout" then try_TRIG_shout line p1
      else if kind =? "power" then try_TRIG_power line p1
      else if (kind =? "weapon") || (kind =? "spell") || (kind =? "potion")
      then try_TRIG_item line p1
      else try_TRIG_other line p1
  | None => try_ret tt
  end.

Definition decode_TRIG (line : string) : PipeResponse :=
  match try_TRIG line (set_type "TRIG" resp_default) with
  | (r, Some _) => r
  | (r, None) => set_score float_zero r
  end.

(** ** Decoding a DBG line (lines 431-433) *)

Definition decode_DBG (line : string) : PipeResponse :=
  set_trigText (Str.substr_from 4 line) (set_type "DBG" resp_default).

(** ** The response queue ([_responses], a deque)

    [push_back], then [pop_front] when the size exceeds 128: the block that
    follows each of the three decoders. *)

Definition pop_front {A} (q : list A) : list A := tl q.

Definition deposit (resp : PipeResponse) (q : list PipeResponse)
  : list PipeResponse :=
  let q' := (q ++ [resp])%list in
  if (128 <? List.length q')%nat then pop_front q' else q'.

(** ** The client state (class PipeClient, include/PipeClient.h)

    The ten [_desiredCfgX] members and the ten [_lastSentCfgX] members are
    two records of the same shape, read and assigned through the name [X]
    of the toggle; [pipe] tells whether the handle [_pipe] is non-null. [_thread] and [_running] belong to [Start] and [Stop], which
    are not modelled: an iteration below is the body of the loop
    [while (_running.load())]. *)

Inductive CfgToggle :=
| CfgOpen | CfgClose | CfgVoiceHandle | CfgDebug | CfgSaveWav
| CfgDialogueSelect | CfgWeapons | CfgSpells | CfgPowers | CfgPotions.

Definition CfgToggle_eqb (a b : CfgToggle) : bool :=
  match a, b with
  | CfgOpen, CfgOpen | CfgClose, CfgClose | CfgVoiceHandle, CfgVoiceHandle
  | CfgDebug, CfgDebug | CfgSaveWav, CfgSaveWav
  | CfgDialogueSelect, CfgDialogueSelect | CfgWeapons, CfgWeapons
  | CfgSpells, CfgSpells | CfgPowers, CfgPowers | CfgPotions, CfgPotions => true
  | _, _ => false
  end.

(** The name written on the wire in [CFG|<NAME>|<0|1>]. *)
Definition cfg_name (c : CfgToggle) : string :=
  match c with
  | CfgOpen => "OPEN"
  | CfgClose => "CLOSE"
  | CfgVoiceHandle => "SHOUTS"
  | CfgDebug => "DEBUG"
  | CfgSaveWav => "SAVE_WAV"
  | CfgDialogueSelect => "DIALOGUE_SELECT"
  | CfgWeapons => "WEAPONS"
  | CfgSpells => "SPELLS"
  | CfgPowers => "POWERS"
  | CfgPotions => "POTIONS"
  end.

(** The ten [std::optional<bool>] members of a family, in the order of their
    declaration. *)
Record CfgMembers := mkCfg {
  mOpen : option bool;
  mClose : option bool;
  mVoiceHandle : option bool;
  mDebug : option bool;
  mSaveWav : option bool;
  mDialogueSelect : option bool;
  mWeapons : option bool;
  mSpells : option bool;
  mPowers : option bool;
  mPotions : option bool
}.

Definition cfg_get (c : CfgToggle) (m : CfgMembers) : option bool :=
  match c with
  | CfgOpen => mOpen m
  | CfgClose => mClose m
  | CfgVoiceHandle => mVoiceHandle m
  | CfgDebug => mDebug m
  | CfgSaveWav => mSaveWav m
  | CfgDialogueSelect => mDialogueSelect m
  | CfgWeapons => mWeapons m
  | CfgSpells => mSpells m
  | CfgPowers => mPowers m
  | CfgPotions => mPotions m
  end.

Definition cfg_set (c : CfgToggle) (v : option bool) (m : CfgMembers)
  : CfgMembers :=
  mkCfg (if CfgToggle_eqb c CfgOpen then v else mOpen m)
        (if CfgToggle_eqb c CfgClose then v else mClose m)
        (if CfgToggle_eqb c CfgVoiceHandle then v else mVoiceHandle m)
        (if CfgToggle_eqb c CfgDebug then v else mDebug m)
        (if CfgToggle_eqb c CfgSaveWav then v else mSaveWav m)
        (if CfgToggle_eqb c CfgDialogueSelect then v else mDialogueSelect m)
        (if CfgToggle_eqb c CfgWeapons then v else mWeapons m)
        (if CfgToggle_eqb c CfgSpells then v else mSpells m)
        (if CfgToggle_eqb c CfgPowers then v else mPowers m)
        (if CfgToggle_eqb c CfgPotions then v else mPotions m).

Definition cfg_unset : CfgMembers :=
  mkCfg None None None None None None None None None None.

Record PipeClient := mkClient {
  connected : bool;
  pipe : bool;
  recvBuf : string;
  pendingOptions : option (list string);
  pendingFavorites : option (list string);
  pendingClose : bool;
  pendingListen : option bool;
  pendingListenVoiceHandle : option bool;
  desiredGameLang : option string;
  desiredCfg : CfgMembers;
  lastSentCfg : CfgMembers;
  lastSentGameLang : option string;
  responses : list PipeResponse;
  connEvent : option bool
}.

(** The client as constructed: nothing pending, nothing desired. *)
Definition client_init : PipeClient :=
  mkClient false false "" None None false None None None
           cfg_unset cfg_unset None [] None.

Definition set_connected v st :=
  mkClient v (pipe st) (recvBuf st) (pendingOptions st) (pendingFavorites st)
    (pendingClose st) (pendingListen st) (pendingListenVoiceHandle st)
    (desiredGameLang st) (desiredCfg st) (lastSentCfg st) (lastSentGameLang st)
    (responses st) (connEvent st).
Definition set_pipe v st :=
  mkClient (connected st) v (recvBuf st) (pendingOptions st) (pendingFavorites st)
    (pendingClose st) (pendingListen st) (pendingListenVoiceHandle st)
    (desiredGameLang st) (desiredCfg st) (lastSentCfg st) (lastSentGameLang st)
    (responses st) (connEvent st).
Definition set_recvBuf v st :=
  mkClient (connected st) (pipe st) v (pendingOptions st) (pendingFavorites st)
    (pendingClose st) (pendingListen st) (pendingListenVoiceHandle st)
    (desiredGameLang st) (desiredCfg st) (lastSentCfg st) (lastSentGameLang st)
    (responses st) (connEvent st).
Definition set_pendingOptions v st :=
  mkClient (connected st) (pipe st) (recvBuf st) v (pendingFavorites st)
    (pendingClose st) (pendingListen st) (pendingListenVoiceHandle st)
    (desiredGameLang st) (desiredCfg st) (lastSentCfg st) (lastSentGameLang st)
    (responses st) (connEvent st).
Definition set_pendingFavorites v st :=
  mkClient (connected st) (pipe st) (recvBuf st) (pendingOptions st) v
    (pendingClose st) (pendingListen st) (pendingListenVoiceHandle st)
    (desiredGameLang st) (desiredCfg st) (lastSentCfg st) (lastSentGameLang st)
    (responses st) (connEvent st).
Definition set_pendingClose v st :=
  mkClient (connected st) (pipe st) (recvBuf st) (pendingOptions st)
    (pendingFavorites st) v (pendingListen st) (pendingListenVoiceHandle st)
    (desiredGameLang st) (desiredCfg st) (lastSentCfg st) (lastSentGameLang st)
    (responses st) (connEvent st).
Definition set_pendingListen v st :=
  mkClient (connected st) (pipe st) (recvBuf st) (pendingOptions st)
    (pendingFavorites st) (pendingClose st) v (pendingListenVoiceHandle st)
    (desiredGameLang st) (desiredCfg st) (lastSentCfg st) (lastSentGameLang st)
    (responses st) (connEvent st).
Definition set_pendingListenVoiceHandle v st :=
  mkClient (connected st) (pipe st) (recvBuf st) (pendingOptions st)
    (pendingFavorites st) (pendingClose st) (pendingListen st) v
    (desiredGameLang st) (desiredCfg st) (lastSentCfg st) (lastSentGameLang st)
    (responses st) (connEvent st).
Definition set_desiredGameLang v st :=
  mkClient (connected st) (pipe st) (recvBuf st) (pendingOptions st)
    (pendingFavorites st) (pendingClose st) (pendingListen st)
    (pendingListenVoiceHandle st) v (desiredCfg st) (lastSentCfg st)
    (lastSentGameLang st) (responses st) (connEvent st).
Definition set_desiredCfgs v st :=
  mkClient (connected st) (pipe st) (recvBuf st) (pendingOptions st)
    (pendingFavorites st) (pendingClose st) (pendingListen st)
    (pendingListenVoiceHandle st) (desiredGameLang st) v (lastSentCfg st)
    (lastSentGameLang st) (responses st) (connEvent st).
Definition set_lastSentCfgs v st :=
  mkClient (connected st) (pipe st) (recvBuf st) (pendingOptions st)
    (pendingFavorites st) (pendingClose st) (pendingListen st)
    (pendingListenVoiceHandle st) (desiredGameLang st) (desiredCfg st) v
    (lastSentGameLang st) (responses st) (connEvent st).
Definition set_lastSentGameLang v st :=
  mkClient (connected st) (pipe st) (recvBuf st) (pendingOptions st)
    (pendingFavorites st) (pendingClose st) (pendingListen st)
    (pendingListenVoiceHandle st) (desiredGameLang st) (desiredCfg st)
    (lastSentCfg st) v (responses st) (connEvent st).
Definition set_responses v st :=
  mkClient (connected st) (pipe st) (recvBuf st) (pendingOptions st)
    (pendingFavorites st) (pendingClose st) (pendingListen st)
    (pendingListenVoiceHandle st) (desiredGameLang st) (desiredCfg st)
    (lastSentCfg st) (lastSentGameLang st) v (connEvent st).
Definition set_connEvent v st :=
  mkClient (connected st) (pipe st) (recvBuf st) (pendingOptions st)
    (pendingFavorites st) (pendingClose st) (pendingListen st)
    (pendingListenVoiceHandle st) (desiredGameLang st) (desiredCfg st)
    (lastSentCfg st) (lastSentGameLang st) (responses st) v.

Definition set_desiredCfg c v st := set_desiredCfgs (cfg_set c v (desiredCfg st)) st.
Definition set_lastSentCfg c v st := set_lastSentCfgs (cfg_set c v (lastSentCfg st)) st.

(** ** What the client does to the outside world *)

Inductive Mutex := SendMutex | RespMutex | ConnMutex.

(** The places of [ThreadMain] that call [WriteLine], in the order of the
    text. *)
Inductive Site :=
| SiteLang | SiteOptions | SiteClose | SiteFavorites | SiteListen
| SiteCfg (c : CfgToggle) | SiteListenShouts.

Definition Site_eqb (a b : Site) : bool :=
  match a, b with
  | SiteLang, SiteLang | SiteOptions, SiteOptions | SiteClose, SiteClose
  | SiteFavorites, SiteFavorites | SiteListen, SiteListen
  | SiteListenShouts, SiteListenShouts => true
  | SiteCfg c, SiteCfg c' => CfgToggle_eqb c c'
  | _, _ => false
  end.

Definition cfg_rank (c : CfgToggle) : nat :=
  match c with
  | CfgOpen => 0
  | CfgClose => 1
  | CfgVoiceHandle => 2
  | CfgDebug => 3
  | CfgSaveWav => 4
  | CfgDialogueSelect => 5
  | CfgWeapons => 6
  | CfgSpells => 7
  | CfgPowers => 8
  | CfgPotions => 9
  end.

(** The position of a place in the text of [ThreadMain]. *)
Definition site_rank (s : Site) : nat :=
  match s with
  | SiteLang => 0
  | SiteOptions => 1
  | SiteClose => 2
  | SiteFavorites => 3
  | SiteListen => 4
  | SiteCfg c => 5 + cfg_rank c
  | SiteListenShouts => 15
  end.

Inductive Event :=
| EvLock (m : Mutex)                  (* a lock_guard is constructed *)
| EvUnlock (m : Mutex)                (* ... and destroyed *)
| EvConnect (ok : bool)               (* CreateFileW *)
| EvWrite (site : Site) (line : string) (ok : bool)
                                      (* WriteFile of line and '\n' *)
| EvPeek (ok : bool)                  (* PeekNamedPipe *)
| EvRead (chunk : option string)      (* ReadFile; None: it failed *)
| EvClose                             (* CloseHandle *)
| EvSleep (ms : nat).                 (* std::this_thread::sleep_for *)

(** What the channel has for [ProcessIncoming] in one iteration. *)
Inductive Incoming :=
| PeekFails                  (* PeekNamedPipe fails *)
| NothingAvailable           (* avail == 0 *)
| ReadFails                  (* ReadFile fails *)
| Received (chunk : string). (* ReadFile returns these bytes *)

(** The outside world during one iteration: [env_write n] tells whether the
    [n]-th call of [WriteFile] (from 0) succeeds in full. *)
Record Env := mkEnv {
  env_connect : bool;
  env_write : nat -> bool;
  env_incoming : Incoming
}.

Record World := mkWorld {
  client : PipeClient;
  trace : list Event
}.

(** ** Computations: state, trace, and [goto disconnect] *)

Definition M (A : Type) : Type := World -> Flow A * World.

Definition ret {A} (a : A) : M A := fun w => (Done a, w).
Definition bind {A B} (m : M A) (k : A -> M B) : M B :=
  fun w => match m w with
           | (Done a, w') => k a w'
           | (GotoDisconnect, w') => (GotoDisconnect, w')
           end.
Definition goto_disconnect {A} : M A := fun w => (GotoDisconnect, w).
Definition get : M PipeClient := fun w => (Done (client w), w).
Definition modify (f : PipeClient -> PipeClient) : M unit :=
  fun w => (Done tt, mkWorld (f (client w)) (trace w)).
Definition emit (e : Event) : M unit :=
  fun w => (Done tt, mkWorld (client w) (trace w ++ [e])).

Notation "x <- m ;; k" := (bind m (fun x => k))
  (at level 61, m at next level, right associativity).
Notation "m ;; k" := (bind m (fun _ => k))
  (at level 61, right associativity).

(** The scope of a [std::lock_guard]: leaving it, also by [goto], unlocks. *)
Definition with_lock {A} (mu : Mutex) (body : M A) : M A :=
  fun w => match (emit (EvLock mu) ;; body) w with
           | (r, w') => (r, mkWorld (client w') (trace w' ++ [EvUnlock mu]))
           end.

(** The label [disconnect:] of [ThreadMain]. *)
Definition on_disconnect {A} (m : M A) (handler : M A) : M A :=
  fun w => match m w with
           | (Done a, w') => (Done a, w')
           | (GotoDisconnect, w') => handler w'
           end.

Fixpoint for_each {A} (l : list A) (body : A -> M unit) : M unit :=
  match l with
  | [] => ret tt
  | x :: l' => body x ;; for_each l' body
  end.

(** ** The setters of the producers (lines 50-144) *)

Definition SendOptions (options : list string) : M unit :=
  with_lock SendMutex (modify (set_pendingOptions (Some options))).

Definition SendClose : M unit :=
  with_lock SendMutex (modify (set_pendingClose true)).

Definition SendListen (on : bool) : M unit :=
  with_lock SendMutex (modify (set_pendingListen (Some on))).

Definition SendListenShouts (on : bool) : M unit :=
  with_lock SendMutex (modify (set_pendingListenVoiceHandle (Some on))).

Definition SendGameLanguage (langCode : string) : M unit :=
  let s := SanitizeInPlace langCode in
  if (s =? "")%string then ret tt
  else with_lock SendMutex (modify (set_desiredGameLang (Some s))).

(** [SendConfigOpen], [SendConfigClose], [SendConfigShouts], ...,
    [SendConfigPotions]: ten functions with the same body, each on its own
    member. *)
Definition SendConfig (c : CfgToggle) (enabled : bool) : M unit :=
  with_lock SendMutex (modify (set_desiredCfg c (Some enabled))).

(** ** Favorites (lines 31-49 of the header, 146-233) *)

Record ShoutEntry := mkShout {
  plugin : string;
  sh_formIdHex : string;
  sh_name : string;
  editorID : string
}.

Record PowerEntry := mkPower {
  pw_formIdHex : string;
  pw_name : string
}.

Record ItemEntry := mkItem {
  formIdHex : string;
  name : string
}.

Definition SendShoutsAllowed (shouts : list ShoutEntry) : M unit := ret tt.
Definition SendPowersAllowed (powers : list PowerEntry) : M unit := ret tt.
Definition SendWeaponsAllowed (weapons : list ItemEntry) : M unit := ret tt.
Definition SendSpellsAllowed (spells : list ItemEntry) : M unit := ret tt.
Definition SendPotionsAllowed (potions : list ItemEntry) : M unit := ret tt.

Definition fav_shout_line (entry : ShoutEntry) : string :=
  "FAV|SHOUT|" ++ SanitizeFavoriteField (plugin entry) ++ "|"
    ++ SanitizeInPlace (sh_formIdHex entry) ++ "|"
    ++ SanitizeFavoriteField (sh_name entry) ++ "|"
    ++ SanitizeFavoriteField (editorID entry).

Definition fav_power_line (entry : PowerEntry) : string :=
  "FAV|POWER|" ++ SanitizeInPlace (pw_formIdHex entry) ++ "|"
    ++ SanitizeFavoriteField (pw_name entry).

Definition fav_item_line (tag : string) (entry : ItemEntry) : string :=
  "FAV|" ++ tag ++ "|" ++ SanitizeInPlace (formIdHex entry) ++ "|"
    ++ SanitizeFavoriteField (name entry).

(** The vector [lines] that [SendAllFavorites] builds. *)
Definition favorites_lines (shouts : list ShoutEntry) (powers : list PowerEntry)
    (weapons spells potions : list ItemEntry) : list string :=
  (["FAV|BEGIN"]
     ++ List.map fav_shout_line shouts
     ++ List.map fav_power_line powers
     ++ List.map (fav_item_line "WEAPON") weapons
     ++ List.map (fav_item_line "SPELL") spells
     ++ List.map (fav_item_line "POTION") potions
     ++ ["FAV|END"])%list.

Definition SendAllFavorites (shouts : list ShoutEntry) (powers : list PowerEntry)
    (weapons spells potions : list ItemEntry) : M unit :=
  let lines := favorites_lines shouts powers weapons spells potions in
  with_lock SendMutex (modify (set_pendingFavorites (Some lines))).

(** ** The consumer side (lines 235-252) *)

Definition ConsumeLastResponse : M (option PipeResponse) :=
  with_lock RespMutex
    (st <- get ;;
     match responses st with
     | [] => ret None
     | r :: _ =>
         modify (set_responses (pop_front (responses st))) ;;
         ret (Some r)
     end).

Definition ConsumeConnectionEvent : M (option bool) :=
  with_lock ConnMutex
    (st <- get ;;
     modify (set_connEvent None) ;;
     ret (connEvent st)).

(** ** WriteLine (lines 254-266)

    The number of [WriteFile] calls made so far selects the answer of the
    channel. *)

Definition is_write (e : Event) : bool :=
  match e with EvWrite _ _ _ => true | _ => false end.

Definition write_calls (t : list Event) : nat :=
  List.length (List.filter is_write t).

Definition WriteLine (env : Env) (site : Site) (line : string) : M bool :=
  fun w =>
    if negb (connected (client w)) || negb (pipe (client w)) then (Done false, w)
    else
      let ok := env_write env (write_calls (trace w)) in
      (Done ok, mkWorld (client w) (trace w ++ [EvWrite site line ok])).

(** [if (!WriteLine(line)) goto disconnect;] *)
Definition write_or_disconnect (env : Env) (site : Site) (line : string)
  : M unit :=
  ok <- WriteLine env site line ;;
  if ok then ret tt else goto_disconnect.

(** ** HandleDisconnect (lines 697-732) *)

Definition HandleDisconnect : M unit :=
  st <- get ;;
  if negb (connected st) && negb (pipe st) then ret tt
  else
    (if pipe st then emit EvClose ;; modify (set_pipe false) else ret tt) ;;
    modify (set_connected false) ;;
    with_lock SendMutex
      (modify (set_lastSentCfg CfgOpen None) ;;
       modify (set_lastSentCfg CfgClose None) ;;
       modify (set_lastSentCfg CfgVoiceHandle None) ;;
       modify (set_lastSentCfg CfgDebug None) ;;
       modify (set_lastSentCfg CfgSaveWav None) ;;
       modify (set_lastSentCfg CfgDialogueSelect None) ;;
       modify (set_lastSentCfg CfgWeapons None) ;;
       modify (set_lastSentCfg CfgSpells None) ;;
       modify (set_lastSentCfg CfgPowers None) ;;
       modify (set_lastSentCfg CfgPotions None) ;;
       modify (set_lastSentGameLang None)) ;;
    with_lock ConnMutex (modify (set_connEvent (Some false))).

(** ** ProcessIncoming (lines 287-456) *)

Definition push_response (resp : PipeResponse) : M unit :=
  with_lock RespMutex
    (modify (fun st => set_responses (deposit resp (responses st)) st)).

Definition handle_line (line : string) : M unit :=
  if Str.starts_with "RES|" line then push_response (decode_RES line)
  else if Str.starts_with "TRIG|" line then push_response (decode_TRIG line)
  else if Str.starts_with "DBG|" line then push_response (decode_DBG line)
  else ret tt.

(** The loop [for (;;)] that cuts [_recvBuf] at each line feed. Each round
    removes at least one byte, so the length of the buffer bounds the
    number of rounds ([incoming_loop_breaks] below). *)
Fixpoint incoming_loop (rounds : nat) : M unit :=
  match rounds with
  | 0 => ret tt
  | S rounds' =>
      st <- get ;;
      match Str.find LF 0 (recvBuf st) with
      | None => ret tt
      | Some pos =>
          let line := Str.substr 0 pos (recvBuf st) in
          modify (set_recvBuf (Str.drop (pos + 1) (recvBuf st))) ;;
          handle_line line ;;
          incoming_loop rounds'
      end
  end.

Definition ProcessIncoming (env : Env) : M unit :=
  st <- get ;;
  if negb (connected st) || negb (pipe st) then ret tt
  else
    match env_incoming env with
    | PeekFails => emit (EvPeek false) ;; HandleDisconnect
    | NothingAvailable => emit (EvPeek true)
    | ReadFails => emit (EvPeek true) ;; emit (EvRead None) ;; HandleDisconnect
    | Received chunk =>
        emit (EvPeek true) ;;
        emit (EvRead (Some chunk)) ;;
        if (chunk =? "")%string then HandleDisconnect
        else
          modify (set_recvBuf (recvBuf st ++ chunk)) ;;
          incoming_loop (String.length (recvBuf st ++ chunk))
    end.

(** ** ThreadMain (lines 458-695) *)

Definition bit (b : bool) : string := if b then "1" else "0".

(** [!last.has_value() || last.value() != desired] *)
Definition differs {A} (eqb : A -> A -> bool) (last : option A) (desired : A)
  : bool :=
  match last with
  | None => true
  | Some v => negb (eqb v desired)
  end.

Definition transmit_lang (env : Env) (wroteAny : bool) : M bool :=
  st <- get ;;
  match desiredGameLang st with
  | Some desired =>
      if differs String.eqb (lastSentGameLang st) desired then
        write_or_disconnect env SiteLang ("LANG|" ++ desired) ;;
        modify (set_lastSentGameLang (Some desired)) ;;
        ret true
      else ret wroteAny
  | None => ret wroteAny
  end.

Definition transmit_options (env : Env) (wroteAny : bool) : M bool :=
  st <- get ;;
  match pendingOptions st with
  | Some opts =>
      modify (set_pendingOptions None) ;;
      write_or_disconnect env SiteOptions
        ("OPEN|" ++ Str.of_nat (List.length opts)) ;;
      for_each opts (fun s =>
        write_or_disconnect env SiteOptions (SanitizeInPlace ("OPT|" ++ s))) ;;
      write_or_disconnect env SiteOptions "END" ;;
      ret true
  | None => ret wroteAny
  end.

Definition transmit_close (env : Env) (wroteAny : bool) : M bool :=
  st <- get ;;
  if pendingClose st then
    write_or_disconnect env SiteClose "CLOSE" ;;
    modify (set_pendingClose false) ;;
    ret true
  else ret wroteAny.

Definition transmit_favorites (env : Env) (wroteAny : bool) : M bool :=
  st <- get ;;
  match pendingFavorites st with
  | Some lines =>
      modify (set_pendingFavorites None) ;;
      for_each lines (fun line => write_or_disconnect env SiteFavorites line) ;;
      ret true
  | None => ret wroteAny
  end.

Definition transmit_listen (env : Env) (wroteAny : bool) : M bool :=
  st <- get ;;
  match pendingListen st with
  | Some on =>
      write_or_disconnect env SiteListen ("LISTEN|" ++ bit on) ;;
      modify (set_pendingListen None) ;;
      ret true
  | None => ret wroteAny
  end.

(** The block of one CFG toggle; the source has it ten times. *)
Definition transmit_cfg (env : Env) (c : CfgToggle) (wroteAny : bool) : M bool :=
  st <- get ;;
  match cfg_get c (desiredCfg st) with
  | Some desired =>
      if differs Bool.eqb (cfg_get c (lastSentCfg st)) desired then
        write_or_disconnect env (SiteCfg c)
          ("CFG|" ++ cfg_name c ++ "|" ++ bit desired) ;;
        modify (set_lastSentCfg c (Some desired)) ;;
        ret true
      else ret wroteAny
  | None => ret wroteAny
  end.

Definition transmit_listen_shouts (env : Env) (wroteAny : bool) : M bool :=
  st <- get ;;
  match pendingListenVoiceHandle st with
  | Some on =>
      write_or_disconnect env SiteListenShouts ("LISTEN|SHOUTS|" ++ bit on) ;;
      modify (set_pendingListenVoiceHandle None) ;;
      ret true
  | None => ret wroteAny
  end.

(** The sixteen blocks of the transmit phase in the order of the text, from
    the value [wroteAny] of the local variable. *)
Definition transmit_blocks (env : Env) (wroteAny : bool) : M bool :=
  wroteAny <- transmit_lang env wroteAny ;;
  wroteAny <- transmit_options env wroteAny ;;
  wroteAny <- transmit_close env wroteAny ;;
  wroteAny <- transmit_favorites env wroteAny ;;
  wroteAny <- transmit_listen env wroteAny ;;
  wroteAny <- transmit_cfg env CfgOpen wroteAny ;;
  wroteAny <- transmit_cfg env CfgClose wroteAny ;;
  wroteAny <- transmit_cfg env CfgVoiceHandle wroteAny ;;
  wroteAny <- transmit_cfg env CfgDebug wroteAny ;;
  wroteAny <- transmit_cfg env CfgSaveWav wroteAny ;;
  wroteAny <- transmit_cfg env CfgDialogueSelect wroteAny ;;
  wroteAny <- transmit_cfg env CfgWeapons wroteAny ;;
  wroteAny <- transmit_cfg env CfgSpells wroteAny ;;
  wroteAny <- transmit_cfg env CfgPowers wroteAny ;;
  wroteAny <- transmit_cfg env CfgPotions wroteAny ;;
  transmit_listen_shouts env wroteAny.

(** [bool wroteAny = false;] and the block under
    [std::lock_guard lg(_sendMutex)] (lines 492-681); its result is
    [wroteAny]. *)
Definition transmit (env : Env) : M bool :=
  with_lock SendMutex (transmit_blocks env false).

(** The connect attempt at the head of the loop body (lines 464-490); the
    result tells whether the body goes on ([false]: [continue]). *)
Definition connect (env : Env) : M bool :=
  st <- get ;;
  if negb (connected st) then
    emit (EvConnect (env_connect env)) ;;
    if env_connect env then
      modify (set_pipe true) ;;
      modify (set_connected true) ;;
      with_lock ConnMutex (modify (set_connEvent (Some true))) ;;
      ret true
    else
      emit (EvSleep 1000) ;;
      ret false
  else ret true.

(** The service cycle (lines 492-693): transmit, read, and the idle sleep;
    [goto disconnect] lands on [HandleDisconnect] and the back-off. *)
Definition service_cycle (env : Env) : M unit :=
  on_disconnect
    (wroteAny <- transmit env ;;
     ProcessIncoming env ;;
     if negb wroteAny then emit (EvSleep 15) else ret tt)
    (HandleDisconnect ;; emit (EvSleep 1000)).

(** One round of [while (_running.load())]. *)
Definition ThreadMain_iteration (env : Env) : M unit :=
  go_on <- connect env ;;
  if go_on then service_cycle env else ret tt.

(** Running a computation on a client, from an empty trace. *)
Definition run {A} (m : M A) (st : PipeClient) : Flow A * World :=
  m (mkWorld st []).
Definition exec {A} (m : M A) (st : PipeClient) : PipeClient :=
  client (snd (run m st)).
Definition events {A} (m : M A) (st : PipeClient) : list Event :=
  trace (snd (run m st)).

(** The lines that reached the channel, with the place that wrote them. *)
Fixpoint sent (t : list Event) : list (Site * string) :=
  match t with
  | [] => []
  | EvWrite site line true :: t' => (site, line) :: sent t'
  | _ :: t' => sent t'
  end.


(** ** What a cycle has to send, read off the state

    For each block of the transmit phase: the lines it writes when no write
    fails, the state it leaves, and whether it sets [wroteAny].
    [transmit_refines] below proves that the blocks compute exactly these. *)

Definition tag (site : Site) (lines : list string) : list (Site * string) :=
  List.map (pair site) lines.

Definition is_some {A} (o : option A) : bool :=
  match o with Some _ => true | None => false end.

Definition nonempty {A} (l : list A) : bool :=
  match l with [] => false | _ :: _ => true end.

(** [lastSent] once the block of a sticky toggle is through. *)
Definition acknowledged {A} (desired last : option A) : option A :=
  match desired with Some d => Some d | None => last end.

Definition lang_lines (st : PipeClient) : list string :=
  match desiredGameLang st with
  | Some desired =>
      if differs String.eqb (lastSentGameLang st) desired
      then ["LANG|" ++ desired] else []
  | None => []
  end.

Definition options_lines (st : PipeClient) : list string :=
  match pendingOptions st with
  | Some opts =>
      ("OPEN|" ++ Str.of_nat (List.length opts))
        :: (List.map (fun s => SanitizeInPlace ("OPT|" ++ s)) opts ++ ["END"])%list
  | None => []
  end.

Definition close_lines (st : PipeClient) : list string :=
  if pendingClose st then ["CLOSE"] else [].

Definition favorites_due (st : PipeClient) : list string :=
  match pendingFavorites st with Some lines => lines | None => [] end.

Definition listen_lines (st : PipeClient) : list string :=
  match pendingListen st with Some on => ["LISTEN|" ++ bit on] | None => [] end.

Definition cfg_lines (c : CfgToggle) (st : PipeClient) : list string :=
  match cfg_get c (desiredCfg st) with
  | Some desired =>
      if differs Bool.eqb (cfg_get c (lastSentCfg st)) desired
      then ["CFG|" ++ cfg_name c ++ "|" ++ bit desired] else []
  | None => []
  end.

Definition listen_shouts_lines (st : PipeClient) : list string :=
  match pendingListenVoiceHandle st with
  | Some on => ["LISTEN|SHOUTS|" ++ bit on]
  | None => []
  end.

(** Everything due in a cycle that starts in [st], in the order of
    transmission. *)
Definition due (st : PipeClient) : list (Site * string) :=
  (tag SiteLang (lang_lines st)
     ++ tag SiteOptions (options_lines st)
     ++ tag SiteClose (close_lines st)
     ++ tag SiteFavorites (favorites_due st)
     ++ tag SiteListen (listen_lines st)
     ++ tag (SiteCfg CfgOpen) (cfg_lines CfgOpen st)
     ++ tag (SiteCfg CfgClose) (cfg_lines CfgClose st)
     ++ tag (SiteCfg CfgVoiceHandle) (cfg_lines CfgVoiceHandle st)
     ++ tag (SiteCfg CfgDebug) (cfg_lines CfgDebug st)
     ++ tag (SiteCfg CfgSaveWav) (cfg_lines CfgSaveWav st)
     ++ tag (SiteCfg CfgDialogueSelect) (cfg_lines CfgDialogueSelect st)
     ++ tag (SiteCfg CfgWeapons) (cfg_lines CfgWeapons st)
     ++ tag (SiteCfg CfgSpells) (cfg_lines CfgSpells st)
     ++ tag (SiteCfg CfgPowers) (cfg_lines CfgPowers st)
     ++ tag (SiteCfg CfgPotions) (cfg_lines CfgPotions st)
     ++ tag SiteListenShouts (listen_shouts_lines st))%list.

Definition acknowledge_cfg (c : CfgToggle) (st : PipeClient) : PipeClient :=
  set_lastSentCfg c
    (acknowledged (cfg_get c (desiredCfg st)) (cfg_get c (lastSentCfg st))) st.

(** The state after a transmit phase in which no write failed. *)
Definition transmitted (st : PipeClient) : PipeClient :=
  let st := set_lastSentGameLang
              (acknowledged (desiredGameLang st) (lastSentGameLang st)) st in
  let st := set_pendingOptions None st in
  let st := set_pendingClose false st in
  let st := set_pendingFavorites None st in
  let st := set_pendingListen None st in
  let st := acknowledge_cfg CfgOpen st in
  let st := acknowledge_cfg CfgClose st in
  let st := acknowledge_cfg CfgVoiceHandle st in
  let st := acknowledge_cfg CfgDebug st in
  let st := acknowledge_cfg CfgSaveWav st in
  let st := acknowledge_cfg CfgDialogueSelect st in
  let st := acknowledge_cfg CfgWeapons st in
  let st := acknowledge_cfg CfgSpells st in
  let st := acknowledge_cfg CfgPowers st in
  let st := acknowledge_cfg CfgPotions st in
  set_pendingListenVoiceHandle None st.

(** [wroteAny] at the end of such a phase. *)
Definition wrote_any (st : PipeClient) : bool :=
  nonempty (lang_lines st)
  || is_some (pendingOptions st)
  || pendingClose st
  || is_some (pendingFavorites st)
  || is_some (pendingListen st)
  || nonempty (cfg_lines CfgOpen st)
  || nonempty (cfg_lines CfgClose st)
  || nonempty (cfg_lines CfgVoiceHandle st)
  || nonempty (cfg_lines CfgDebug st)
  || nonempty (cfg_lines CfgSaveWav st)
  || nonempty (cfg_lines CfgDialogueSelect st)
  || nonempty (cfg_lines CfgWeapons st)
  || nonempty (cfg_lines CfgSpells st)
  || nonempty (cfg_lines CfgPowers st)
  || nonempty (cfg_lines CfgPotions st)
  || is_some (pendingListenVoiceHandle st).

(** The state that [HandleDisconnect] leaves when it does not return at
    once. *)
Definition disconnected (st : PipeClient) : PipeClient :=
  set_connEvent (Some false)
    (set_lastSentGameLang None
       (set_lastSentCfgs cfg_unset
          (set_connected false (set_pipe false st)))).

(** The sticky toggles: the game language and the ten CFG toggles. *)
Inductive Sticky :=
| StickyLang
| StickyCfg (c : CfgToggle).


(** The line that carries the desired value of a toggle, if one is set. *)
Definition desired_line (t : Sticky) (st : PipeClient) : option string :=
  match t with
  | StickyLang => option_map (fun s => "LANG|" ++ s) (desiredGameLang st)
  | StickyCfg c =>
      option_map (fun b => "CFG|" ++ cfg_name c ++ "|" ++ bit b)
                 (cfg_get c (desiredCfg st))
  end.


Definition live (st : PipeClient) : Prop :=
  connected st = true /\ pipe st = true.

(** ** What a read delivers, read off the buffer

    The message that a line carries, if it carries one. *)
Definition decode_line (line : string) : option PipeResponse :=
  if Str.starts_with "RES|" line then Some (decode_RES line)
  else if Str.starts_with "TRIG|" line then Some (decode_TRIG line)
  else if Str.starts_with "DBG|" line then Some (decode_DBG line)
  else None.

(** The messages of the complete lines of a buffer, oldest first. *)
Fixpoint messages (lines : list string) : list PipeResponse :=
  match lines with
  | [] => []
  | line :: lines' =>
      match decode_line line with
      | Some r => r :: messages lines'
      | None => messages lines'
      end
  end.

Definition deposit_all (rs : list PipeResponse) (q : list PipeResponse)
  : list PipeResponse :=
  List.fold_left (fun q r => deposit r q) rs q.

(** The state after [chunk] has been appended to the buffer and the loop
    has run. *)
Definition received (chunk : string) (st : PipeClient) : PipeClient :=
  let buf := recvBuf st ++ chunk in
  set_recvBuf (snd (Str.cut LF buf))
    (set_responses
       (deposit_all (messages (fst (Str.cut LF buf))) (responses st)) st).

(** The events of [HandleDisconnect] when it does not return at once. *)
Definition disconnect_events (st : PipeClient) : list Event :=
  ((if pipe st then [EvClose] else [])
     ++ [EvLock SendMutex; EvUnlock SendMutex;
         EvLock ConnMutex; EvUnlock ConnMutex])%list.

Fixpoint deposit_events (rs : list PipeResponse) : list Event :=
  match rs with
  | [] => []
  | _ :: rs' => EvLock RespMutex :: EvUnlock RespMutex :: deposit_events rs'
  end.

(** State and events of [ProcessIncoming] on a live client. *)
Definition incoming_state (i : Incoming) (st : PipeClient) : PipeClient :=
  match i with
  | PeekFails | ReadFails => disconnected st
  | NothingAvailable => st
  | Received chunk =>
      if (chunk =? "")%string then disconnected st else received chunk st
  end.

Definition incoming_events (i : Incoming) (st : PipeClient) : list Event :=
  match i with
  | PeekFails => EvPeek false :: disconnect_events st
  | NothingAvailable => [EvPeek true]
  | ReadFails => EvPeek true :: EvRead None :: disconnect_events st
  | Received chunk =>
      EvPeek true :: EvRead (Some chunk)
        :: (if (chunk =? "")%string then disconnect_events st
            else deposit_events
                   (messages (fst (Str.cut LF (recvBuf st ++ chunk)))))
  end.

(** ** Notions used to state the properties of the engine *)

Local Open Scope list_scope.

(** The event of a write that succeeds. *)
Definition written (p : Site * string) : Event := EvWrite (fst p) (snd p) true.

(** ** PipeClient states: what the transmit phase leaves alone *)

Definition steady (st st' : PipeClient) : Prop :=
  connected st' = connected st /\ pipe st' = pipe st
  /\ recvBuf st' = recvBuf st
  /\ desiredGameLang st' = desiredGameLang st
  /\ desiredCfg st' = desiredCfg st
  /\ responses st' = responses st
  /\ connEvent st' = connEvent st.

(** ** A block of the transmit phase against its closed form

    [refines env step d post wrote]: started in a live state [st] with
    [wroteAny = wa], the block either writes the lines [d st] and goes on in
    state [post st] with [wroteAny = wa || wrote st], or stops at
    [goto disconnect] on the first line of [d st] that the channel refuses,
    the lines before it written. *)

Definition refines (env : Env) (step : bool -> M bool)
    (d : PipeClient -> list (Site * string)) (post : PipeClient -> PipeClient)
    (wrote : PipeClient -> bool) : Prop :=
  forall wa w, live (client w) ->
    match step wa w with
    | (Done wa', w') =>
        trace w' = trace w ++ map written (d (client w))
        /\ client w' = post (client w)
        /\ wa' = wa || wrote (client w)
    | (GotoDisconnect, w') =>
        exists pre p rest,
          d (client w) = pre ++ p :: rest
          /\ trace w' = trace w ++ map written pre ++ [EvWrite (fst p) (snd p) false]
          /\ env_write env (write_calls (trace w) + List.length pre) = false
          /\ steady (client w) (client w')
    end.

(** The state after a successful connect. *)
Definition connected_now (st : PipeClient) : PipeClient :=
  set_connEvent (Some true) (set_connected true (set_pipe true st)).

(** No write fails. *)
Definition channel_ok (env : Env) : Prop := forall n, env_write env n = true.

(** The events and the state of a service cycle in which no write fails. *)
Definition cycle_events (env : Env) (st : PipeClient) : list Event :=
  EvLock SendMutex
    :: map written (due st)
    ++ EvUnlock SendMutex
    :: incoming_events (env_incoming env) (transmitted st)
    ++ (if wrote_any st then [] else [EvSleep 15]).

Definition cycle_state (env : Env) (st : PipeClient) : PipeClient :=
  incoming_state (env_incoming env) (transmitted st).

(** The events of a service cycle in which the write of [p] fails after
    the lines [pre]; [st'] is the state at the failure. *)
Definition failed_events (pre : list (Site * string)) (p : Site * string)
    (st' : PipeClient) : list Event :=
  EvLock SendMutex
    :: map written pre
    ++ EvWrite (fst p) (snd p) false :: EvUnlock SendMutex
    :: disconnect_events st' ++ [EvSleep 1000].

(** A service cycle takes place in this iteration: the client is connected,
    or it is not and the connect attempt succeeds. *)
Definition cycle_begins (env : Env) (st : PipeClient) : Prop :=
  live st \/ (connected st = false /\ env_connect env = true).

(** The state in which the service cycle starts, and the events before
    it. *)
Definition entering (st : PipeClient) : PipeClient :=
  if connected st then st else connected_now st.

Definition connect_events (st : PipeClient) : list Event :=
  if connected st then []
  else [EvConnect true; EvLock ConnMutex; EvUnlock ConnMutex].

(** ** The order of the places *)

Definition in_order (l : list (Site * string)) : Prop :=
  StronglySorted (fun a b => site_rank (fst a) <= site_rank (fst b)) l.

(** Blocks in the order of their ranks give lines in order. *)
Fixpoint flatten (bs : list (Site * list string)) : list (Site * string) :=
  match bs with
  | [] => []
  | b :: bs' => tag (fst b) (snd b) ++ flatten bs'
  end.

Definition due_blocks (st : PipeClient) : list (Site * list string) :=
  [ (SiteLang, lang_lines st);
    (SiteOptions, options_lines st);
    (SiteClose, close_lines st);
    (SiteFavorites, favorites_due st);
    (SiteListen, listen_lines st);
    (SiteCfg CfgOpen, cfg_lines CfgOpen st);
    (SiteCfg CfgClose, cfg_lines CfgClose st);
    (SiteCfg CfgVoiceHandle, cfg_lines CfgVoiceHandle st);
    (SiteCfg CfgDebug, cfg_lines CfgDebug st);
    (SiteCfg CfgSaveWav, cfg_lines CfgSaveWav st);
    (SiteCfg CfgDialogueSelect, cfg_lines CfgDialogueSelect st);
    (SiteCfg CfgWeapons, cfg_lines CfgWeapons st);
    (SiteCfg CfgSpells, cfg_lines CfgSpells st);
    (SiteCfg CfgPowers, cfg_lines CfgPowers st);
    (SiteCfg CfgPotions, cfg_lines CfgPotions st);
    (SiteListenShouts, listen_shouts_lines st) ].

(** ** One-shot commands: what a producer can set *)

Inductive OneShot :=
| SetOptions (options : list string)
| SetClose
| SetFavorites (shouts : list ShoutEntry) (powers : list PowerEntry)
               (weapons spells potions : list ItemEntry)
| SetListen (on : bool)
| SetListenShouts (on : bool).

Definition set_oneshot (c : OneShot) : M unit :=
  match c with
  | SetOptions options => SendOptions options
  | SetClose => SendClose
  | SetFavorites shouts powers weapons spells potions =>
      SendAllFavorites shouts powers weapons spells potions
  | SetListen on => SendListen on
  | SetListenShouts on => SendListenShouts on
  end.




(** ** Producers

    The setters that a producer thread can call, and a burst of calls. *)

Inductive Producer :=
| Command (c : OneShot)
| Config (c : CfgToggle) (enabled : bool)
| Language (langCode : string).

Definition produce (p : Producer) : M unit :=
  match p with
  | Command c => set_oneshot c
  | Config c enabled => SendConfig c enabled
  | Language langCode => SendGameLanguage langCode
  end.



(** ** Observations on a trace *)

(** The idle sleep of 15 ms was taken. *)
Definition is_idle_sleep (e : Event) : bool :=
  match e with EvSleep 15 => true | _ => false end.

Definition slept_idle (t : list Event) : bool := existsb is_idle_sleep t.

(** The back-off sleep of one second was taken. *)
Definition is_backoff_sleep (e : Event) : bool :=
  match e with EvSleep 1000 => true | _ => false end.

Definition slept_backoff (t : list Event) : bool := existsb is_backoff_sleep t.

(** Some line reached the channel. *)
Definition transmitted_any (t : list Event) : bool := nonempty (sent t).

(** Some bytes were read from the channel. *)
Definition is_data_read (e : Event) : bool :=
  match e with
  | EvRead (Some chunk) => negb (chunk =? "")%string
  | _ => false
  end.

Definition read_any (t : list Event) : bool := existsb is_data_read t.

(** A write was refused by the channel. *)
Definition is_failed_write (e : Event) : bool :=
  match e with EvWrite _ _ false => true | _ => false end.

Definition write_failed (t : list Event) : bool := existsb is_failed_write t.

(** A favorites batch always has its two frame lines. *)
Definition favorites_framed (st : PipeClient) : Prop :=
  pendingFavorites st <> Some [].

(** The events that the read phase and [HandleDisconnect] can produce. *)
Definition is_quiet (e : Event) : bool :=
  match e with
  | EvPeek _ | EvRead _ | EvClose | EvLock _ | EvUnlock _ => true
  | _ => false
  end.

(** ** Locks and the outside world *)

Definition Mutex_eqb (a b : Mutex) : bool :=
  match a, b with
  | SendMutex, SendMutex | RespMutex, RespMutex | ConnMutex, ConnMutex => true
  | _, _ => false
  end.

Definition is_lock_event (e : Event) : bool :=
  match e with EvLock _ | EvUnlock _ => true | _ => false end.

(** The operations on the outside world (connect, write, peek, read,
    close, sleep) that a trace performs while a mutex is held, each with
    that mutex; [held] are the mutexes held at the start. *)
Fixpoint io_under_lock (held : list Mutex) (t : list Event)
  : list (Mutex * Event) :=
  match t with
  | [] => []
  | EvLock m :: t' => io_under_lock (m :: held) t'
  | EvUnlock m :: t' =>
      io_under_lock (List.filter (fun m' => negb (Mutex_eqb m m')) held) t'
  | e :: t' => List.map (fun m => (m, e)) held ++ io_under_lock held t'
  end.

(** A trace of lock and unlock events only. *)
Definition io_free (t : list Event) : Prop :=
  Forall (fun e => is_lock_event e = true) t.

(** A channel write done with the send mutex held. *)
Definition send_write (me : Mutex * Event) : Prop :=
  fst me = SendMutex /\ is_write (snd me) = true.

(** Handle and flag agree, as they do whenever the engine is between two
    steps. *)
Definition link_consistent (st : PipeClient) : Prop :=
  connected st = pipe st.

(** ** Reading a favorites batch back

    Modelled from the spec: the recogniser of FAV lines belongs to the
    companion process, which is not part of this repository; it is taken
    from section 4.1 of the specification, which gives the shape of each
    line: the fields between the separators, the tag in the second one. *)

Inductive FavLine :=
| FavBegin
| FavEnd
| FavShout (plugin formIdHex name editorID : string)
| FavPower (formIdHex name : string)
| FavWeapon (formIdHex name : string)
| FavSpell (formIdHex name : string)
| FavPotion (formIdHex name : string).

Definition recognize (line : string) : option FavLine :=
  match Str.split BAR line with
  | [fav; t] =>
      if (fav =? "FAV") && (t =? "BEGIN") then Some FavBegin
      else if (fav =? "FAV") && (t =? "END") then Some FavEnd
      else None
  | [fav; t; f; n] =>
      if negb (fav =? "FAV") then None
      else if t =? "POWER" then Some (FavPower f n)
      else if t =? "WEAPON" then Some (FavWeapon f n)
      else if t =? "SPELL" then Some (FavSpell f n)
      else if t =? "POTION" then Some (FavPotion f n)
      else None
  | [fav; t; p; f; n; e] =>
      if (fav =? "FAV") && (t =? "SHOUT") then Some (FavShout p f n e)
      else None
  | _ => None
  end.


(** What a batch is expected to read back as: the entries in the order of
    the five lists, each field as it was sanitised. *)
Definition expected_shout (e : ShoutEntry) : FavLine :=
  FavShout (SanitizeFavoriteField (plugin e)) (SanitizeInPlace (sh_formIdHex e))
           (SanitizeFavoriteField (sh_name e)) (SanitizeFavoriteField (editorID e)).

Definition expected_power (e : PowerEntry) : FavLine :=
  FavPower (SanitizeInPlace (pw_formIdHex e)) (SanitizeFavoriteField (pw_name e)).

Definition expected_item (k : string -> string -> FavLine) (e : ItemEntry)
  : FavLine :=
  k (SanitizeInPlace (formIdHex e)) (SanitizeFavoriteField (name e)).




(** A line is one frame: it holds neither a line feed nor a carriage
    return. *)
Definition one_frame (line : string) : Prop :=
  Str.mem LF line = false /\ Str.mem CR line = false.

(** ** The layouts of a TRIG line

    The layout of each kind as section 4.1 of the specification gives it:
    the fields between the separators, the text last (it may hold
    separators itself), [power] as the specification writes it in
    [shout], the score a number. This definition follows the
    specification, not the code; the decoder is compared with it below. *)

Definition spec_trig_layout (line : string) : bool :=
  match Str.split BAR line with
  | t :: kind :: fields =>
      (t =? "TRIG")%string
      && (if (kind =? "shout")%string then
            match fields with
            | _ :: _ :: power :: sc :: _ :: _ =>
                is_some (stoi power) && is_some (stof sc)
            | _ => false
            end
          else if (kind =? "power")%string || (kind =? "weapon")%string
                  || (kind =? "spell")%string || (kind =? "potion")%string then
            match fields with
            | _ :: sc :: _ :: _ => is_some (stof sc)
            | _ => false
            end
          else
            match fields with
            | sc :: _ :: _ => is_some (stof sc)
            | _ => false
            end)
  | _ => false
  end.

(** The [k]-th field of a line (from 0), when a separator ends it. *)
Definition ended_field (k : nat) (line : string) : option string :=
  let fields := Str.split BAR line in
  if (S k <? List.length fields)%nat then nth_error fields k else None.

(** ** The claims that the code does not bear out, as they are stated *)

(** The idle sleep is taken exactly when nothing was transmitted and
    nothing was read. *)
Definition idle_iff_nothing_sent_or_read (t : list Event) : Prop :=
  slept_idle t = true <-> (transmitted_any t = false /\ read_any t = false).

(** Nothing is done to the outside world while a mutex is held. *)
Definition no_io_under_lock (t : list Event) : Prop :=
  io_under_lock [] t = [].


End Client.

Arguments HandleDisconnect {float}.
Arguments SendClose {float}.
Arguments ConsumeLastResponse {float}.
Arguments ConsumeConnectionEvent {float}.
Arguments client_init {float}.

Notation "x <- m ;; k" := (bind m (fun x => k))
  (at level 61, m at next level, right associativity).
Notation "m ;; k" := (bind m (fun _ => k))
  (at level 61, right associativity).

(* ================================================================== *)
(** * An instance and inputs for running the model *)
(* ================================================================== *)

(** Scores as thousandths, read from a decimal numeral: enough of
    [std::stof] to run the model on examples. *)
Module Milli.

Local Open Scope Z_scope.

Fixpoint read_int (acc : Z) (seen : bool) (s : string) : option (Z * string) :=
  match s with
  | String a s' =>
      match digit_of a with
      | Some d => read_int (10 * acc + d) true s'
      | None => if seen then Some (acc, s) else None
      end
  | EmptyString => if seen then Some (acc, s) else None
  end.

Fixpoint read_frac (scale acc : Z) (s : string) : Z :=
  match s with
  | String a s' =>
      match digit_of a with
      | Some d => read_frac (scale / 10) (acc + d * scale) s'
      | None => acc
      end
  | EmptyString => acc
  end.

Definition stof (s : string) : option Z :=
  let s1 := skip_spaces s in
  let '(neg, s2) :=
    match s1 with
    | String "-" r => (true, r)
    | String "+" r => (false, r)
    | _ => (false, s1)
    end in
  match read_int 0 false s2 with
  | Some (i, rest) =>
      let f := match rest with
               | String "." r => read_frac 100 0 r
               | _ => 0
               end in
      let v := 1000 * i + f in
      Some (if neg then - v else v)
  | None => None
  end.

End Milli.

Module Sample.

Local Open Scope string_scope.

(** The engine on scores in thousandths. *)
Definition iteration (env : Env) : M Z unit :=
  ThreadMain_iteration 0%Z Milli.stof env.

(** A channel that accepts every write. *)
Definition accepts (_ : nat) : bool := true.

(** The companion listens, accepts every write and sends nothing. *)
Definition env_silent : Env := mkEnv true accepts NothingAvailable.

(** The companion listens, accepts every write and sends one debug line. *)
Definition env_talking : Env :=
  mkEnv true accepts (Received ("DBG|hi" ++ String LF "")).

(** A connected client with nothing to send. *)
Definition client_idle : PipeClient Z :=
  set_connected true (set_pipe true client_init).


(** A connected client in the burst of section 8.7 of the specification:
    CFG|SHOUTS desired and shout listening requested, nothing sent yet. *)
Definition client_burst : PipeClient Z :=
  set_pendingListenVoiceHandle (Some true)
    (set_desiredCfg CfgVoiceHandle (Some true) client_idle).

(** A connected client whose CFG|OPEN toggle is due. *)
Definition client_cfg_due : PipeClient Z :=
  set_desiredCfg CfgOpen (Some true) client_idle.




(** A shout trigger whose power is not a number. *)
Definition trig_garbled : string :=
  "TRIG|shout|Skyrim.esm|0x0013E09|x|0.8|fus ro dah".

End Sample.

(* ================================================================== *)
(** * Form ids (include/ShoutsInternal.h, src/src/VoiceTrigger.cpp) *)
(* ================================================================== *)

(** [RE::FormID] is [std::uint32_t]: a [Z] in the range of 32 bits. *)
Module FormID.

Local Open Scope Z_scope.

Definition UINT32_MAX : Z := 0xFFFFFFFF.

(** The conversion to [std::uint32_t]. *)
Definition u32 (x : Z) : Z := x mod 2 ^ 32.

(** The digit that [std::hex] with [std::uppercase] prints for [d]. *)
Definition hex_digit (d : Z) : ascii :=
  if d <? 10 then ascii_of_nat (Z.to_nat (48 + d))
  else ascii_of_nat (Z.to_nat (55 + d)).

(** [ss << std::hex << std::uppercase << n]: the digits of [n] in base 16,
    the most significant first, no leading zero, ["0"] for zero. A 32-bit
    value has at most eight of them, which bounds the recursion. *)
Fixpoint to_hex (digits : nat) (n : Z) : string :=
  match digits with
  | O => EmptyString
  | S digits' =>
      String.append
        (if n / 16 =? 0 then EmptyString else to_hex digits' (n / 16))
        (String (hex_digit (n mod 16)) EmptyString)
  end.

(** ShoutsInternal.h, lines 35-47. *)
Definition FormIDToHex (id : Z) : string := to_hex 8 id.

Definition BaseIDToHex (id : Z) : string := to_hex 8 (Z.land id 0x00FFFFFF).

(** The value of a digit of base 16, in either case. *)
Definition hex_val (c : ascii) : option Z :=
  let n := Z.of_nat (nat_of_ascii c) in
  if (48 <=? n) && (n <=? 57) then Some (n - 48)
  else if (97 <=? n) && (n <=? 102) then Some (n - 87)
  else if (65 <=? n) && (n <=? 70) then Some (n - 55)
  else None.

(** The value of the leading digits of [s]; [None]: there is none. *)
Fixpoint read_hex (acc : Z) (seen : bool) (s : string) : option Z :=
  match s with
  | String a s' =>
      match hex_val a with
      | Some d => read_hex (16 * acc + d) true s'
      | None => if seen then Some acc else None
      end
  | EmptyString => if seen then Some acc else None
  end.

(** [std::from_chars(first, last, value, 16)] into a [std::uint32_t]: no
    white space, no sign and no prefix is skipped; the longest run of
    digits is read. [None] stands for an error code: no digit at the
    start, or a value that 32 bits do not hold. *)
Definition from_chars_hex (s : string) : option Z :=
  match read_hex 0 false s with
  | Some v => if v <=? UINT32_MAX then Some v else None
  | None => None
  end.

(** VoiceTrigger.cpp, lines 44-57. *)
Definition ParseHexFormID (hex : string) : Z :=
  let sv :=
    if Str.starts_with "0x" hex || Str.starts_with "0X" hex
    then Str.drop 2 hex else hex in
  match from_chars_hex sv with
  | Some result => result
  | None => 0
  end.

(** VoiceTrigger.cpp, lines 60-65. *)
Definition ClampPower (power : Z) : Z :=
  if power <? 1 then 1
  else if 3 <? power then 3
  else power.

(** What [ComposeRuntimeFormID] asks of [RE::TESDataHandler]: the load
    index of a plugin among the full plugins (a [std::uint8_t]) and among
    the light ones (a [std::uint16_t]). *)
Record TESDataHandler := mkDataHandler {
  GetLoadedModIndex : string -> option Z;
  GetLoadedLightModIndex : string -> option Z
}.

(** VoiceTrigger.cpp, lines 83-104; [None] as the data handler: the
    singleton is null. *)
Definition ComposeRuntimeFormID (dataHandler : option TESDataHandler)
    (plugin : string) (baseId : Z) : Z :=
  if (plugin =? "")%string then 0
  else
    match dataHandler with
    | None => 0
    | Some dh =>
        match GetLoadedModIndex dh plugin with
        | Some idx =>
            Z.lor (u32 (Z.shiftl (u32 idx) 24)) (Z.land baseId 0x00FFFFFF)
        | None =>
            match GetLoadedLightModIndex dh plugin with
            | Some idx =>
                let lightId := Z.land (u32 idx) 0x00000FFF in
                Z.lor (Z.lor 0xFE000000 (u32 (Z.shiftl lightId 12)))
                      (Z.land baseId 0x00000FFF)
            | None => 0
            end
        end
    end.

(** A [RE::TESShout] as [ValidateShoutContext] reads it: the spells of
    its three variations ([None]: a null pointer). *)
Record TESShout := mkTESShout {
  variations : list (option nat)
}.

(** The game as [ValidateShoutContext] sees it. *)
Record Game := mkGame {
  dataHandler : option TESDataHandler;
  LookupShout : Z -> option TESShout
}.

Record ShoutContext := mkShoutContext {
  ctx_formID : Z;
  ctx_power : Z;
  ctx_shout : TESShout;
  ctx_spell : nat
}.

End FormID.

Section Validate.

Variable float : Type.

Import FormID.
Local Open Scope Z_scope.

(** VoiceTrigger.cpp, lines 109-153; [None]: it returns [false].
    [variations[vi]] is an element of an array of three: [None] as the
    result of [nth_error] would be a read out of bounds. *)
Definition ValidateShoutContext (game : Game) (resp : PipeResponse float)
  : option ShoutContext :=
  let baseId := ParseHexFormID (shoutFormID resp) in
  if baseId =? 0 then None
  else
    let formID := ComposeRuntimeFormID (dataHandler game) (shoutPlugin resp)
                    baseId in
    if formID =? 0 then None
    else
      let power := ClampPower (shoutPower resp) in
      match LookupShout game formID with
      | None => None
      | Some shout =>
          let vi := power - 1 in
          match nth_error (variations shout) (Z.to_nat vi) with
          | Some (Some spell) => Some (mkShoutContext formID power shout spell)
          | _ => None
          end
      end.

(** The index into [variations] that [ValidateShoutContext] computes. *)
Definition variation_index (resp : PipeResponse float) : Z :=
  ClampPower (shoutPower resp) - 1.

End Validate.

(** Sample inputs. *)
Module FormIDCases.

Import FormID.
Local Open Scope Z_scope.

(** A load order that holds Skyrim.esm alone, at index 0. *)
Definition dh_skyrim : TESDataHandler :=
  mkDataHandler (fun p => if (p =? "Skyrim.esm")%string then Some 0 else None)
                (fun _ => None).

End FormIDCases.

(* ================================================================== *)
(** * The favorites scanner (src/src/FavoritesWatcher.cpp) *)
(* ================================================================== *)

(** What the scanner reads from the game (the favorites of the player,
    the forms and their names) is an input: the model starts where a
    form has passed the filters of its loop. *)
Module Favorites.

Import FormID.

(** [SafeName], lines 31-39; [None]: a null pointer. *)
Definition SafeName (raw : option string) : string :=
  match raw with
  | None => EmptyString
  | Some s =>
      Str.map (fun c => if Ascii.eqb c BAR || Ascii.eqb c LF || Ascii.eqb c CR
                        then SP else c) s
  end.

(** The entry that [CollectShouts] builds for a known favorite shout
    (lines 329-346): [fileName] is the name of the file of the shout
    ([None]: no file). A shout without a plugin name is left out; one
    without a name is not. *)
Definition shout_entry (fullName editorId fileName : option string) (id : Z)
  : option ShoutEntry :=
  let name := SafeName fullName in
  let editorID := SafeName editorId in
  let pluginName :=
    match fileName with
    | Some f => SafeName (Some f)
    | None => EmptyString
    end in
  if (pluginName =? "")%string then None
  else Some (mkShout pluginName
               ("0x" ++ FormIDToHex (Z.land id 0x00FFFFFF))%string
               name editorID).

(** The entry that [CollectPowers] builds (lines 396-402); a power
    without a name is left out. *)
Definition power_entry (fullName : option string) (id : Z)
  : option PowerEntry :=
  let name := SafeName fullName in
  if (name =? "")%string then None
  else Some (mkPower ("0x" ++ FormIDToHex id)%string name).

(** The entry that [CollectFavoriteWeapons], [CollectFavoriteSpells] and
    [CollectFavoritePotions] build (lines 156-161, 197-203, 264-281). *)
Definition item_entry (fullName : option string) (id : Z)
  : option ItemEntry :=
  let name := SafeName fullName in
  if (name =? "")%string then None
  else Some (mkItem ("0x" ++ FormIDToHex id)%string name).

(** The three overloads of [EntriesEqual], lines 41-63: the sizes, then
    [std::equal] with the comparison of the members. *)
Definition shout_eqb (lhs rhs : ShoutEntry) : bool :=
  (plugin lhs =? plugin rhs)%string
  && (sh_formIdHex lhs =? sh_formIdHex rhs)%string
  && (sh_name lhs =? sh_name rhs)%string
  && (editorID lhs =? editorID rhs)%string.

Definition power_eqb (lhs rhs : PowerEntry) : bool :=
  (pw_formIdHex lhs =? pw_formIdHex rhs)%string
  && (pw_name lhs =? pw_name rhs)%string.

Definition item_eqb (lhs rhs : ItemEntry) : bool :=
  (formIdHex lhs =? formIdHex rhs)%string && (name lhs =? name rhs)%string.

Definition EntriesEqual {A} (eqb : A -> A -> bool) (a b : list A) : bool :=
  if negb (List.length a =? List.length b)%nat then false
  else forallb (fun p => eqb (fst p) (snd p)) (List.combine a b).

(** The five vectors that a scan collects. *)
Record Scan := mkScan {
  shouts : list ShoutEntry;
  powers : list PowerEntry;
  weapons : list ItemEntry;
  spells : list ItemEntry;
  potions : list ItemEntry
}.

(** [g_lastShouts], ..., [g_lastPotions] are a [Scan]. *)
Definition scan_init : Scan := mkScan [] [] [] [] [].

Definition scan_changed (now last : Scan) : bool :=
  negb (EntriesEqual shout_eqb (shouts now) (shouts last))
  || negb (EntriesEqual power_eqb (powers now) (powers last))
  || negb (EntriesEqual item_eqb (weapons now) (weapons last))
  || negb (EntriesEqual item_eqb (spells now) (spells last))
  || negb (EntriesEqual item_eqb (potions now) (potions last)).

(** The entries that the scanner builds. *)
Definition scanned_shout (e : ShoutEntry) : Prop :=
  exists fullName editorId fileName id,
    shout_entry fullName editorId fileName id = Some e.

Definition scanned_power (e : PowerEntry) : Prop :=
  exists fullName id, (0 <= id)%Z /\ power_entry fullName id = Some e.

Definition scanned_item (e : ItemEntry) : Prop :=
  exists fullName id, (0 <= id)%Z /\ item_entry fullName id = Some e.

End Favorites.

Section Scanner.

Variable float : Type.

Import Favorites.

(** [ScanAllFavorites], lines 414-465, from what the five collectors
    return: the new [g_last...] and what is done to the pipe client. *)
Definition ScanAllFavorites (now : Scan) (force : bool) (last : Scan)
  : Scan * M float unit :=
  let changed := scan_changed now last in
  (now,
   if changed || force
   then SendAllFavorites (shouts now) (powers now) (weapons now)
          (spells now) (potions now)
   else ret tt).

End Scanner.

(** Sample inputs. *)
Module FavoritesCases.

Import FormID FormIDCases Favorites.
Local Open Scope string_scope.

(** The entry that the scanner builds for Unrelenting Force, whose editor
    id is given with a separator inside. *)
Definition scanned_force : ShoutEntry :=
  mkShout "Skyrim.esm" "0x13E09" "Unrelenting Force" "Fus Ro".

(** A game that holds Skyrim.esm alone and knows this one shout. *)
Definition game_skyrim : Game :=
  mkGame (Some dh_skyrim)
    (fun id => if (id =? 0x13E09)%Z
               then Some (mkTESShout [Some 1%nat; Some 2%nat; Some 3%nat])
               else None).

End FavoritesCases.

(* ================================================================== *)
(** * The client over its life *)
(* ================================================================== *)

Section Life.

Variable float : Type.
Variable float_zero : float.
Variable stof : string -> option float.

(** The states of the client: as constructed, and after any call of a
    setter by a producer, any call of a consumer operation, and any round
    of the loop of [ThreadMain], whatever the channel does in it. *)
Inductive reachable : PipeClient float -> Prop :=
| reach_init : reachable client_init
| reach_produce st p :
    reachable st -> reachable (exec (produce p) st)
| reach_response st :
    reachable st -> reachable (exec ConsumeLastResponse st)
| reach_event st :
    reachable st -> reachable (exec ConsumeConnectionEvent st)
| reach_iteration st env :
    reachable st ->
    reachable (exec (ThreadMain_iteration float_zero stof env) st).

(** Every line handed to [WriteFile] in a trace, accepted or not, is one
    frame. *)
Definition framed_event (e : Event) : Prop :=
  match e with
  | EvWrite _ line _ => one_frame line
  | _ => True
  end.

Definition writes_framed (t : list Event) : Prop := Forall framed_event t.

(** What is stored for transmission as it is holds no line break. *)
Definition framed (st : PipeClient float) : Prop :=
  (forall l, desiredGameLang st = Some l -> one_frame l)
  /\ (forall lines, pendingFavorites st = Some lines -> Forall one_frame lines).

(** No acknowledgement is recorded. *)
Definition nothing_acknowledged (st : PipeClient float) : Prop :=
  lastSentCfg st = cfg_unset /\ lastSentGameLang st = None.

(** What holds of the client between any two steps. *)
Definition sound (st : PipeClient float) : Prop :=
  connected st = pipe st
  /\ (List.length (responses st) <= 128)%nat
  /\ Str.mem LF (recvBuf st) = false
  /\ (connected st = false -> nothing_acknowledged st)
  /\ (forall b, connEvent st = Some b -> connected st = b)
  /\ framed st.

End Life.


(** ** The state at a failed write

    [refines_to env step d post fail wrote]: as [refines], and when the
    block stops at [goto disconnect] after [n] of its lines, the client is
    in state [fail n st]. *)

Section Interrupted.

Variable float : Type.

Definition refines_to (env : Env) (step : bool -> M float bool)
    (d : PipeClient float -> list (Site * string))
    (post : PipeClient float -> PipeClient float)
    (fail : nat -> PipeClient float -> PipeClient float)
    (wrote : PipeClient float -> bool) : Prop :=
  forall wa w, live (client w) ->
    match step wa w with
    | (Done wa', w') =>
        trace w' = (trace w ++ List.map (@written) (d (client w)))%list
        /\ client w' = post (client w)
        /\ wa' = wa || wrote (client w)
    | (GotoDisconnect, w') =>
        exists pre p rest,
          d (client w) = (pre ++ p :: rest)%list
          /\ trace w' = (trace w ++ List.map (@written) pre
                           ++ [EvWrite (fst p) (snd p) false])%list
          /\ env_write env (write_calls (trace w) + List.length pre) = false
          /\ client w' = fail (List.length pre) (client w)
    end.

(** The state at a failure in two blocks that follow each other. *)
Definition seq_fail (d1 : PipeClient float -> list (Site * string))
    (post1 : PipeClient float -> PipeClient float)
    (fail1 fail2 : nat -> PipeClient float -> PipeClient float)
    (n : nat) (st : PipeClient float) : PipeClient float :=
  if (n <? List.length (d1 st))%nat then fail1 n st
  else fail2 (n - List.length (d1 st)) (post1 st).

(** A block that writes before it changes the state fails without a
    change; the blocks of the options and of the favorites empty their
    slot before they write. *)
Definition unchanged (n : nat) (st : PipeClient float) : PipeClient float := st.

(** The state of the client when the transmit phase fails after [n]
    lines, from the state [st] at its start. *)
Definition interrupted : nat -> PipeClient float -> PipeClient float :=
  seq_fail (fun st => tag SiteLang (lang_lines st))
    (fun st => set_lastSentGameLang
                 (acknowledged (desiredGameLang st) (lastSentGameLang st)) st)
    unchanged
  (seq_fail (fun st => tag SiteOptions (options_lines st))
    (set_pendingOptions None) (fun _ => set_pendingOptions None)
  (seq_fail (fun st => tag SiteClose (close_lines st))
    (set_pendingClose false) unchanged
  (seq_fail (fun st => tag SiteFavorites (favorites_due st))
    (set_pendingFavorites None) (fun _ => set_pendingFavorites None)
  (seq_fail (fun st => tag SiteListen (listen_lines st))
    (set_pendingListen None) unchanged
  (seq_fail (fun st => tag (SiteCfg CfgOpen) (cfg_lines CfgOpen st))
    (acknowledge_cfg CfgOpen) unchanged
  (seq_fail (fun st => tag (SiteCfg CfgClose) (cfg_lines CfgClose st))
    (acknowledge_cfg CfgClose) unchanged
  (seq_fail (fun st => tag (SiteCfg CfgVoiceHandle) (cfg_lines CfgVoiceHandle st))
    (acknowledge_cfg CfgVoiceHandle) unchanged
  (seq_fail (fun st => tag (SiteCfg CfgDebug) (cfg_lines CfgDebug st))
    (acknowledge_cfg CfgDebug) unchanged
  (seq_fail (fun st => tag (SiteCfg CfgSaveWav) (cfg_lines CfgSaveWav st))
    (acknowledge_cfg CfgSaveWav) unchanged
  (seq_fail (fun st => tag (SiteCfg CfgDialogueSelect)
                         (cfg_lines CfgDialogueSelect st))
    (acknowledge_cfg CfgDialogueSelect) unchanged
  (seq_fail (fun st => tag (SiteCfg CfgWeapons) (cfg_lines CfgWeapons st))
    (acknowledge_cfg CfgWeapons) unchanged
  (seq_fail (fun st => tag (SiteCfg CfgSpells) (cfg_lines CfgSpells st))
    (acknowledge_cfg CfgSpells) unchanged
  (seq_fail (fun st => tag (SiteCfg CfgPowers) (cfg_lines CfgPowers st))
    (acknowledge_cfg CfgPowers) unchanged
  (seq_fail (fun st => tag (SiteCfg CfgPotions) (cfg_lines CfgPotions st))
    (acknowledge_cfg CfgPotions) unchanged
    unchanged)))))))))))))).

(** What no block of the transmit phase touches, at a failure too, and
    what it does to the favorites slot. *)
Definition kept (st st' : PipeClient float) : Prop :=
  steady st st'
  /\ (pendingFavorites st' = pendingFavorites st \/ pendingFavorites st' = None).

(** The number of lines due before the block of a place. *)
Definition lines_before (x : Site) (st : PipeClient float) : nat :=
  List.length
    (List.filter (fun p => (site_rank (fst p) <? site_rank x)%nat) (due st)).

End Interrupted.

Section Reading.

Variable float : Type.
Variable float_zero : float.
Variable stof : string -> option float.

(** A round of [ProcessIncoming] in which [ReadFile] returns [chunk]. *)
Definition read_chunk (chunk : string) : M float unit :=
  ProcessIncoming float_zero stof (mkEnv true (fun _ => true) (Received chunk)).

(** One round for each chunk of a list, in order. *)
Definition read_chunks (chunks : list string) (st : PipeClient float)
  : PipeClient float :=
  List.fold_left (fun st chunk => exec (read_chunk chunk) st) chunks st.

(** The channel closes the link in the read phase: [PeekNamedPipe] or
    [ReadFile] fails, or [ReadFile] returns no byte. *)
Definition link_lost (i : Incoming) : bool :=
  match i with
  | PeekFails | ReadFails => true
  | NothingAvailable => false
  | Received chunk => (chunk =? "")%string
  end.

End Reading.

Section Refusal.

Variable float : Type.

(** The one-shot slots after a transmit phase that stops at a line of the
    block of rank [r]: the blocks before it have drained their slot; the
    blocks of the options and of the favorites empty their slot before
    they write, the blocks of CLOSE and LISTEN after they have written;
    the block of LISTEN|SHOUTS is the last one. *)
Definition drained (r : nat) (st : PipeClient float) : PipeClient float :=
  set_pendingListen
    (if (r <=? site_rank SiteListen)%nat then pendingListen st else None)
    (set_pendingFavorites
       (if (r <? site_rank SiteFavorites)%nat then pendingFavorites st
        else None)
       (set_pendingClose
          (if (r <=? site_rank SiteClose)%nat then pendingClose st else false)
          (set_pendingOptions
             (if (r <? site_rank SiteOptions)%nat then pendingOptions st
              else None)
             st))).

End Refusal.

Module Cases.

Import Sample.
Local Open Scope string_scope.

(** The companion listens and accepts two writes, then refuses. *)
Definition env_refusing_third : Env :=
  mkEnv true (fun n => (n <? 2)%nat) NothingAvailable.

(** The companion listens, accepts every write, and the peek fails. *)
Definition env_peek_fails : Env := mkEnv true accepts PeekFails.

(** The companion listens, accepts every write and sends the end of a
    line. *)
Definition env_line_end : Env :=
  mkEnv true accepts (Received ("7|0.5" ++ String LF "")).

(** A connected client with two dialogue options, a CLOSE and a LISTEN
    command waiting. *)
Definition client_dialogue : PipeClient Z :=
  set_pendingListen (Some true)
    (set_pendingClose true
       (set_pendingOptions (Some ["Hello"; "Bye"]) client_idle)).

(** A connected client whose buffer holds the start of a line. *)
Definition client_partial : PipeClient Z := set_recvBuf "RES|" client_idle.

(** The client after the open toggle was set and one round of the loop
    ran against a silent companion. *)
Definition client_after_round : PipeClient Z :=
  exec (iteration env_silent)
    (exec (@produce Z (Config CfgOpen true)) client_init).

End Cases.

(* ================================================================== *)
(** * The language of the game (src/src/GameLanguage.cpp, Plugin.cpp) *)
(* ================================================================== *)

(** [std::isspace], [std::tolower] and [std::isalnum] are those of the
    "C" locale, on an [unsigned char]. The files are given by their
    lines, as [std::getline] returns them; [None]: the file does not
    open. *)
Module Language.

Local Open Scope string_scope.

Definition tolower (c : ascii) : ascii :=
  let n := nat_of_ascii c in
  if (65 <=? n)%nat && (n <=? 90)%nat then ascii_of_nat (n + 32) else c.

Definition isalnum (c : ascii) : bool :=
  let n := nat_of_ascii c in
  ((48 <=? n)%nat && (n <=? 57)%nat)
  || ((65 <=? n)%nat && (n <=? 90)%nat)
  || ((97 <=? n)%nat && (n <=? 122)%nat).

(** [s.erase(find_if(s.rbegin(), s.rend(), not space).base(), s.end())] *)
Fixpoint rtrim (s : string) : string :=
  match s with
  | EmptyString => EmptyString
  | String a s' =>
      let r := rtrim s' in
      if isspace a && (r =? "") then EmptyString else String a r
  end.

Fixpoint filter (f : ascii -> bool) (s : string) : string :=
  match s with
  | EmptyString => EmptyString
  | String a s' => if f a then String a (filter f s') else filter f s'
  end.

(** Lines 15-25. *)
Definition TrimLower (raw : string) : string :=
  Str.map tolower (rtrim (skip_spaces raw)).

(** Lines 27-38. *)
Definition NormalizeKey (raw : string) : string :=
  filter isalnum (TrimLower raw).

Definition front (s : string) : option ascii :=
  match s with
  | String a _ => Some a
  | EmptyString => None
  end.

Fixpoint back (s : string) : option ascii :=
  match s with
  | EmptyString => None
  | String a EmptyString => Some a
  | String _ s' => back s'
  end.

(** The loop of [ReadLanguageFromIni], lines 68-94, from the value of
    [section]. *)
Fixpoint ini_scan (section : string) (lines : list string) : string :=
  match lines with
  | [] => ""
  | line :: rest =>
      let s := TrimLower line in
      if s =? "" then ini_scan section rest
      else if Str.starts_with ";" s || Str.starts_with "#" s
      then ini_scan section rest
      else if match front s, back s with
              | Some f, Some b => Ascii.eqb f "[" && Ascii.eqb b "]"
              | _, _ => false
              end
      then ini_scan (Str.substr 1 (String.length s - 2) s) rest
      else if negb (section =? "general") then ini_scan section rest
      else
        match Str.find "=" 0 s with
        | None => ini_scan section rest
        | Some eq =>
            let key := TrimLower (Str.substr 0 eq s) in
            let value := TrimLower (Str.substr_from (eq + 1) s) in
            if key =? "slanguage" then value else ini_scan section rest
        end
  end.

(** Lines 60-98. *)
Definition ReadLanguageFromIni (file : option (list string)) : string :=
  match file with
  | None => ""
  | Some lines => ini_scan "" lines
  end.

(** What [ReadLanguageFromIniFiles] finds on the disk: whether the
    documents folder is known, and the two files. *)
Record IniFiles := mkIniFiles {
  myGames : bool;
  SkyrimCustom_ini : option (list string);
  Skyrim_ini : option (list string)
}.

(** Lines 100-120. *)
Definition ReadLanguageFromIniFiles (files : IniFiles) : string :=
  if negb (myGames files) then ""
  else
    let value := ReadLanguageFromIni (SkyrimCustom_ini files) in
    if negb (value =? "") then value
    else ReadLanguageFromIni (Skyrim_ini files).

Record GameLanguageInfo := mkInfo {
  code : string;
  label : string;
  raw : string
}.

(** The chain of comparisons of [DetectGameLanguage], lines 152-180: the
    code and the label of a key. *)
Definition classify (key : string) : string * string :=
  if (key =? "en") || (key =? "english") then ("en", "english")
  else if (key =? "ru") || (key =? "russian") then ("ru", "russian")
  else if (key =? "fr") || (key =? "french") then ("fr", "french")
  else if (key =? "it") || (key =? "italian") then ("it", "italian")
  else if (key =? "de") || (key =? "german") || (key =? "deutsch")
  then ("de", "german")
  else if (key =? "es") || (key =? "spanish") || (key =? "espanol")
  then ("es", "spanish")
  else if (key =? "pl") || (key =? "polish") || (key =? "polski")
  then ("pl", "polish")
  else if (key =? "ja") || (key =? "japanese") then ("ja", "japanese")
  else if (key =? "cn") || (key =? "zh") || (key =? "zhcn")
          || (key =? "zhhant") || (key =? "chinese")
          || (key =? "chinesetraditional") || (key =? "traditionalchinese")
  then ("cn", "traditional_chinese")
  else ("", "").

(** Lines 125-183. [setting] is the text of the setting
    [sLanguage:General] of the game; [None]: there is no such setting, or
    its text is a null pointer. *)
Definition DetectGameLanguage (setting : option string) (files : IniFiles)
  : GameLanguageInfo :=
  let raw0 :=
    match setting with
    | Some s => if s =? "" then "" else s
    | None => ""
    end in
  let iniRaw := ReadLanguageFromIniFiles files in
  let raw := if negb (iniRaw =? "") then iniRaw else raw0 in
  if raw =? "" then mkInfo "" "" ""
  else
    let key := NormalizeKey raw in
    mkInfo (fst (classify key)) (snd (classify key)) raw.

(** The codes that [DetectGameLanguage] gives. *)
Definition codes : list string :=
  ["en"; "ru"; "fr"; "it"; "de"; "es"; "pl"; "ja"; "cn"].

End Language.

Section SendLanguage.

Variable float : Type.

Import Language.

(** [TryDetectAndSendGameLanguage], Plugin.cpp lines 22-35, without the
    line that it writes to the log and [g_gameLangLogged], which guards
    that line only. *)
Definition TryDetectAndSendGameLanguage (setting : option string)
    (files : IniFiles) : M float unit :=
  let info := DetectGameLanguage setting files in
  if (code info =? "")%string then ret tt
  else SendGameLanguage (code info).

End SendLanguage.

(** Sample inputs. *)
Module LanguageCases.

Import Language.
Local Open Scope string_scope.

(** A Skyrim.ini that names the language in its section [General], and
    another language in a section of another name. *)
Definition ini_french : list string :=
  ["[Display]"; "sLanguage=GERMAN"; "; a comment"; "[General]";
   "  sLanguage = FRENCH" ++ String CR ""; "sLanguage=ITALIAN"].

(** A file whose only assignment of the language is outside [General]. *)
Definition ini_elsewhere : list string :=
  ["sLanguage=ENGLISH"; "[Display]"; "sLanguage=GERMAN"].

End LanguageCases.

(* ================================================================== *)
(** * The settings (include/Settings.h, src/src/Settings.cpp) *)
(* ================================================================== *)

Module Settings.

Local Open Scope Z_scope.

(** [struct Settings] with its default member initialisers. *)
Record Settings := mkSettings {
  enableVoiceOpen : bool;
  enableVoiceClose : bool;
  enableDialogueSelect : bool;
  enableVoiceShouts : bool;
  enablePowers : bool;
  muteShoutVoiceLine : bool;
  enableWeapons : bool;
  enableSpells : bool;
  enablePotions : bool;
  debug : bool;
  saveWavCaptures : bool
}.

Definition defaults : Settings :=
  mkSettings true true true true false true false false false false false.

(** ['DVCS'], a multi-character constant: the four bytes, the first one
    the most significant. *)
Definition kSettingsRecord : Z := 0x44564353.
Definition kSettingsRecordVersion : Z := 1.
Definition kSettingsDataSize : nat := 11.

(** ** The co-save

    [SKSE::SerializationInterface] is not part of the repository. A
    record is its type, its version and its bytes; [GetNextRecordInfo]
    steps to the next record of the plugin, [ReadRecordData] takes bytes
    from what is left of the current record and returns how many it
    took, 0 when none is left. *)
Record SerdeRecord := mkRecord {
  rec_type : Z;
  rec_version : Z;
  rec_data : list Z
}.

(** The members in the order in which they are written and read. *)
Definition members (s : Settings) : list bool :=
  [enableVoiceOpen s; enableVoiceClose s; enableDialogueSelect s;
   enableVoiceShouts s; enablePowers s; muteShoutVoiceLine s;
   enableWeapons s; enableSpells s; enablePotions s; debug s;
   saveWavCaptures s].

(** The chain [writeBool(..) && writeBool(..) && ...], lines 192-204:
    [ok n] tells whether the [n]-th call of [WriteRecordData] succeeds;
    the first failure ends the chain. *)
Fixpoint write_bools (ok : nat -> bool) (n : nat) (vs : list bool) : list Z :=
  match vs with
  | [] => []
  | v :: vs' =>
      if ok n then (if v then 1 else 0) :: write_bools ok (S n) vs' else []
  end.

(** [SaveSettings], lines 174-205, on the snapshot [s] of the settings:
    the record that the co-save holds afterwards; [None]: there is no
    interface, or [OpenRecord] fails. *)
Definition SaveSettings (serde : bool) (open_ok : bool) (write_ok : nat -> bool)
    (s : Settings) : option SerdeRecord :=
  if negb serde then None
  else if negb open_ok then None
  else Some (mkRecord kSettingsRecord kSettingsRecordVersion
               (write_bools write_ok 0 (members s))).

(** [readBool], lines 237-244, on what is left of the record. *)
Definition readBool (data : list Z) : option (bool * list Z) :=
  match data with
  | [] => None
  | b :: rest => Some (negb (b =? 0), rest)
  end.

(** The chain [readBool(..) && readBool(..) && ...], lines 246-259. *)
Definition read_settings (data : list Z) : option Settings :=
  match readBool data with None => None | Some (v1, d1) =>
  match readBool d1 with None => None | Some (v2, d2) =>
  match readBool d2 with None => None | Some (v3, d3) =>
  match readBool d3 with None => None | Some (v4, d4) =>
  match readBool d4 with None => None | Some (v5, d5) =>
  match readBool d5 with None => None | Some (v6, d6) =>
  match readBool d6 with None => None | Some (v7, d7) =>
  match readBool d7 with None => None | Some (v8, d8) =>
  match readBool d8 with None => None | Some (v9, d9) =>
  match readBool d9 with None => None | Some (v10, d10) =>
  match readBool d10 with None => None | Some (v11, _) =>
    Some (mkSettings v1 v2 v3 v4 v5 v6 v7 v8 v9 v10 v11)
  end end end end end end end end end end end.

(** What [ApplySettings] hands to the task interface of SKSE: the
    closure of lines 159-164 with its capture. *)
Inductive Task :=
| RescanTask (enableShouts : bool).

End Settings.

Section Apply.

Variable float : Type.

Import Settings Favorites.

(** [ApplySettings], lines 103-167, with [old] the settings stored before
    and [loaded] the value of [IsGameLoaded()]: the settings stored
    afterwards, what is done to the pipe client, and the tasks queued. *)
Definition ApplySettings (s : Settings) (fromUser : bool) (old : Settings)
    (loaded : bool) : Settings * M float unit * list Task :=
  let oldShouts := enableVoiceShouts old in
  let oldPowers := enablePowers old in
  let oldWeapons := enableWeapons old in
  let oldSpells := enableSpells old in
  let oldPotions := enablePotions old in
  let op : M float unit :=
    (if loaded then
       SendConfig CfgOpen (enableVoiceOpen s) ;;
       SendConfig CfgClose (enableVoiceClose s) ;;
       SendConfig CfgDialogueSelect (enableDialogueSelect s) ;;
       SendConfig CfgVoiceHandle (enableVoiceShouts s) ;;
       SendConfig CfgPowers (enablePowers s) ;;
       SendConfig CfgDebug (debug s) ;;
       SendConfig CfgSaveWav (saveWavCaptures s) ;;
       SendConfig CfgWeapons (enableWeapons s) ;;
       SendConfig CfgSpells (enableSpells s) ;;
       SendConfig CfgPotions (enablePotions s)
     else ret tt) ;;
    (if loaded then
       if negb (enableVoiceShouts s) && oldShouts
       then SendListenShouts false else ret tt
     else ret tt) ;;
    (if loaded then
       (if negb (enableWeapons s) && oldWeapons
        then SendWeaponsAllowed [] else ret tt) ;;
       (if negb (enableSpells s) && oldSpells
        then SendSpellsAllowed [] else ret tt) ;;
       (if negb (enablePotions s) && oldPotions
        then SendPotionsAllowed [] else ret tt)
     else ret tt) in
  let needRescan :=
    xorb (enableVoiceShouts s) oldShouts
    || xorb (enablePowers s) oldPowers
    || xorb (enableWeapons s) oldWeapons
    || xorb (enableSpells s) oldSpells
    || xorb (enablePotions s) oldPotions in
  let tasks :=
    if fromUser then
      if needRescan then [RescanTask (enableVoiceShouts s)] else []
    else [] in
  (s, op, tasks).

(** The task of lines 159-164 when it runs, [now] being what the
    collectors find then. *)
Definition run_task (t : Task) (now last : Scan) : Scan * M float unit :=
  match t with
  | RescanTask enableShouts =>
      let '(last', op) := ScanAllFavorites float now true last in
      (last', op ;; if enableShouts then SendListenShouts true else ret tt)
  end.

(** [ResetToDefaultsForNewGame], lines 169-172. *)
Definition ResetToDefaultsForNewGame (old : Settings) (loaded : bool)
  : Settings * M float unit * list Task :=
  ApplySettings defaults false old loaded.

(** The loop of [LoadSettings], lines 217-270, over the records of the
    co-save. *)
Fixpoint load_records (records : list SerdeRecord) (cur : Settings)
    (loaded : bool) : Settings * M float unit :=
  match records with
  | [] => (cur, ret tt)
  | r :: rest =>
      if negb (rec_type r =? kSettingsRecord)%Z
      then load_records rest cur loaded
      else if negb (rec_version r =? kSettingsRecordVersion)%Z
      then load_records rest cur loaded
      else
        match read_settings (rec_data r) with
        | None => (cur, ret tt)
        | Some s =>
            let applied := ApplySettings s false cur loaded in
            let next := load_records rest (fst (fst applied)) loaded in
            (fst next, snd (fst applied) ;; snd next)
        end
  end.

(** [LoadSettings], lines 207-271; [None]: there is no interface. *)
Definition LoadSettings (serde : option (list SerdeRecord)) (cur : Settings)
    (loaded : bool) : Settings * M float unit :=
  match serde with
  | None => (cur, ret tt)
  | Some records => load_records records cur loaded
  end.




(** A record that [LoadSettings] steps over. *)
Definition foreign (r : SerdeRecord) : Prop :=
  rec_type r <> kSettingsRecord \/ rec_version r <> kSettingsRecordVersion.

End Apply.

(** Sample inputs. *)
Module SettingsCases.

Import Settings.
Local Open Scope Z_scope.

(** Everything switched on but the shouts. *)
Definition quiet_shouts : Settings :=
  mkSettings true true true false true true true true true true true.

(** [WriteRecordData] fails at its fourth call. *)
Definition fails_at_fourth (n : nat) : bool := (n <? 3)%nat.

(** A record of another plugin version. *)
Definition record_v2 : SerdeRecord := mkRecord kSettingsRecord 2 [0; 0; 0].

End SettingsCases.

(* ================================================================== *)
(** * The poll thread (src/src/Runtime.cpp) *)
(* ================================================================== *)

Section Runtime.

Variable float : Type.

Local Open Scope string_scope.

(** What [PollLoop] does with a response that it consumed, lines
    220-279: the handler that it calls with the response, the task that
    it queues, or nothing. *)
Inductive PollAction :=
| ActNotify (text : string)              (* DebugNotify(resp->trigText) *)
| ActOpen (resp : PipeResponse float)    (* HandleOpenTrigger *)
| ActShout (resp : PipeResponse float)   (* HandleVoiceTrigger *)
| ActPower (resp : PipeResponse float)   (* HandlePowerTrigger *)
| ActWeapon (resp : PipeResponse float)  (* HandleWeaponTrigger *)
| ActSpell (resp : PipeResponse float)   (* HandleSpellTrigger *)
| ActPotion (resp : PipeResponse float)  (* HandlePotionTrigger *)
| ActHideMenu                            (* the task that hides the menu *)
| ActSelect (index0 : Z)                 (* RequestSelectIndex_MainThread *)
| ActNothing.

Definition dispatch (resp : PipeResponse float)
    (dialogueOpen dialogueSelectEnabled voiceCloseEnabled : bool)
  : PollAction :=
  if type resp =? "DBG" then ActNotify (trigText resp)
  else if type resp =? "TRIG" then
    if trigKind resp =? "open" then ActOpen resp
    else if trigKind resp =? "shout" then ActShout resp
    else if trigKind resp =? "power" then ActPower resp
    else if trigKind resp =? "weapon" then ActWeapon resp
    else if trigKind resp =? "spell" then ActSpell resp
    else if trigKind resp =? "potion" then ActPotion resp
    else ActNothing
  else if (type resp =? "RES") && dialogueOpen then
    if negb dialogueSelectEnabled then ActNothing
    else if (index resp =? -2)%Z then
      if negb voiceCloseEnabled then ActNothing else ActHideMenu
    else if (index resp <? 0)%Z then ActNothing
    else ActSelect (index resp)
  else ActNothing.

(** ** Focus detection

    The statics of lines 31-35; a time point is its count of ticks of
    [std::chrono::steady_clock], a handle is a number. *)
Record FocusState := mkFocus {
  listenModeActive : bool;
  focusedActorHandle : option nat;
  focusAcquiredTime : Z;
  focusLostTime : Z;
  hadFocusLastPoll : bool
}.

Definition focus_init : FocusState := mkFocus false None 0 0 false.

Definition kFocusOnDelayMs : Z := 250.
Definition kFocusGraceMs : Z := 1500.

(** What a poll reads from the game. *)
Record PollInput := mkPollInput {
  dialogueOpen : bool;           (* IsDialogueOpen() *)
  voiceOpenEnabled : bool;       (* IsVoiceOpenEnabled() *)
  gamePaused : bool;             (* ui && ui->GameIsPaused() *)
  now : Z;                       (* steady_clock::now() *)
  currentTarget : option nat     (* FindNPCInFront: the handle of the actor *)
}.

(** The ticks of the clock in a millisecond. *)
Variable ticks_per_ms : Z.

(** [duration_cast<milliseconds>(d).count()]: towards zero. *)
Definition milliseconds (d : Z) : Z := Z.quot d ticks_per_ms.

Definition set_listenModeActive (v : bool) (f : FocusState) : FocusState :=
  mkFocus v (focusedActorHandle f) (focusAcquiredTime f) (focusLostTime f)
          (hadFocusLastPoll f).

(** [UpdateFocusDetection], lines 116-174: the statics afterwards and the
    argument of the call of [SendListen], if it makes one (every path
    makes one call at most). *)
Definition focus_step (f : FocusState) (i : PollInput)
  : FocusState * option bool :=
  if dialogueOpen i then
    if listenModeActive f then (set_listenModeActive false f, Some false)
    else (f, None)
  else if negb (voiceOpenEnabled i) then
    if listenModeActive f then (set_listenModeActive false f, Some false)
    else (f, None)
  else if gamePaused i then (f, None)
  else
    let hasFocus := match currentTarget i with Some _ => true | None => false end in
    let f1 :=
      if hasFocus && negb (hadFocusLastPoll f)
      then mkFocus (listenModeActive f) (currentTarget i) (now i)
                   (focusLostTime f) (hadFocusLastPoll f)
      else if negb hasFocus && hadFocusLastPoll f
      then mkFocus (listenModeActive f) (focusedActorHandle f)
                   (focusAcquiredTime f) (now i) (hadFocusLastPoll f)
      else f in
    let f2 := mkFocus (listenModeActive f1) (focusedActorHandle f1)
                      (focusAcquiredTime f1) (focusLostTime f1) hasFocus in
    if hasFocus then
      let focusDuration := milliseconds (now i - focusAcquiredTime f2) in
      if negb (listenModeActive f2) && (kFocusOnDelayMs <=? focusDuration)%Z
      then (set_listenModeActive true f2, Some true)
      else (f2, None)
    else
      let lostDuration := milliseconds (now i - focusLostTime f2) in
      if listenModeActive f2 && (kFocusGraceMs <=? lostDuration)%Z
      then (mkFocus false None (focusAcquiredTime f2) (focusLostTime f2)
                    (hadFocusLastPoll f2),
            Some false)
      else (f2, None).

Definition listen_call (o : option bool) : M float unit :=
  match o with
  | Some on => SendListen on
  | None => ret tt
  end.

Definition UpdateFocusDetection (f : FocusState) (i : PollInput)
  : FocusState * M float unit :=
  (fst (focus_step f i), listen_call (snd (focus_step f i))).

(** The polls of a list of inputs, one after the other: the statics at
    the end and the arguments of the calls of [SendListen], in order. *)
Fixpoint focus_polls (f : FocusState) (inputs : list PollInput)
  : FocusState * list bool :=
  match inputs with
  | [] => (f, [])
  | i :: inputs' =>
      let r := focus_step f i in
      let rest := focus_polls (fst r) inputs' in
      (fst rest,
       match snd r with
       | Some on => on :: snd rest
       | None => snd rest
       end)
  end.


(** The task that [HandleOpenTrigger] queues: it activates the actor of
    the handle, if the handle still names one. *)
Inductive RuntimeTask :=
| ActivateTask (handle : nat).

(** [HandleOpenTrigger], lines 176-209. [resolve h] is what the handle
    names now: [None], nothing any more; [Some valid], an object, with
    [valid] the result of [IsValidNPCTarget] on it. *)
Definition HandleOpenTrigger (voiceOpen : bool) (resolve : nat -> option bool)
    (f : FocusState) : FocusState * M float unit * list RuntimeTask :=
  if negb voiceOpen then (f, ret tt, [])
  else
    match focusedActorHandle f with
    | None => (f, ret tt, [])
    | Some h =>
        match resolve h with
        | None => (f, ret tt, [])
        | Some valid =>
            if negb valid then (f, ret tt, [])
            else (set_listenModeActive false f,
                  SendListen false ;; SendListenShouts false,
                  [ActivateTask h])
        end
    end.

End Runtime.

Arguments ActHideMenu {float}.
Arguments ActNothing {float}.
Arguments ActSelect {float}.
Arguments ActNotify {float}.

(** Sample inputs. *)
Module RuntimeCases.

Local Open Scope Z_scope.

(** A clock of nanoseconds. *)
Definition ns_per_ms : Z := 1000000.

(** An actor stands in front of the player at [t] milliseconds. *)
Definition sees (handle : nat) (t : Z) : PollInput :=
  mkPollInput false true false (t * ns_per_ms) (Some handle).

(** Nobody stands in front of the player at [t] milliseconds. *)
Definition sees_nobody (t : Z) : PollInput :=
  mkPollInput false true false (t * ns_per_ms) None.

(** The polls of a player who looks at actor 7 for half a second, then at
    actor 9, then away for two seconds. *)
Definition a_glance : list PollInput :=
  [sees 7 1000; sees 7 1150; sees 7 1300; sees 9 1450; sees_nobody 1600;
   sees_nobody 2500; sees_nobody 3200].

(** Every handle names an object that is a valid target. *)
Definition all_valid (h : nat) : option bool := Some true.

End RuntimeCases.

(* ================================================================== *)
(** * The dialogue menu (src/src/Dialogue.cpp) *)
(* ================================================================== *)

Module Dialogue.

Local Open Scope string_scope.

(** [g_lastOptions], [g_selectInFlight], [g_dialogueOpen]. *)
Record DialogueState := mkDialogue {
  lastOptions : list string;
  selectInFlight : bool;
  isOpen : bool
}.

Definition dialogue_init : DialogueState := mkDialogue [] false false.

(** [SnapshotDialogueOptions], lines 21-41. [None] as the list: there is
    no topic manager or no dialogue list; [None] as an element: a null
    pointer; an empty topic text is left out. *)
Definition SnapshotDialogueOptions (topics : option (list (option string)))
  : list string :=
  match topics with
  | None => []
  | Some dialogueList =>
      List.flat_map
        (fun dlg => match dlg with
                    | Some text => if text =? "" then [] else [text]
                    | None => []
                    end)
        dialogueList
  end.

Definition list_eqb (a b : list string) : bool :=
  if list_eq_dec String.string_dec a b then true else false.

End Dialogue.

Section DialogueWatcher.

Variable float : Type.

Import Dialogue.
Local Open Scope string_scope.

(** [SendOptionsToPipe_IfAny], lines 43-48. *)
Definition SendOptionsToPipe_IfAny (d : DialogueState) : M float unit :=
  match lastOptions d with
  | [] => ret tt
  | _ :: _ => SendOptions (lastOptions d)
  end.

(** [LogOptionsIfChanged], lines 50-65. *)
Definition LogOptionsIfChanged (topics : option (list (option string)))
    (d : DialogueState) : DialogueState * M float unit :=
  let opts := SnapshotDialogueOptions topics in
  if list_eqb opts (lastOptions d) then (d, ret tt)
  else
    let d' := mkDialogue opts (selectInFlight d) (isOpen d) in
    (d', SendOptionsToPipe_IfAny d').

(** [DialogueMenuWatcher::ProcessEvent], lines 147-186, on an event that
    is not null; [shouts] is [IsVoiceShoutsEnabled()]. *)
Definition ProcessEvent (menuName : string) (opening : bool)
    (topics : option (list (option string))) (shouts : bool)
    (d : DialogueState) : DialogueState * M float unit :=
  if menuName =? "Dialogue Menu" then
    if opening then
      let d1 := mkDialogue [] false true in
      let r := LogOptionsIfChanged topics d1 in
      (fst r, SendListenShouts false ;; snd r)
    else
      (mkDialogue [] false false,
       SendClose ;; if shouts then SendListenShouts true else ret tt)
  else (d, ret tt).

(** The lines of a batch of dialogue options. *)
Definition options_batch (opts : list string) : list string :=
  (("OPEN|" ++ Str.of_nat (List.length opts))%string
     :: List.map (fun s => SanitizeInPlace ("OPT|" ++ s)%string) opts
     ++ ["END"%string])%list.

End DialogueWatcher.

(** Sample inputs. *)
Module DialogueCases.

Local Open Scope string_scope.

(** Two topics, a null entry and an empty text. *)
Definition two_topics : option (list (option string)) :=
  Some [Some "Who are you?"; None; Some ""; Some "Farewell."].

End DialogueCases.

(* ================================================================== *)
(** * The environment of the companion (src/src/ServerLauncher.cpp) *)
(* ================================================================== *)

(** The wide characters are taken as characters of eight bits;
    [towupper] is that of the "C" locale. A string stands for the
    characters that a pointer of the source reaches before the
    terminator; an entry of the environment is the text [KEY=value]. *)
Module Launcher.

Local Open Scope string_scope.

Definition NUL : ascii := "000"%char.
Definition EQ : ascii := "="%char.

Definition towupper (c : ascii) : ascii :=
  let n := nat_of_ascii c in
  if (97 <=? n)%nat && (n <=? 122)%nat then ascii_of_nat (n - 32) else c.

(** [EnvKeyEqualsNoCase], lines 116-130: the walk over [entry] and [key]
    while both last and the entry has not reached its ['=']. *)
Fixpoint EnvKeyEqualsNoCase (entry key : string) : bool :=
  match entry, key with
  | String pc p, String kc k =>
      if Ascii.eqb pc EQ then false
      else if negb (Ascii.eqb (towupper pc) (towupper kc)) then false
      else EnvKeyEqualsNoCase p k
  | String pc _, EmptyString => Ascii.eqb pc EQ
  | EmptyString, _ => false
  end.

(** [EnvKeyStartsWithNoCase], lines 132-146: the same walk; at its end
    the prefix must be used up and the entry at its ['='] or at its
    end. *)
Fixpoint EnvKeyStartsWithNoCase (entry prefix : string) : bool :=
  match entry, prefix with
  | String pc p, String kc k =>
      if Ascii.eqb pc EQ then false
      else if negb (Ascii.eqb (towupper pc) (towupper kc)) then false
      else EnvKeyStartsWithNoCase p k
  | String pc _, EmptyString => Ascii.eqb pc EQ
  | EmptyString, String _ _ => false
  | EmptyString, EmptyString => true
  end.

(** The characters of an entry before its first ['=']. *)
Fixpoint key_of (entry : string) : string :=
  match entry with
  | EmptyString => EmptyString
  | String c p => if Ascii.eqb c EQ then EmptyString else String c (key_of p)
  end.

(** [s.find(tok) != npos] *)
Fixpoint contains (tok s : string) : bool :=
  String.prefix tok s
  || match s with
     | String _ s' => contains tok s'
     | EmptyString => false
     end.

(** [EnvKeyContainsTokenNoCase], lines 148-160, on pointers that are
    not null. *)
Definition EnvKeyContainsTokenNoCase (entry token : string) : bool :=
  contains (Str.map towupper token) (Str.map towupper (key_of entry)).

(** [IsVfsEnvVar], lines 162-170. *)
Definition IsVfsEnvVar (entry : string) : bool :=
  EnvKeyStartsWithNoCase entry "USVFS"
  || EnvKeyStartsWithNoCase entry "MO2"
  || EnvKeyStartsWithNoCase entry "MODORGANIZER"
  || EnvKeyContainsTokenNoCase entry "USVFS"
  || EnvKeyContainsTokenNoCase entry "MO2"
  || EnvKeyContainsTokenNoCase entry "VFS".

Fixpoint last_char (s : string) : option ascii :=
  match s with
  | EmptyString => None
  | String a EmptyString => Some a
  | String _ s' => last_char s'
  end.

(** [JoinPath], lines 22-27. *)
Definition JoinPath (a b : string) : string :=
  if a =? "" then b
  else if b =? "" then a
  else
    match last_char a with
    | Some c =>
        if Ascii.eqb c "\" || Ascii.eqb c "/" then a ++ b
        else a ++ "\" ++ b
    | None => a ++ "\" ++ b
    end.

(** [AppendEnvVar], lines 172-177. *)
Definition AppendEnvVar (out key value : string) : string :=
  out ++ (key ++ "=" ++ value) ++ String NUL "".

Definition is_python_var (p : string) : bool :=
  EnvKeyEqualsNoCase p "PYTHONHOME"
  || EnvKeyEqualsNoCase p "PYTHONPATH"
  || EnvKeyEqualsNoCase p "PYTHONNOUSERSITE".

(** The loop over the block of [GetEnvironmentStringsW], given by its
    strings in order: it ends at the first empty one; an entry that
    [skip] names is left out, the others are copied with their
    terminator. *)
Fixpoint copy_env (skip : string -> bool) (envs : list string) (out : string)
  : string :=
  match envs with
  | [] => out
  | p :: rest =>
      if p =? "" then out
      else if skip p then copy_env skip rest out
      else copy_env skip rest (out ++ p ++ String NUL "")
  end.

(** [BuildEnvBlock_ForRuntimeExe], lines 237-272; [None]:
    [GetEnvironmentStringsW] returns a null pointer. *)
Definition BuildEnvBlock_ForRuntimeExe (envs : option (list string))
    (runtimeDir logDir : string) : string :=
  let out :=
    match envs with
    | Some l => copy_env (fun p => is_python_var p || IsVfsEnvVar p) l ""
    | None => ""
    end in
  let internalDir := JoinPath runtimeDir "_internal" in
  let zipPath := JoinPath internalDir "base_library.zip" in
  let dynloadDir := JoinPath internalDir "python3.12\lib-dynload" in
  let out := AppendEnvVar out "PYTHONHOME" internalDir in
  let out := AppendEnvVar out "PYTHONPATH"
               (zipPath ++ ";" ++ dynloadDir ++ ";" ++ internalDir) in
  let out := AppendEnvVar out "PYTHONNOUSERSITE" "1" in
  out ++ String NUL "".

(** The strings of a list, each with its terminator. *)
Fixpoint join_all (es : list string) : string :=
  match es with
  | [] => ""
  | e :: es' => e ++ String NUL (join_all es')
  end.

(** The strings of a block: what lies before each terminator. *)
Definition entries_of (block : string) : list string :=
  fst (Str.cut NUL block).

(** The entries of a block whose key is [key], in any case. *)
Definition entries_with_key (key : string) (block : string) : list string :=
  List.filter (fun e => EnvKeyEqualsNoCase e key) (entries_of block).

(** A string of the environment: not empty, no terminator inside. *)
Definition env_string (p : string) : Prop :=
  p <> "" /\ Str.mem NUL p = false.

End Launcher.

(** Sample inputs. *)
Module LauncherCases.

Local Open Scope string_scope.

(** An environment under a mod manager. *)
Definition env_mo2 : list string :=
  ["=C:=C:\Games"; "Path=C:\Windows"; "pythonhome=C:\Python27";
   "USVFS_LOGLEVEL=2"; "MO2_PROFILE=Default"; "ModOrganizer_Path=C:\MO2";
   "MODORGANIZER=1"; "TEMP=C:\Temp"].

End LauncherCases.

(* ================================================================== *)
(** * Facts about strings *)
(* ================================================================== *)

Module StrFacts.

Import Str.
Local Open Scope string_scope.

Lemma length_drop n : forall s, String.length (drop n s) = String.length s - n.
Proof.
  induction n as [|n IH]; intros [|a s]; simpl; auto using Nat.sub_0_r.
Qed.

Lemma drop_drop n : forall m s, drop m (drop n s) = drop (n + m) s.
Proof.
  induction n as [|n IH]; intros m s; simpl; [reflexivity|].
  destruct s as [|a s]; [now destruct m|]. apply IH.
Qed.

Lemma drop_app_length p : forall s, drop (String.length p) (p ++ s) = s.
Proof. induction p as [|a p IH]; intros s; simpl; auto. Qed.

Lemma take_drop n : forall s, take n s ++ drop n s = s.
Proof.
  induction n as [|n IH]; intros [|a s]; simpl; auto. now rewrite IH.
Qed.

Lemma find_lt c : forall s n p, find c n s = Some p -> n <= p < String.length s.
Proof.
  induction s as [|a s IH]; intros n p; simpl; [discriminate|].
  destruct n as [|n].
  - destruct (Ascii.eqb a c); [intros [= <-]; lia|].
    destruct (find c 0 s) as [q|] eqn:E; simpl; [|discriminate].
    intros [= <-]. apply IH in E. lia.
  - destruct (find c n s) as [q|] eqn:E; simpl; [|discriminate].
    intros [= <-]. apply IH in E. lia.
Qed.

(** Searching from [n] is searching the rest from its start. *)
Lemma find_from c : forall n s,
  find c n s = option_map (Nat.add n) (find c 0 (drop n s)).
Proof.
  induction n as [|n IH]; intros s.
  - simpl. now destruct (find c 0 s).
  - destruct s as [|a s]; [reflexivity|]. simpl. rewrite IH.
    now destruct (find c 0 (drop n s)).
Qed.

Lemma find_none_mem c : forall s, find c 0 s = None -> mem c s = false.
Proof.
  induction s as [|a s IH]; simpl; [reflexivity|].
  destruct (Ascii.eqb a c); [discriminate|].
  destruct (find c 0 s); [discriminate|]. auto.
Qed.

Lemma mem_false_find c : forall s, mem c s = false -> find c 0 s = None.
Proof.
  induction s as [|a s IH]; simpl; [reflexivity|].
  destruct (Ascii.eqb a c); [discriminate|]. simpl.
  intros H. now rewrite IH.
Qed.

Lemma cut_no_mem c : forall s, mem c s = false -> cut c s = ([], s).
Proof.
  induction s as [|a s IH]; simpl; [reflexivity|].
  destruct (Ascii.eqb a c); [discriminate|]. simpl.
  intros H. now rewrite IH.
Qed.

Lemma find_none_cut c s : find c 0 s = None -> cut c s = ([], s).
Proof. intros H. now apply cut_no_mem, find_none_mem. Qed.

(** The first piece ends at the first [c]. *)
Lemma find_some_cut c : forall s p,
  find c 0 s = Some p ->
  cut c s = (take p s :: fst (cut c (drop (S p) s)),
             snd (cut c (drop (S p) s))).
Proof.
  induction s as [|a s IH]; intros p; simpl; [discriminate|].
  destruct (Ascii.eqb a c) eqn:Ea.
  - intros [= <-]. simpl. now destruct (cut c s).
  - destruct (find c 0 s) as [q|] eqn:E; simpl; [|discriminate].
    intros [= <-]. rewrite (IH q eq_refl). simpl. reflexivity.
Qed.

Lemma cut_app_sep c : forall a s,
  mem c a = false ->
  cut c (a ++ String c s) = (a :: fst (cut c s), snd (cut c s)).
Proof.
  induction a as [|x a IH]; intros s; simpl.
  - intros _. rewrite Ascii.eqb_refl. now destruct (cut c s).
  - destruct (Ascii.eqb x c); [discriminate|]. simpl. intros H.
    now rewrite IH.
Qed.

Lemma split_no_mem c s : mem c s = false -> split c s = [s].
Proof. intros H. unfold split. now rewrite cut_no_mem. Qed.

Lemma split_app_sep c a s :
  mem c a = false -> split c (a ++ String c s) = a :: split c s.
Proof. intros H. unfold split. now rewrite cut_app_sep. Qed.

Lemma split_find_some c s p :
  find c 0 s = Some p -> split c s = take p s :: split c (drop (S p) s).
Proof. intros H. unfold split. now rewrite (find_some_cut _ _ H). Qed.

Lemma split_find_none c s : find c 0 s = None -> split c s = [s].
Proof. intros H. unfold split. now rewrite find_none_cut. Qed.

Lemma starts_with_app p : forall s,
  starts_with p s = true -> s = p ++ drop (String.length p) s.
Proof.
  unfold starts_with.
  induction p as [|a p IH]; intros s; [reflexivity|].
  destruct s as [|b s]; [discriminate|].
  cbn [String.prefix String.length drop append].
  destruct (ascii_dec a b) as [Hab|Hab]; [|discriminate].
  intros H. subst b. now rewrite <- IH.
Qed.

Lemma mem_app c : forall a b, mem c (a ++ b) = mem c a || mem c b.
Proof.
  induction a as [|x a IH]; intros b; simpl; [reflexivity|].
  now rewrite IH, orb_assoc.
Qed.

Lemma mem_map_replace c (f : ascii -> ascii) :
  (forall a, Ascii.eqb (f a) c = false) ->
  forall s, mem c (map f s) = false.
Proof.
  intros Hf. induction s as [|a s IH]; simpl; [reflexivity|].
  now rewrite Hf, IH.
Qed.

Lemma map_map (f g : ascii -> ascii) : forall s,
  map g (map f s) = map (fun a => g (f a)) s.
Proof. induction s as [|a s IH]; simpl; [reflexivity|]. now rewrite IH. Qed.


(** A replacement that produces no [c] keeps a string free of [c]. *)
Lemma mem_map_keep c (f : ascii -> ascii) :
  (forall a, Ascii.eqb a c = false -> Ascii.eqb (f a) c = false) ->
  forall s, mem c s = false -> mem c (map f s) = false.
Proof.
  intros Hf. induction s as [|a s IH]; simpl; [reflexivity|].
  intros H. apply orb_false_iff in H. destruct H as [Ha Hs].
  now rewrite (Hf a Ha), IH.
Qed.

Lemma split_nonempty c s : exists x xs, split c s = x :: xs.
Proof.
  unfold split. destruct (fst (cut c s)) as [|x xs]; simpl; eauto.
Qed.

(** The field that starts at [n]: it ends at the next [c], if there is
    one, and the other fields follow. *)
Lemma field_at c line n :
  match find c n line with
  | Some p =>
      n <= p
      /\ split c (drop n line)
         = substr n (p - n) line :: split c (drop (p + 1) line)
  | None => split c (drop n line) = [drop n line]
  end.
Proof.
  rewrite find_from.
  destruct (find c 0 (drop n line)) as [q|] eqn:E; simpl.
  - split; [lia|]. rewrite (split_find_some _ _ E), drop_drop.
    unfold substr. replace (n + q - n) with q by lia.
    now replace (n + q + 1) with (n + S q) by lia.
  - now apply split_find_none.
Qed.

Lemma app_sep_assoc c p d : (p ++ String c "") ++ d = p ++ String c d.
Proof. induction p as [|a p IH]; simpl; [reflexivity|]. now rewrite IH. Qed.

Lemma length_app_sep c p : String.length (p ++ String c "") = S (String.length p).
Proof. induction p as [|a p IH]; simpl; auto. Qed.

Lemma split_prefix c p line :
  mem c p = false ->
  starts_with (p ++ String c EmptyString) line = true ->
  split c line = p :: split c (drop (S (String.length p)) line).
Proof.
  intros Hp Hs. apply starts_with_app in Hs.
  rewrite length_app_sep, app_sep_assoc in Hs.
  rewrite Hs at 1. now apply split_app_sep.
Qed.

Lemma find_field c pre : forall a s n,
  n = String.length pre -> mem c a = false ->
  find c n (pre ++ a ++ String c s) = Some (n + String.length a).
Proof.
  induction pre as [|x pre IH]; intros a s n -> Ha.
  - simpl. induction a as [|y a IHa]; simpl in *.
    + now rewrite Ascii.eqb_refl.
    + apply orb_false_elim in Ha as [Hy Ha]. rewrite Hy, (IHa Ha). reflexivity.
  - simpl. now rewrite (IH a s _ eq_refl Ha).
Qed.

Lemma take_app_length a : forall s, take (String.length a) (a ++ s) = a.
Proof. induction a as [|y a IH]; intros s; simpl; [now destruct s|now rewrite IH]. Qed.

Lemma substr_field pre a rest n k :
  n = String.length pre -> k = String.length a ->
  substr n k (pre ++ a ++ rest) = a.
Proof.
  intros -> ->. unfold substr. now rewrite drop_app_length, take_app_length.
Qed.

Lemma find_after c pre s n :
  n = String.length pre ->
  find c n (pre ++ s) = option_map (Nat.add n) (find c 0 s).
Proof. intros ->. now rewrite find_from, drop_app_length. Qed.

Lemma substr_from_after pre s n k :
  n = String.length pre -> substr_from (n + k) (pre ++ s) = drop k s.
Proof.
  intros ->. unfold substr_from. now rewrite <- drop_drop, drop_app_length.
Qed.

Lemma append_assoc a : forall b c, (a ++ b) ++ c = a ++ b ++ c.
Proof. induction a as [|x a IH]; intros b c; simpl; [reflexivity|now rewrite IH]. Qed.

Lemma length_append a : forall b,
  String.length (a ++ b) = String.length a + String.length b.
Proof. induction a as [|x a IH]; intros b; simpl; [reflexivity|now rewrite IH]. Qed.

End StrFacts.

(* ================================================================== *)
(** * Properties of the connection thread *)
(* ================================================================== *)

Section Properties.

Variable float : Type.
Variable float_zero : float.
Variable stof : string -> option float.

Local Open Scope string_scope.
Local Open Scope list_scope.

Abbreviation Client := (PipeClient float).
Abbreviation State := (World float).
Abbreviation iteration := (ThreadMain_iteration float_zero stof).

(** ** Traces *)

Lemma write_calls_app (t1 t2 : list Event) :
  write_calls (t1 ++ t2) = write_calls t1 + write_calls t2.
Proof. unfold write_calls. rewrite filter_app, length_app. reflexivity. Qed.

Lemma write_calls_written (l : list (Site * string)) :
  write_calls (map written l) = List.length l.
Proof.
  unfold write_calls. induction l as [|p l IH]; simpl; [reflexivity|].
  now rewrite IH.
Qed.

Lemma sent_app (t1 t2 : list Event) : sent (t1 ++ t2) = sent t1 ++ sent t2.
Proof.
  induction t1 as [|e t1 IH]; simpl; [reflexivity|].
  destruct e as [| | |s l [|]| | | |]; simpl; now rewrite IH.
Qed.

Lemma sent_written (l : list (Site * string)) : sent (map written l) = l.
Proof.
  induction l as [|[s x] l IH]; simpl; [reflexivity|]. now rewrite IH.
Qed.

Lemma steady_refl (st : Client) : steady st st.
Proof. repeat split. Qed.

Lemma steady_trans (a b c : Client) : steady a b -> steady b c -> steady a c.
Proof.
  unfold steady. intros (?&?&?&?&?&?&?) (?&?&?&?&?&?&?).
  repeat split; congruence.
Qed.

Lemma steady_live (st st' : Client) : steady st st' -> live st -> live st'.
Proof. unfold steady, live. intros (?&?&_) [? ?]. split; congruence. Qed.

Lemma refines_seq env (step1 rest : bool -> M float bool)
    d1 post1 wrote1 d2 post2 wrote2 :
  refines env step1 d1 post1 wrote1 ->
  refines env rest d2 post2 wrote2 ->
  (forall st, steady st (post1 st)) ->
  refines env (fun wa => bind (step1 wa) rest)
    (fun st => d1 st ++ d2 (post1 st))
    (fun st => post2 (post1 st))
    (fun st => wrote1 st || wrote2 (post1 st)).
Proof.
  intros H1 H2 Hst wa w Hlive. unfold bind.
  specialize (H1 wa w Hlive).
  destruct (step1 wa w) as [[wa1|] w1].
  - destruct H1 as (Ht & Hc & Hw).
    assert (Hlive1 : live (client w1)).
    { rewrite Hc. eapply steady_live; eauto. }
    specialize (H2 wa1 w1 Hlive1).
    destruct (rest wa1 w1) as [[wa2|] w2].
    + destruct H2 as (Ht2 & Hc2 & Hw2).
      rewrite Ht2, Ht, Hc2, Hw2, Hw, Hc, map_app, <- app_assoc, orb_assoc.
      auto.
    + destruct H2 as (pre & p & rest' & Hd & Ht2 & Hf & Hs).
      exists (d1 (client w) ++ pre), p, rest'.
      split; [|split; [|split]].
      * rewrite <- Hc, Hd, <- app_assoc. reflexivity.
      * rewrite Ht2, Ht, map_app, <- !app_assoc. reflexivity.
      * rewrite Ht, write_calls_app, write_calls_written in Hf.
        rewrite length_app. now rewrite Nat.add_assoc.
      * eapply steady_trans; [|exact Hs]. rewrite Hc. apply Hst.
  - destruct H1 as (pre & p & rest' & Hd & Ht & Hf & Hs).
    exists pre, p, (rest' ++ d2 (post1 (client w))).
    rewrite Hd, Ht, <- app_assoc. simpl. auto.
Qed.

Lemma write_or_disconnect_run env site line (w : State) :
  live (client w) ->
  write_or_disconnect env site line w =
    if env_write env (write_calls (trace w))
    then (Done tt, mkWorld (client w) (trace w ++ [EvWrite site line true]))
    else (GotoDisconnect, mkWorld (client w) (trace w ++ [EvWrite site line false])).
Proof.
  intros [Hc Hp]. unfold write_or_disconnect, bind, WriteLine.
  rewrite Hc, Hp. simpl.
  destruct (env_write env (write_calls (trace w))); reflexivity.
Qed.

Lemma for_each_write env site (f : string -> string) (lines : list string) :
  forall w : State, live (client w) ->
    match for_each lines (fun x => write_or_disconnect env site (f x)) w with
    | (Done _, w') =>
        trace w' = trace w ++ map written (tag site (map f lines))
        /\ client w' = client w
    | (GotoDisconnect, w') =>
        exists pre p rest,
          tag site (map f lines) = pre ++ p :: rest
          /\ trace w' = trace w ++ map written pre ++ [EvWrite (fst p) (snd p) false]
          /\ env_write env (write_calls (trace w) + List.length pre) = false
          /\ client w' = client w
    end.
Proof.
  induction lines as [|x lines IH]; intros w Hlive; simpl.
  - unfold ret. now rewrite app_nil_r.
  - unfold bind at 1. rewrite write_or_disconnect_run by assumption.
    destruct (env_write env (write_calls (trace w))) eqn:Hok.
    + set (w1 := mkWorld (client w) (trace w ++ [EvWrite site (f x) true])).
      specialize (IH w1 Hlive).
      destruct (for_each lines _ w1) as [[u|] w2].
      * destruct IH as [Ht Hc]. rewrite Ht. simpl. rewrite <- app_assoc. auto.
      * destruct IH as (pre & p & rest & Hd & Ht & Hf & Hc).
        exists ((site, f x) :: pre), p, rest. unfold tag in *. rewrite Hd, Ht.
        simpl. rewrite <- app_assoc. repeat split; auto.
        simpl in Hf. rewrite write_calls_app in Hf. simpl in Hf.
        now rewrite Nat.add_succ_r, <- Nat.add_1_r, <- Nat.add_assoc, (Nat.add_comm _ 1), Nat.add_assoc.
    + exists [], (site, f x), (tag site (map f lines)). simpl.
      rewrite Nat.add_0_r. auto.
Qed.

(** Assigning a member its own value changes nothing. *)
Lemma set_lastSentGameLang_same (st : Client) :
  set_lastSentGameLang (lastSentGameLang st) st = st.
Proof. destruct st; reflexivity. Qed.

Lemma set_lastSentCfg_same c (st : Client) :
  set_lastSentCfg c (cfg_get c (lastSentCfg st)) st = st.
Proof.
  destruct st as [? ? ? ? ? ? ? ? ? ? l ? ? ?]. destruct l, c; reflexivity.
Qed.

Lemma set_pendingOptions_same (st : Client) :
  set_pendingOptions (pendingOptions st) st = st.
Proof. destruct st; reflexivity. Qed.

Lemma set_pendingFavorites_same (st : Client) :
  set_pendingFavorites (pendingFavorites st) st = st.
Proof. destruct st; reflexivity. Qed.

Lemma set_pendingClose_same (st : Client) :
  set_pendingClose (pendingClose st) st = st.
Proof. destruct st; reflexivity. Qed.

Lemma set_pendingListen_same (st : Client) :
  set_pendingListen (pendingListen st) st = st.
Proof. destruct st; reflexivity. Qed.

Lemma set_pendingListenVoiceHandle_same (st : Client) :
  set_pendingListenVoiceHandle (pendingListenVoiceHandle st) st = st.
Proof. destruct st; reflexivity. Qed.

Lemma differs_string_false (last : option string) (d : string) :
  differs String.eqb last d = false -> last = Some d.
Proof.
  destruct last as [v|]; simpl; [|discriminate].
  intros H. apply negb_false_iff, String.eqb_eq in H. now subst.
Qed.

Lemma differs_bool_false (last : option bool) (d : bool) :
  differs Bool.eqb last d = false -> last = Some d.
Proof.
  destruct last as [v|]; simpl; [|discriminate].
  intros H. apply negb_false_iff, Bool.eqb_prop in H. now subst.
Qed.

(** The case of a block that has nothing to send. *)
Ltac idle_block :=
  simpl; rewrite ?app_nil_r, ?orb_false_r; repeat split; auto.

(** The case of a block that writes one line and then updates the state. *)
Ltac one_line_block Hlive :=
  unfold bind; rewrite write_or_disconnect_run by exact Hlive;
  match goal with
  | |- context [env_write ?e ?n] =>
      let Hok := fresh "Hok" in
      destruct (env_write e n) eqn:Hok; simpl;
      [ rewrite ?orb_true_r; repeat split; auto
      | eexists [], _, []; simpl; rewrite Nat.add_0_r;
        repeat split; eauto using steady_refl ]
  end.

Lemma transmit_lang_refines env :
  refines env (transmit_lang env)
    (fun st : Client => tag SiteLang (lang_lines st))
    (fun st : Client => set_lastSentGameLang
                 (acknowledged (desiredGameLang st) (lastSentGameLang st)) st)
    (fun st : Client => nonempty (lang_lines st)).
Proof.
  intros wa w Hlive. unfold transmit_lang, lang_lines, bind at 1, get.
  destruct (desiredGameLang (client w)) as [d|] eqn:Hd; simpl.
  - destruct (differs String.eqb (lastSentGameLang (client w)) d) eqn:Hdiff.
    + one_line_block Hlive.
    + apply differs_string_false in Hdiff. rewrite <- Hdiff.
      rewrite set_lastSentGameLang_same. idle_block.
  - rewrite set_lastSentGameLang_same. idle_block.
Qed.

Lemma transmit_cfg_refines env c :
  refines env (transmit_cfg env c)
    (fun st : Client => tag (SiteCfg c) (cfg_lines c st))
    (@acknowledge_cfg float c)
    (fun st : Client => nonempty (cfg_lines c st)).
Proof.
  intros wa w Hlive.
  unfold transmit_cfg, cfg_lines, acknowledge_cfg, bind at 1, get.
  destruct (cfg_get c (desiredCfg (client w))) as [d|] eqn:Hd; simpl.
  - destruct (differs Bool.eqb (cfg_get c (lastSentCfg (client w))) d) eqn:Hdiff.
    + one_line_block Hlive.
    + apply differs_bool_false in Hdiff. rewrite <- Hdiff.
      rewrite set_lastSentCfg_same. idle_block.
  - rewrite set_lastSentCfg_same. idle_block.
Qed.

Lemma transmit_close_refines env :
  refines env (transmit_close env)
    (fun st : Client => tag SiteClose (close_lines st))
    (@set_pendingClose float false)
    (fun st : Client => pendingClose st).
Proof.
  intros wa w Hlive. unfold transmit_close, close_lines, bind at 1, get.
  destruct (pendingClose (client w)) eqn:Hp; simpl.
  - one_line_block Hlive.
  - idle_block. rewrite <- Hp. symmetry. apply set_pendingClose_same.
Qed.

Lemma transmit_listen_refines env :
  refines env (transmit_listen env)
    (fun st : Client => tag SiteListen (listen_lines st))
    (@set_pendingListen float None)
    (fun st : Client => is_some (pendingListen st)).
Proof.
  intros wa w Hlive. unfold transmit_listen, listen_lines, bind at 1, get.
  destruct (pendingListen (client w)) as [on|] eqn:Hp; simpl.
  - one_line_block Hlive.
  - rewrite <- Hp, set_pendingListen_same. idle_block.
Qed.

Lemma transmit_listen_shouts_refines env :
  refines env (transmit_listen_shouts env)
    (fun st : Client => tag SiteListenShouts (listen_shouts_lines st))
    (@set_pendingListenVoiceHandle float None)
    (fun st : Client => is_some (pendingListenVoiceHandle st)).
Proof.
  intros wa w Hlive.
  unfold transmit_listen_shouts, listen_shouts_lines, bind at 1, get.
  destruct (pendingListenVoiceHandle (client w)) as [on|] eqn:Hp; simpl.
  - one_line_block Hlive.
  - rewrite <- Hp, set_pendingListenVoiceHandle_same. idle_block.
Qed.

Lemma live_set_pendingOptions v (st : Client) :
  live st -> live (set_pendingOptions v st).
Proof. now intros [? ?]. Qed.

Lemma live_set_pendingFavorites v (st : Client) :
  live st -> live (set_pendingFavorites v st).
Proof. now intros [? ?]. Qed.

Lemma transmit_favorites_refines env :
  refines env (transmit_favorites env)
    (fun st : Client => tag SiteFavorites (favorites_due st))
    (@set_pendingFavorites float None)
    (fun st : Client => is_some (pendingFavorites st)).
Proof.
  intros wa w Hlive.
  unfold transmit_favorites, favorites_due, bind at 1, get.
  destruct (pendingFavorites (client w)) as [lines|] eqn:Hp; simpl.
  - unfold bind at 1, modify at 1. unfold bind at 1.
    set (w1 := mkWorld (set_pendingFavorites None (client w)) (trace w)).
    pose proof (for_each_write env SiteFavorites (fun x => x) lines w1
                  (live_set_pendingFavorites None Hlive)) as H.
    rewrite map_id in H.
    destruct (for_each lines _ w1) as [[u|] w2].
    + destruct H as [Ht Hc]. simpl. rewrite orb_true_r. auto.
    + destruct H as (pre & p & rest & Hd & Ht & Hf & Hc).
      exists pre, p, rest. rewrite Hc. repeat split; auto.
  - idle_block. rewrite <- Hp. symmetry. apply set_pendingFavorites_same.
Qed.

Lemma transmit_options_refines env :
  refines env (transmit_options env)
    (fun st : Client => tag SiteOptions (options_lines st))
    (@set_pendingOptions float None)
    (fun st : Client => is_some (pendingOptions st)).
Proof.
  intros wa w Hlive.
  unfold transmit_options, options_lines, bind at 1, get.
  destruct (pendingOptions (client w)) as [opts|] eqn:Hp; [|simpl].
  - cbv beta iota. unfold is_some. unfold bind at 1, modify at 1.
    set (st1 := set_pendingOptions None (client w)).
    assert (Hlive1 : live st1) by now apply live_set_pendingOptions.
    assert (Hsteady : steady (client w) st1) by (repeat split).
    unfold bind at 1. rewrite write_or_disconnect_run by exact Hlive1.
    cbn [trace client].
    set (open := ("OPEN|" ++ Str.of_nat (List.length opts))%string).
    set (opt := fun s => SanitizeInPlace ("OPT|" ++ s)%string).
    destruct (env_write env (write_calls (trace w))) eqn:Hok1.
    + unfold bind at 1.
      set (w2 := mkWorld st1 (trace w ++ [EvWrite SiteOptions open true])).
      pose proof (for_each_write env SiteOptions opt opts w2 Hlive1) as H.
      destruct (for_each opts _ w2) as [[u|] w3].
      * destruct H as [Ht Hc].
        assert (Hlive3 : live (client w3)) by now rewrite Hc.
        unfold bind at 1. rewrite write_or_disconnect_run by exact Hlive3.
        assert (Hn : write_calls (trace w3)
                     = write_calls (trace w) + S (List.length opts)).
        { rewrite Ht. subst w2. cbn [trace].
          rewrite !write_calls_app, write_calls_written. unfold tag.
          rewrite !length_map. unfold write_calls. simpl. lia. }
        rewrite Hn.
        assert (Hl : List.length (tag SiteOptions (open :: map opt opts))
                     = S (List.length opts)).
        { unfold tag. simpl. now rewrite !length_map. }
        assert (Hsplit : tag SiteOptions (open :: map opt opts ++ ["END"])
                         = tag SiteOptions (open :: map opt opts)
                             ++ [(SiteOptions, "END"%string)]).
        { unfold tag. simpl. now rewrite map_app. }
        assert (Htr : trace w3
                      = trace w ++ map written (tag SiteOptions (open :: map opt opts))).
        { rewrite Ht. subst w2. cbn [trace]. rewrite <- app_assoc. reflexivity. }
        destruct (env_write env (write_calls (trace w) + S (List.length opts)))
          eqn:Hok2.
        -- cbn [ret]. rewrite Hsplit, map_app, Htr, Hc, <- !app_assoc.
           rewrite orb_true_r. auto.
        -- exists (tag SiteOptions (open :: map opt opts)),
             (SiteOptions, "END"%string), [].
           rewrite Hl. cbn [trace client fst snd].
           rewrite Htr, Hc, <- app_assoc. auto.
      * destruct H as (pre & p & rest & Hd & Ht & Hf & Hc).
        exists ((SiteOptions, open) :: pre), p,
          (rest ++ [(SiteOptions, "END"%string)]).
        subst w2. cbn [trace client] in *.
        split; [|split; [|split]].
        -- change (tag SiteOptions (open :: map opt opts ++ ["END"%string]))
             with ((SiteOptions, open)
                     :: map (pair SiteOptions) (map opt opts ++ ["END"%string])).
           rewrite map_app. fold (tag SiteOptions (map opt opts)).
           rewrite Hd, <- app_assoc. reflexivity.
        -- rewrite Ht, <- app_assoc. reflexivity.
        -- rewrite write_calls_app in Hf. unfold write_calls at 2 in Hf.
           simpl in Hf. cbn [List.length].
           replace (write_calls (trace w) + S (List.length pre))
             with (write_calls (trace w) + 1 + List.length pre) by lia.
           exact Hf.
        -- now rewrite Hc.
    + exists [], (SiteOptions, open),
        (tag SiteOptions (map opt opts ++ ["END"])).
      simpl. rewrite Nat.add_0_r. auto.
  - idle_block. rewrite <- Hp. symmetry. apply set_pendingOptions_same.
Qed.

Lemma refines_ext env (step : bool -> M float bool)
    d post wrote d' post' wrote' :
  (forall st, d st = d' st) ->
  (forall st, post st = post' st) ->
  (forall st, wrote st = wrote' st) ->
  refines env step d post wrote -> refines env step d' post' wrote'.
Proof.
  intros Hd Hp Hw H wa w Hlive. specialize (H wa w Hlive).
  destruct (step wa w) as [[wa'|] w'].
  - now rewrite <- Hd, <- Hp, <- Hw.
  - now rewrite <- Hd.
Qed.

Ltac block_by lemma :=
  eapply refines_seq; [apply lemma | | intros st; repeat split].

Theorem transmit_refines env :
  refines env (transmit_blocks env) (@due float) (@transmitted float)
    (@wrote_any float).
Proof.
  eapply refines_ext;
    [ | | |
      unfold transmit_blocks;
      block_by transmit_lang_refines;
      block_by transmit_options_refines;
      block_by transmit_close_refines;
      block_by transmit_favorites_refines;
      block_by transmit_listen_refines;
      do 10 (block_by transmit_cfg_refines);
      apply transmit_listen_shouts_refines ].
  - intros st. reflexivity.
  - intros st. reflexivity.
  - intros st. cbv beta. rewrite !orb_assoc. reflexivity.
Qed.

(** ** HandleDisconnect and connect in closed form *)

Lemma set_pipe_same (st : Client) : set_pipe (pipe st) st = st.
Proof. destruct st; reflexivity. Qed.


Lemma HandleDisconnect_run (w : State) :
  connected (client w) = true \/ pipe (client w) = true ->
  HandleDisconnect w =
    (Done tt, mkWorld (disconnected (client w))
                      (trace w ++ disconnect_events (client w))).
Proof.
  intros H. unfold HandleDisconnect, bind at 1, get.
  assert (Hg : negb (connected (client w)) && negb (pipe (client w)) = false).
  { destruct H as [-> | ->]; simpl; auto using andb_false_r. }
  rewrite Hg. unfold disconnect_events.
  destruct (pipe (client w)) eqn:Hp.
  - cbv [bind with_lock modify emit ret client trace]. simpl.
    rewrite <- !app_assoc. reflexivity.
  - assert (E : set_pipe false (client w) = client w).
    { rewrite <- Hp. apply set_pipe_same. }
    unfold disconnected. rewrite E.
    cbv [bind with_lock modify emit ret client trace]. simpl.
    rewrite <- !app_assoc. reflexivity.
Qed.

Lemma connect_run env (w : State) :
  connected (client w) = false ->
  connect env w =
    if env_connect env
    then (Done true,
          mkWorld (connected_now (client w))
            (trace w ++ [EvConnect true; EvLock ConnMutex; EvUnlock ConnMutex]))
    else (Done false,
          mkWorld (client w) (trace w ++ [EvConnect false; EvSleep 1000])).
Proof.
  intros Hc. unfold connect, bind at 1, get. rewrite Hc. simpl.
  destruct (env_connect env);
    cbv [bind with_lock modify emit ret client trace]; simpl;
    rewrite <- !app_assoc; reflexivity.
Qed.

Lemma connect_skip env (w : State) :
  connected (client w) = true -> connect env w = (Done true, w).
Proof. intros Hc. unfold connect, bind at 1, get. now rewrite Hc. Qed.

(** ** The read loop in closed form *)

Lemma handle_line_run line (w : State) :
  handle_line float_zero stof line w =
    match decode_line float_zero stof line with
    | Some r =>
        (Done tt,
         mkWorld (set_responses (deposit r (responses (client w))) (client w))
                 (trace w ++ [EvLock RespMutex; EvUnlock RespMutex]))
    | None => (Done tt, w)
    end.
Proof.
  unfold handle_line, decode_line.
  destruct (Str.starts_with "RES|" line);
    [|destruct (Str.starts_with "TRIG|" line);
      [|destruct (Str.starts_with "DBG|" line)]];
    try reflexivity;
    cbv [push_response bind with_lock modify emit ret client trace];
    rewrite <- !app_assoc; reflexivity.
Qed.

Lemma incoming_loop_run : forall rounds (w : State),
  String.length (recvBuf (client w)) <= rounds ->
  let buf := recvBuf (client w) in
  let rs := messages float_zero stof (fst (Str.cut LF buf)) in
  incoming_loop float_zero stof rounds w =
    (Done tt,
     mkWorld (set_recvBuf (snd (Str.cut LF buf))
                (set_responses (deposit_all rs (responses (client w)))
                   (client w)))
             (trace w ++ deposit_events rs)).
Proof.
  induction rounds as [|rounds IH]; intros w Hlen; cbv zeta.
  - destruct w as [st t]. cbn [client] in *.
    destruct (recvBuf st) eqn:Hb; [|simpl in Hlen; lia].
    simpl. unfold ret. rewrite app_nil_r. f_equal. f_equal.
    rewrite <- Hb. destruct st; reflexivity.
  - cbn [incoming_loop]. unfold bind at 1, get.
    destruct (Str.find LF 0 (recvBuf (client w))) as [pos|] eqn:Hfind.
    + rewrite (StrFacts.find_some_cut _ _ Hfind).
      pose proof (StrFacts.find_lt _ _ _ Hfind) as Hpos.
      rewrite Nat.add_1_r.
      set (rest := Str.drop (S pos) (recvBuf (client w))).
      assert (Hshort : String.length rest <= rounds).
      { unfold rest. rewrite StrFacts.length_drop. lia. }
      unfold bind at 1, modify at 1. unfold bind at 1.
      rewrite handle_line_run. cbn [fst snd messages]. unfold Str.substr.
      cbn [Str.drop client trace].
      destruct (decode_line float_zero stof (Str.take pos (recvBuf (client w))))
        as [r|].
      * rewrite IH by exact Hshort. cbn [client trace recvBuf responses].
        cbn [deposit_all fold_left deposit_events].
        rewrite <- app_assoc. reflexivity.
      * rewrite IH by exact Hshort. reflexivity.
    + rewrite (StrFacts.find_none_cut _ _ Hfind). simpl.
      unfold ret. rewrite app_nil_r. destruct w as [st t]. simpl.
      f_equal. f_equal. destruct st; reflexivity.
Qed.

(** The loop ends because the buffer holds no line feed any more, not
    because the rounds are used up. *)
Lemma cut_rest_no_sep c : forall s, Str.mem c (snd (Str.cut c s)) = false.
Proof.
  induction s as [|a s IH]; simpl; [reflexivity|].
  destruct (Str.cut c s) as [pieces rest]. simpl in IH.
  destruct (Ascii.eqb a c) eqn:Ea; simpl; [assumption|].
  destruct pieces; simpl; [now rewrite Ea|assumption].
Qed.

Lemma incoming_loop_breaks (w : State) :
  let w' := snd (incoming_loop float_zero stof
                   (String.length (recvBuf (client w))) w) in
  Str.find LF 0 (recvBuf (client w')) = None.
Proof.
  cbv zeta. rewrite incoming_loop_run by reflexivity. simpl.
  apply StrFacts.mem_false_find, cut_rest_no_sep.
Qed.

Lemma ProcessIncoming_run env (w : State) :
  live (client w) ->
  ProcessIncoming float_zero stof env w =
    (Done tt,
     mkWorld (incoming_state float_zero stof (env_incoming env) (client w))
             (trace w ++ incoming_events float_zero stof (env_incoming env)
                           (client w))).
Proof.
  intros [Hc Hp]. unfold ProcessIncoming, bind at 1, get. rewrite Hc, Hp.
  cbn [negb orb]. unfold incoming_state, incoming_events.
  destruct (env_incoming env) as [| | |chunk].
  - unfold bind, emit. rewrite HandleDisconnect_run by (left; exact Hc).
    cbn [client trace]. now rewrite <- app_assoc.
  - unfold emit. destruct w; reflexivity.
  - unfold bind, emit. rewrite HandleDisconnect_run by (left; exact Hc).
    cbn [client trace]. now rewrite <- !app_assoc.
  - unfold bind at 1, emit at 1. unfold bind at 1, emit at 1.
    cbn [client trace].
    destruct (chunk =? "")%string.
    + rewrite HandleDisconnect_run by (left; exact Hc).
      cbn [client trace]. now rewrite <- !app_assoc.
    + unfold bind, modify. rewrite incoming_loop_run by reflexivity.
      cbn [client trace recvBuf responses]. unfold received.
      rewrite <- !app_assoc. reflexivity.
Qed.

(** ** The transmit phase, the service cycle and the iteration *)

Lemma transmit_run env (w : State) :
  live (client w) ->
  match transmit env w with
  | (Done wroteAny, w') =>
      trace w' = trace w ++ EvLock SendMutex
                   :: map written (due (client w)) ++ [EvUnlock SendMutex]
      /\ client w' = transmitted (client w)
      /\ wroteAny = wrote_any (client w)
  | (GotoDisconnect, w') =>
      exists pre p rest,
        due (client w) = pre ++ p :: rest
        /\ trace w' = trace w ++ EvLock SendMutex
                        :: map written pre
                        ++ [EvWrite (fst p) (snd p) false; EvUnlock SendMutex]
        /\ env_write env (write_calls (trace w) + List.length pre) = false
        /\ steady (client w) (client w')
  end.
Proof.
  intros Hlive. unfold transmit, with_lock, bind at 1, emit.
  set (w1 := mkWorld (client w) (trace w ++ [EvLock SendMutex])).
  pose proof (transmit_refines env false w1 Hlive) as H.
  destruct (transmit_blocks env false w1) as [[wa|] w2];
    subst w1; cbn [client trace] in *.
  - destruct H as (Ht & Hc & Hw). rewrite Ht, <- !app_assoc. auto.
  - destruct H as (pre & p & rest & Hd & Ht & Hf & Hs).
    exists pre, p, rest. rewrite Ht, <- !app_assoc.
    rewrite write_calls_app in Hf. unfold write_calls at 2 in Hf. simpl in Hf.
    rewrite Nat.add_0_r in Hf. auto.
Qed.

Lemma live_transmitted (st : Client) : live st -> live (transmitted st).
Proof. now intros [? ?]. Qed.

Lemma service_cycle_run env (w : State) :
  live (client w) ->
  (service_cycle float_zero stof env w =
     (Done tt, mkWorld (cycle_state float_zero stof env (client w))
                       (trace w ++ cycle_events float_zero stof env (client w))))
  \/ (exists pre p rest st',
        due (client w) = pre ++ p :: rest
        /\ env_write env (write_calls (trace w) + List.length pre) = false
        /\ steady (client w) st'
        /\ service_cycle float_zero stof env w =
             (Done tt, mkWorld (disconnected st')
                               (trace w ++ failed_events pre p st'))).
Proof.
  intros Hlive. unfold service_cycle, on_disconnect. unfold bind.
  pose proof (transmit_run env w Hlive) as H.
  destruct (transmit env w) as [[wa|] w1].
  - left. destruct H as (Ht & Hc & Hw).
    assert (Hlive1 : live (client w1)).
    { rewrite Hc. now apply live_transmitted. }
    rewrite ProcessIncoming_run by exact Hlive1.
    unfold cycle_state, cycle_events. rewrite Hc, Ht, Hw. cbn [client trace].
    destruct (wrote_any (client w)); cbn [negb]; unfold ret, emit;
      cbn [client trace]; rewrite <- ?app_assoc; cbn [app];
      rewrite <- ?app_assoc; try rewrite app_nil_r; reflexivity.
  - right. destruct H as (pre & p & rest & Hd & Ht & Hf & Hs).
    exists pre, p, rest, (client w1).
    split; [exact Hd|]. split; [exact Hf|]. split; [exact Hs|].
    assert (Hlive1 : live (client w1)) by (eapply steady_live; eauto).
    rewrite HandleDisconnect_run by (left; apply Hlive1).
    unfold emit, failed_events. cbn [client trace]. rewrite Ht.
    rewrite <- !app_assoc. cbn [app]. rewrite <- !app_assoc. reflexivity.
Qed.

Lemma channel_ok_no_failure env n : channel_ok env -> env_write env n <> false.
Proof. intros H. now rewrite H. Qed.

Lemma service_cycle_ok env (w : State) :
  live (client w) -> channel_ok env ->
  service_cycle float_zero stof env w =
    (Done tt, mkWorld (cycle_state float_zero stof env (client w))
                      (trace w ++ cycle_events float_zero stof env (client w))).
Proof.
  intros Hlive Hok.
  destruct (service_cycle_run env w Hlive) as [H|H]; [exact H|].
  destruct H as (pre & p & rest & st' & _ & Hf & _).
  now apply channel_ok_no_failure in Hf.
Qed.

Lemma live_entering env (st : Client) : cycle_begins env st -> live (entering st).
Proof.
  unfold entering. intros [[Hc Hp]|[Hc _]]; rewrite Hc; [now split|].
  now split.
Qed.

Lemma iteration_enters env (st : Client) :
  cycle_begins env st ->
  ThreadMain_iteration float_zero stof env (mkWorld st [])
  = service_cycle float_zero stof env (mkWorld (entering st) (connect_events st)).
Proof.
  unfold ThreadMain_iteration, entering, connect_events, bind at 1.
  intros [[Hc Hp]|[Hc He]].
  - rewrite connect_skip by exact Hc. now rewrite Hc.
  - rewrite connect_run by exact Hc. rewrite He, Hc. reflexivity.
Qed.

Lemma iteration_run env (st : Client) :
  cycle_begins env st ->
  (run (ThreadMain_iteration float_zero stof env) st =
     (Done tt, mkWorld (cycle_state float_zero stof env (entering st))
                       (connect_events st ++ cycle_events float_zero stof env (entering st))))
  \/ (exists pre p rest st',
        due (entering st) = pre ++ p :: rest
        /\ env_write env (List.length pre) = false
        /\ steady (entering st) st'
        /\ run (ThreadMain_iteration float_zero stof env) st =
             (Done tt, mkWorld (disconnected st')
                               (connect_events st ++ failed_events pre p st'))).
Proof.
  intros Hb. unfold run. rewrite (iteration_enters Hb).
  pose proof (live_entering Hb) as Hlive.
  destruct (service_cycle_run env (mkWorld (entering st) (connect_events st))
              Hlive) as [H|H]; [left; exact H|right].
  destruct H as (pre & p & rest & st' & Hd & Hf & Hs & Hrun).
  exists pre, p, rest, st'.
  split; [exact Hd|]. split; [|split; [exact Hs|exact Hrun]].
  cbn [trace] in Hf.
  replace (write_calls (connect_events st)) with 0 in Hf; [exact Hf|].
  unfold connect_events. now destruct (connected st).
Qed.

Lemma iteration_ok env (st : Client) :
  cycle_begins env st -> channel_ok env ->
  run (ThreadMain_iteration float_zero stof env) st =
    (Done tt, mkWorld (cycle_state float_zero stof env (entering st))
                      (connect_events st ++ cycle_events float_zero stof env (entering st))).
Proof.
  intros Hb Hok. destruct (iteration_run Hb) as [H|H]; [exact H|].
  destruct H as (pre & p & rest & st' & _ & Hf & _).
  now apply channel_ok_no_failure in Hf.
Qed.

(** ** What an iteration sends *)

Lemma sent_deposit_events (rs : list (PipeResponse float)) :
  sent (deposit_events rs) = [].
Proof. induction rs; simpl; auto. Qed.

Lemma sent_disconnect_events (st : Client) : sent (disconnect_events st) = [].
Proof. unfold disconnect_events. now destruct (pipe st). Qed.

Lemma sent_incoming_events i (st : Client) :
  sent (incoming_events float_zero stof i st) = [].
Proof.
  destruct i as [| | |chunk]; simpl; auto using sent_disconnect_events.
  destruct (chunk =? "")%string;
    auto using sent_disconnect_events, sent_deposit_events.
Qed.

Lemma sent_connect_events (st : Client) : sent (connect_events st) = [].
Proof. unfold connect_events. now destruct (connected st). Qed.

Lemma sent_cycle_events env (st : Client) :
  sent (cycle_events float_zero stof env st) = due st.
Proof.
  unfold cycle_events. cbn [sent]. rewrite sent_app, sent_written. cbn [sent].
  rewrite sent_app, sent_incoming_events.
  destruct (wrote_any st); simpl; now rewrite app_nil_r.
Qed.

Lemma sent_failed_events pre p (st : Client) :
  sent (failed_events pre p st) = pre.
Proof.
  unfold failed_events. cbn [sent]. rewrite sent_app, sent_written. cbn [sent].
  rewrite sent_app, sent_disconnect_events. simpl. now rewrite app_nil_r.
Qed.

Lemma due_entering (st : Client) : due (entering st) = due st.
Proof. unfold entering. now destruct (connected st). Qed.

(** The lines sent in an iteration are the due lines, up to the first
    write that fails. *)
Lemma iteration_sent env (st : Client) :
  cycle_begins env st ->
  exists rest,
    due st = sent (events (iteration env) st) ++ rest
    /\ (channel_ok env -> rest = []).
Proof.
  intros Hb. unfold events.
  destruct (iteration_run Hb) as [H|H].
  - rewrite H. cbn [snd trace]. exists [].
    rewrite sent_app, sent_connect_events, sent_cycle_events, due_entering.
    now rewrite app_nil_r.
  - destruct H as (pre & p & rest & st' & Hd & Hf & Hs & H).
    rewrite H. cbn [snd trace]. exists (p :: rest).
    rewrite sent_app, sent_connect_events, sent_failed_events.
    rewrite due_entering in Hd. split; [exact Hd|].
    intros Hok. now apply channel_ok_no_failure with (n := List.length pre) in Hok.
Qed.

Lemma iteration_sent_ok env (st : Client) :
  cycle_begins env st -> channel_ok env ->
  sent (events (iteration env) st) = due st.
Proof.
  intros Hb Hok. destruct (iteration_sent Hb) as (rest & Hd & Hr).
  rewrite (Hr Hok), app_nil_r in Hd. now symmetry.
Qed.

Lemma iteration_state_ok env (st : Client) :
  cycle_begins env st -> channel_ok env ->
  exec (iteration env) st = cycle_state float_zero stof env (entering st).
Proof.
  intros Hb Hok. unfold exec. now rewrite (iteration_ok Hb Hok).
Qed.

(** ** The lines of one place *)


Lemma CfgToggle_eqb_refl c : CfgToggle_eqb c c = true.
Proof. now destruct c. Qed.

Lemma CfgToggle_eqb_eq c c' : CfgToggle_eqb c c' = true -> c = c'.
Proof. destruct c, c'; simpl; congruence. Qed.

Lemma Site_eqb_refl x : Site_eqb x x = true.
Proof. destruct x; simpl; auto using CfgToggle_eqb_refl. Qed.

Lemma Site_eqb_eq x y : Site_eqb x y = true -> x = y.
Proof.
  destruct x, y; simpl; try congruence.
  intros H. now rewrite (CfgToggle_eqb_eq _ _ H).
Qed.




Lemma in_order_tag x lines : in_order (tag x lines).
Proof.
  unfold in_order, tag. induction lines as [|l lines IH]; simpl;
    constructor; auto.
  apply Forall_forall. intros [y s] Hin. apply in_map_iff in Hin.
  destruct Hin as (s' & [= <- <-] & _). simpl. lia.
Qed.

Lemma in_order_app (l1 l2 : list (Site * string)) n :
  in_order l1 -> in_order l2 ->
  Forall (fun a => site_rank (fst a) <= n) l1 ->
  Forall (fun a => n <= site_rank (fst a)) l2 ->
  in_order (l1 ++ l2).
Proof.
  unfold in_order. intros H1 H2 Hlo Hhi.
  induction H1 as [|a l1 Hs IH Ha]; simpl; [exact H2|].
  inversion Hlo as [|? ? Han Hlo']; subst.
  constructor; [now apply IH|].
  apply Forall_app. split; [exact Ha|].
  eapply Forall_impl; [|exact Hhi]. simpl. intros b Hb. lia.
Qed.

Lemma tag_rank x lines :
  Forall (fun a => site_rank (fst a) = site_rank x) (tag x lines).
Proof.
  unfold tag. apply Forall_forall. intros [y s] Hin.
  apply in_map_iff in Hin. now destruct Hin as (s' & [= <- <-] & _).
Qed.

Lemma in_order_prefix (pre rest : list (Site * string)) :
  in_order (pre ++ rest) -> in_order pre.
Proof.
  unfold in_order. induction pre as [|a pre IH]; simpl; intros H;
    [constructor|].
  inversion H as [|? ? Hs Ha]; subst. constructor; [now apply IH|].
  now apply Forall_app in Ha.
Qed.

Lemma flatten_rank n (bs : list (Site * list string)) :
  Forall (fun b => n <= site_rank (fst b)) bs ->
  Forall (fun a => n <= site_rank (fst a)) (flatten bs).
Proof.
  induction 1 as [|b bs Hb _ IH]; simpl; [constructor|].
  apply Forall_app. split; [|exact IH].
  eapply Forall_impl; [|apply tag_rank]. simpl. intros a ->. exact Hb.
Qed.

Lemma flatten_in_order (bs : list (Site * list string)) :
  StronglySorted (fun a b => site_rank (fst a) <= site_rank (fst b)) bs ->
  in_order (flatten bs).
Proof.
  induction 1 as [|b bs Hs IH Hb]; simpl; [constructor|].
  apply in_order_app with (n := site_rank (fst b)); auto using in_order_tag.
  - eapply Forall_impl; [|apply tag_rank]. simpl. intros a ->. lia.
  - now apply flatten_rank.
Qed.

Lemma due_flatten (st : Client) : due st = flatten (due_blocks st).
Proof. unfold due, due_blocks. simpl. now rewrite app_nil_r. Qed.

Lemma due_in_order (st : Client) : in_order (due st).
Proof.
  rewrite due_flatten. apply flatten_in_order. unfold due_blocks.
  repeat (constructor; [|repeat (constructor; [simpl; lia|]); constructor]).
  constructor.
Qed.


(** An ordered list has nothing of lower rank after an element. *)
Lemma in_order_after (l1 l2 : list (Site * string)) a b :
  in_order (l1 ++ a :: l2) -> In b l2 ->
  site_rank (fst a) <= site_rank (fst b).
Proof.
  unfold in_order. induction l1 as [|x l1 IH]; simpl; intros H Hin.
  - inversion H as [|? ? _ Ha]; subst.
    rewrite Forall_forall in Ha. now apply Ha.
  - inversion H; subst. now apply IH.
Qed.

(** C2. In every service cycle the lines that reach the channel are the
    due items in one fixed order (game language, dialogue options, close,
    favorites, listen, the ten CFG toggles from OPEN to POTIONS, shout
    listen), cut short only by a write that fails; when a CFG|SHOUTS line
    and a LISTEN|SHOUTS line are both due, the first is written before the
    second. *)
Theorem transmission_order env (st : Client) :
  cycle_begins env st ->
  let lines := sent (events (iteration env) st) in
  (exists rest, due st = lines ++ rest)
  /\ (channel_ok env -> lines = due st)
  /\ in_order lines
  /\ (forall l1 l2 listen cfg,
        lines = l1 ++ listen :: l2 -> fst listen = SiteListenShouts ->
        In cfg l2 -> fst cfg <> SiteCfg CfgVoiceHandle)
  /\ (forall b on,
        cfg_lines CfgVoiceHandle st = ["CFG|SHOUTS|" ++ bit b]%string ->
        pendingListenVoiceHandle st = Some on ->
        channel_ok env ->
        exists before between,
          map snd lines
          = before ++ ["CFG|SHOUTS|" ++ bit b]%string
              ++ between ++ ["LISTEN|SHOUTS|" ++ bit on]%string).
Proof.
  intros Hb lines.
  destruct (iteration_sent Hb) as (rest & Hd & Hr).
  fold lines in Hd.
  assert (Hord : in_order lines).
  { apply in_order_prefix with (rest := rest). rewrite <- Hd.
    apply due_in_order. }
  split; [now exists rest|].
  split; [intros Hok; rewrite (Hr Hok), app_nil_r in Hd; now symmetry|].
  split; [exact Hord|].
  split.
  - intros l1 l2 listen cfg Hl Hs Hin Hc. rewrite Hl in Hord.
    pose proof (@in_order_after l1 l2 listen cfg Hord Hin) as Hle.
    rewrite Hs, Hc in Hle. simpl in Hle. lia.
  - intros b on Hcfg Hlisten Hok.
    rewrite (Hr Hok), app_nil_r in Hd. rewrite <- Hd.
    exists (map snd (tag SiteLang (lang_lines st)
                       ++ tag SiteOptions (options_lines st)
                       ++ tag SiteClose (close_lines st)
                       ++ tag SiteFavorites (favorites_due st)
                       ++ tag SiteListen (listen_lines st)
                       ++ tag (SiteCfg CfgOpen) (cfg_lines CfgOpen st)
                       ++ tag (SiteCfg CfgClose) (cfg_lines CfgClose st))),
      (map snd (tag (SiteCfg CfgDebug) (cfg_lines CfgDebug st)
                  ++ tag (SiteCfg CfgSaveWav) (cfg_lines CfgSaveWav st)
                  ++ tag (SiteCfg CfgDialogueSelect)
                       (cfg_lines CfgDialogueSelect st)
                  ++ tag (SiteCfg CfgWeapons) (cfg_lines CfgWeapons st)
                  ++ tag (SiteCfg CfgSpells) (cfg_lines CfgSpells st)
                  ++ tag (SiteCfg CfgPowers) (cfg_lines CfgPowers st)
                  ++ tag (SiteCfg CfgPotions) (cfg_lines CfgPotions st))).
    unfold due, listen_shouts_lines. rewrite Hcfg, Hlisten.
    rewrite !map_app. cbn [tag map snd]. rewrite <- !app_assoc.
    reflexivity.
Qed.

(** ** Sticky toggles *)







Lemma cfg_get_set_same c v m : cfg_get c (cfg_set c v m) = v.
Proof. now destruct c. Qed.

Lemma cfg_get_set_other c c' v m :
  c <> c' -> cfg_get c' (cfg_set c v m) = cfg_get c' m.
Proof. destruct c, c'; simpl; congruence. Qed.


(** The acknowledgement of [c] after a transmit phase without a failure. *)
Lemma lastSentCfg_transmitted c (st : Client) :
  cfg_get c (lastSentCfg (transmitted st))
  = acknowledged (cfg_get c (desiredCfg st)) (cfg_get c (lastSentCfg st)).
Proof. destruct c; reflexivity. Qed.


Lemma desired_line_transmitted t (st : Client) :
  desired_line t (transmitted st) = desired_line t st.
Proof. now destruct t. Qed.









(** ** One-shot commands *)






(** ** The grammar-sync operations *)

(** C10. Each of the five grammar-sync operations leaves the client as it
    is and produces no event, whatever its argument. *)
Theorem grammar_sync_noop (w : State) (shouts : list ShoutEntry)
    (powers : list PowerEntry) (weapons spells potions : list ItemEntry) :
  SendShoutsAllowed shouts w = (Done tt, w)
  /\ SendPowersAllowed powers w = (Done tt, w)
  /\ SendWeaponsAllowed weapons w = (Done tt, w)
  /\ SendSpellsAllowed spells w = (Done tt, w)
  /\ SendPotionsAllowed potions w = (Done tt, w).
Proof. repeat split. Qed.

(** ** The idle sleep *)

Lemma existsb_none {A} (f : A -> bool) (l : list A) :
  Forall (fun x => f x = false) l -> existsb f l = false.
Proof. induction 1 as [|x l Hx _ IH]; simpl; [reflexivity|]. now rewrite Hx. Qed.

Lemma quiet_deposit_events (rs : list (PipeResponse float)) :
  Forall (fun e => is_quiet e = true) (deposit_events rs).
Proof. induction rs; simpl; repeat constructor; assumption. Qed.

Lemma quiet_disconnect_events (st : Client) :
  Forall (fun e => is_quiet e = true) (disconnect_events st).
Proof. unfold disconnect_events. destruct (pipe st); repeat constructor. Qed.

Lemma quiet_incoming_events i (st : Client) :
  Forall (fun e => is_quiet e = true) (incoming_events float_zero stof i st).
Proof.
  destruct i as [| | |chunk]; simpl; repeat constructor;
    auto using quiet_disconnect_events.
  destruct (chunk =? "")%string;
    auto using quiet_disconnect_events, quiet_deposit_events.
Qed.

Lemma quiet_not (f : Event -> bool) (l : list Event) :
  (forall e, is_quiet e = true -> f e = false) ->
  Forall (fun e => is_quiet e = true) l -> existsb f l = false.
Proof.
  intros Hf Hl. apply existsb_none. eapply Forall_impl; [|exact Hl]. exact Hf.
Qed.

Lemma written_not (f : Event -> bool) (l : list (Site * string)) :
  (forall s x, f (EvWrite s x true) = false) ->
  existsb f (map written l) = false.
Proof.
  intros Hf. apply existsb_none, Forall_forall. intros e Hin.
  apply in_map_iff in Hin. destruct Hin as (p & <- & _). apply Hf.
Qed.

Lemma quiet_not_idle_sleep e : is_quiet e = true -> is_idle_sleep e = false.
Proof. now destruct e. Qed.

Lemma quiet_not_failed_write e : is_quiet e = true -> is_failed_write e = false.
Proof. now destruct e. Qed.

Lemma slept_idle_connect_events (st : Client) :
  slept_idle (connect_events st) = false.
Proof. unfold connect_events. now destruct (connected st). Qed.

Lemma write_failed_connect_events (st : Client) :
  write_failed (connect_events st) = false.
Proof. unfold connect_events. now destruct (connected st). Qed.

Lemma slept_idle_cycle_events env (st : Client) :
  slept_idle (cycle_events float_zero stof env st) = negb (wrote_any st).
Proof.
  unfold slept_idle, cycle_events. cbn [existsb is_idle_sleep orb].
  rewrite existsb_app, written_not by reflexivity.
  cbn [existsb is_idle_sleep orb]. rewrite existsb_app.
  rewrite (quiet_not _ quiet_not_idle_sleep (quiet_incoming_events _ _)).
  now destruct (wrote_any st).
Qed.

Lemma write_failed_cycle_events env (st : Client) :
  write_failed (cycle_events float_zero stof env st) = false.
Proof.
  unfold write_failed, cycle_events. cbn [existsb is_failed_write orb].
  rewrite existsb_app, written_not by reflexivity.
  cbn [existsb is_failed_write orb]. rewrite existsb_app.
  rewrite (quiet_not _ quiet_not_failed_write (quiet_incoming_events _ _)).
  now destruct (wrote_any st).
Qed.

Lemma slept_failed_events pre p (st : Client) :
  slept_idle (failed_events pre p st) = false
  /\ slept_backoff (failed_events pre p st) = true.
Proof.
  unfold slept_idle, slept_backoff, failed_events.
  cbn [existsb is_idle_sleep is_backoff_sleep orb].
  rewrite !existsb_app, written_not by reflexivity.
  cbn [existsb is_idle_sleep is_backoff_sleep orb]. rewrite !existsb_app.
  rewrite (quiet_not _ quiet_not_idle_sleep (quiet_disconnect_events _)).
  split; [reflexivity|]. cbn. now rewrite !orb_true_r.
Qed.

Lemma nonempty_app {A} (l1 l2 : list A) :
  nonempty (l1 ++ l2) = nonempty l1 || nonempty l2.
Proof. now destruct l1. Qed.

Lemma nonempty_tag x (lines : list string) :
  nonempty (tag x lines) = nonempty lines.
Proof. now destruct lines. Qed.

(** With framed favorites, [wroteAny] tells whether a line was due. *)
Lemma nonempty_due (st : Client) :
  favorites_framed st -> nonempty (due st) = wrote_any st.
Proof.
  intros Hf. unfold due, wrote_any.
  rewrite !nonempty_app, !nonempty_tag, !orb_assoc.
  replace (nonempty (options_lines st)) with (is_some (pendingOptions st))
    by (unfold options_lines; now destruct (pendingOptions st)).
  replace (nonempty (close_lines st)) with (pendingClose st)
    by (unfold close_lines; now destruct (pendingClose st)).
  replace (nonempty (favorites_due st)) with (is_some (pendingFavorites st)).
  2:{ unfold favorites_due, favorites_framed in *.
      destruct (pendingFavorites st) as [[|l ls]|]; auto. now elim Hf. }
  replace (nonempty (listen_lines st)) with (is_some (pendingListen st))
    by (unfold listen_lines; now destruct (pendingListen st)).
  replace (nonempty (listen_shouts_lines st))
    with (is_some (pendingListenVoiceHandle st))
    by (unfold listen_shouts_lines; now destruct (pendingListenVoiceHandle st)).
  reflexivity.
Qed.

Lemma wrote_any_entering (st : Client) : wrote_any (entering st) = wrote_any st.
Proof. unfold entering. now destruct (connected st). Qed.

(** C8, as the code has it. In a service cycle in which no write fails the
    engine takes the idle sleep exactly when it transmitted nothing; what
    it read plays no part. A cycle in which a write fails takes the
    back-off sleep instead. *)
Theorem idle_sleep_when_nothing_sent env (st : Client) :
  cycle_begins env st ->
  favorites_framed st ->
  let evs := events (iteration env) st in
  (channel_ok env ->
     (slept_idle evs = true <-> transmitted_any evs = false))
  /\ (write_failed evs = true ->
        slept_idle evs = false /\ slept_backoff evs = true).
Proof.
  intros Hb Hf evs. split.
  - intros Hok. unfold evs, transmitted_any.
    rewrite (iteration_sent_ok Hb Hok), (nonempty_due Hf).
    unfold events. rewrite (iteration_ok Hb Hok). cbn [snd trace].
    unfold slept_idle. rewrite existsb_app.
    fold (slept_idle (connect_events st)).
    fold (slept_idle (cycle_events float_zero stof env (entering st))).
    rewrite slept_idle_connect_events, slept_idle_cycle_events.
    rewrite wrote_any_entering. now destruct (wrote_any st).
  - unfold evs, events.
    destruct (iteration_run Hb) as [H|(pre & p & rest & st' & _ & _ & _ & H)];
      rewrite H; cbn [snd trace].
    + unfold write_failed. rewrite existsb_app.
      fold (write_failed (connect_events st)).
      fold (write_failed (cycle_events float_zero stof env (entering st))).
      rewrite write_failed_connect_events, write_failed_cycle_events.
      discriminate.
    + intros _. unfold slept_idle, slept_backoff. rewrite !existsb_app.
      fold (slept_idle (connect_events st)).
      fold (slept_idle (failed_events pre p st')).
      fold (slept_backoff (failed_events pre p st')).
      destruct (slept_failed_events pre p st') as [-> ->].
      rewrite slept_idle_connect_events, orb_true_r. auto.
Qed.

(** ** Critical sections *)

Lemma io_under_lock_outside e t :
  is_lock_event e = false -> io_under_lock [] (e :: t) = io_under_lock [] t.
Proof. now destruct e. Qed.

Lemma io_under_lock_section m t :
  io_under_lock [] (EvLock m :: EvUnlock m :: t) = io_under_lock [] t.
Proof. now destruct m. Qed.

Lemma io_under_lock_quiet_unlocked (l t : list Event) :
  Forall (fun e => is_lock_event e = false) l ->
  io_under_lock [] (l ++ t) = io_under_lock [] t.
Proof.
  induction 1 as [|e l He _ IH]; simpl app; [reflexivity|].
  now rewrite io_under_lock_outside.
Qed.

Lemma io_under_lock_writes m (l : list Event) t :
  Forall (fun e => is_lock_event e = false) l ->
  io_under_lock [m] (l ++ EvUnlock m :: t)
  = map (pair m) l ++ io_under_lock [] t.
Proof.
  induction 1 as [|e l He _ IH]; simpl app.
  - now destruct m.
  - destruct e; try discriminate He; simpl; now rewrite IH.
Qed.

Lemma written_no_lock (l : list (Site * string)) :
  Forall (fun e => is_lock_event e = false) (map written l).
Proof.
  apply Forall_forall. intros e Hin. apply in_map_iff in Hin.
  now destruct Hin as (p & <- & _).
Qed.

Lemma io_under_lock_deposit_events (rs : list (PipeResponse float)) t :
  io_under_lock [] (deposit_events rs ++ t) = io_under_lock [] t.
Proof. induction rs as [|r rs IH]; simpl; auto. Qed.

Lemma io_under_lock_disconnect_events (st : Client) t :
  io_under_lock [] (disconnect_events st ++ t) = io_under_lock [] t.
Proof. unfold disconnect_events. now destruct (pipe st). Qed.

Lemma io_under_lock_incoming_events i (st : Client) t :
  io_under_lock [] (incoming_events float_zero stof i st ++ t)
  = io_under_lock [] t.
Proof.
  destruct i as [| | |chunk]; simpl;
    auto using io_under_lock_disconnect_events.
  destruct (chunk =? "")%string;
    auto using io_under_lock_disconnect_events, io_under_lock_deposit_events.
Qed.

Lemma io_under_lock_connect_events (st : Client) t :
  io_under_lock [] (connect_events st ++ t) = io_under_lock [] t.
Proof. unfold connect_events. now destruct (connected st). Qed.

Lemma io_under_lock_cycle_events env (st : Client) :
  io_under_lock [] (cycle_events float_zero stof env st)
  = map (fun p => (SendMutex, written p)) (due st).
Proof.
  unfold cycle_events. cbn [io_under_lock].
  rewrite io_under_lock_writes by apply written_no_lock.
  rewrite io_under_lock_incoming_events, map_map.
  destruct (wrote_any st); simpl; now rewrite app_nil_r.
Qed.

Lemma io_under_lock_failed_events pre p (st : Client) :
  io_under_lock [] (failed_events pre p st)
  = map (fun q => (SendMutex, written q)) pre
      ++ [(SendMutex, EvWrite (fst p) (snd p) false)].
Proof.
  unfold failed_events. cbn [io_under_lock].
  change (map written pre
            ++ EvWrite (fst p) (snd p) false :: EvUnlock SendMutex
            :: disconnect_events st ++ [EvSleep 1000])
    with (map written pre
            ++ [EvWrite (fst p) (snd p) false]
            ++ EvUnlock SendMutex :: disconnect_events st ++ [EvSleep 1000]).
  rewrite app_assoc, io_under_lock_writes.
  - rewrite io_under_lock_disconnect_events, map_app, map_map. simpl.
    now rewrite app_nil_r.
  - apply Forall_app. split; [apply written_no_lock|now constructor].
Qed.

Lemma iteration_not_connecting env (st : Client) :
  connected st = false -> env_connect env = false ->
  events (iteration env) st = [EvConnect false; EvSleep 1000].
Proof.
  intros Hc He. unfold events, run, ThreadMain_iteration, bind at 1.
  rewrite connect_run by exact Hc. now rewrite He.
Qed.

(** C9, as the code has it. The setters and the consumer operations do
    nothing but take and release their mutex. In an iteration of the
    engine nothing is done to the outside world under the response or the
    connection mutex, but every channel write of the transmit phase is
    done with the send mutex held: in a cycle without a failure, exactly
    the writes of the due lines. *)
Theorem lock_discipline env (st : Client) (cmd : OneShot) (c : CfgToggle)
    (enabled : bool) (langCode : string) :
  (io_free (events (set_oneshot cmd) st)
   /\ io_free (events (SendConfig c enabled) st)
   /\ io_free (events (SendGameLanguage langCode) st)
   /\ io_free (events ConsumeLastResponse st)
   /\ io_free (events ConsumeConnectionEvent st))
  /\ (link_consistent st ->
        Forall send_write (io_under_lock [] (events (iteration env) st)))
  /\ (cycle_begins env st -> channel_ok env ->
        io_under_lock [] (events (iteration env) st)
        = map (fun p => (SendMutex, written p)) (due st)).
Proof.
  split; [|split].
  - repeat split.
    + destruct cmd; repeat constructor.
    + repeat constructor.
    + unfold events, run, SendGameLanguage.
      destruct (SanitizeInPlace langCode =? "")%string; repeat constructor.
    + unfold events, run, ConsumeLastResponse, with_lock, bind, get, emit.
      cbn [client trace]. destruct (responses st); repeat constructor.
    + repeat constructor.
  - intros Hlink.
    assert (Hcases : cycle_begins env st
                     \/ (connected st = false /\ env_connect env = false)).
    { unfold cycle_begins, live. unfold link_consistent in Hlink.
      destruct (connected st) eqn:Hc; [left; left; now split|].
      destruct (env_connect env); [left; right|right]; now split. }
    destruct Hcases as [Hb|[Hc He]].
    + unfold events.
      destruct (iteration_run Hb) as [H|(pre & p & rest & st' & _ & _ & _ & H)];
        rewrite H; cbn [snd trace]; rewrite io_under_lock_connect_events.
      * rewrite io_under_lock_cycle_events. apply Forall_forall.
        intros me Hin. apply in_map_iff in Hin.
        destruct Hin as (q & <- & _). now split.
      * rewrite io_under_lock_failed_events. apply Forall_app. split.
        -- apply Forall_forall. intros me Hin. apply in_map_iff in Hin.
           destruct Hin as (q & <- & _). now split.
        -- repeat constructor.
    + rewrite (@iteration_not_connecting env st Hc He). constructor.
  - intros Hb Hok. unfold events. rewrite (iteration_ok Hb Hok).
    cbn [snd trace].
    now rewrite io_under_lock_connect_events, io_under_lock_cycle_events,
      due_entering.
Qed.

(** ** The response queue *)

Lemma deposit_spec (r : PipeResponse float) q :
  List.length q <= 128 ->
  deposit r q = skipn (List.length (q ++ [r]) - 128) (q ++ [r])
  /\ List.length (deposit r q) <= 128.
Proof.
  intros Hq. unfold deposit, pop_front. rewrite length_app. cbn [List.length].
  destruct (128 <? List.length q + 1)%nat eqn:E.
  - apply Nat.ltb_lt in E. replace (List.length q + 1 - 128) with 1 by lia.
    destruct q as [|x q]; [simpl in E; lia|]. simpl. split; [reflexivity|].
    rewrite length_app. simpl in *. lia.
  - apply Nat.ltb_ge in E. replace (List.length q + 1 - 128) with 0 by lia.
    split; [reflexivity|]. rewrite length_app. simpl. lia.
Qed.

Lemma deposit_full (r : PipeResponse float) q :
  List.length q = 128 -> deposit r q = tl q ++ [r].
Proof.
  intros Hq. unfold deposit, pop_front. rewrite length_app, Hq. simpl.
  destruct q; [discriminate|reflexivity].
Qed.

Lemma deposit_room (r : PipeResponse float) q :
  List.length q < 128 -> deposit r q = q ++ [r].
Proof.
  intros Hq. unfold deposit. rewrite length_app. cbn [List.length].
  destruct (128 <? List.length q + 1)%nat eqn:E; [|reflexivity].
  apply Nat.ltb_lt in E. lia.
Qed.

(** The queue holds the most recent 128 of everything deposited. *)
Lemma deposit_all_spec (rs : list (PipeResponse float)) : forall q,
  List.length q <= 128 ->
  deposit_all rs q = skipn (List.length (q ++ rs) - 128) (q ++ rs)
  /\ List.length (deposit_all rs q) <= 128.
Proof.
  induction rs as [|r rs IH]; intros q Hq.
  - simpl. rewrite app_nil_r. replace (List.length q - 128) with 0 by lia.
    auto.
  - cbn [deposit_all fold_left]. fold (deposit_all rs (deposit r q)).
    destruct (@deposit_spec r q Hq) as [_ Hlen].
    destruct (IH _ Hlen) as [E Hl]. split; [|exact Hl]. rewrite E.
    destruct (Nat.eq_dec (List.length q) 128) as [Hfull|Hroom].
    + rewrite (@deposit_full r q Hfull).
      destruct q as [|x q]; [discriminate|]. cbn [tl].
      rewrite <- app_assoc. cbn [app List.length] in *.
      replace (S (List.length (q ++ r :: rs)) - 128)
        with (S (List.length (q ++ r :: rs) - 128))
        by (rewrite length_app; cbn [List.length]; lia).
      reflexivity.
    + rewrite (deposit_room r) by lia. now rewrite <- app_assoc.
Qed.


(** What a read leaves in the queue. *)
Lemma ProcessIncoming_deposits env (st : Client) chunk :
  live st -> env_incoming env = Received chunk -> chunk <> ""%string ->
  responses (exec (ProcessIncoming float_zero stof env) st)
  = deposit_all
      (messages float_zero stof (fst (Str.cut LF (recvBuf st ++ chunk))))
      (responses st).
Proof.
  intros Hlive Hin Hne. unfold exec, run.
  rewrite ProcessIncoming_run by exact Hlive. cbn [snd client].
  rewrite Hin. cbn [incoming_state].
  apply String.eqb_neq in Hne. now rewrite Hne.
Qed.


(** ** Decoding a RES line *)

(** C5. A line that starts with RES| always decodes to a RES message; when
    the second separator is missing, or [std::stoi] throws on the index
    field, or [std::stof] throws on the score field, the message has index
    -1 and score 0.0; otherwise it has the two values read. *)
Theorem decode_RES_total (line : string) :
  Str.starts_with "RES|" line = true ->
  let r := decode_RES float_zero stof line in
  decode_line float_zero stof line = Some r
  /\ type r = "RES"%string
  /\ (Str.find BAR 4 line = None ->
        index r = (-1)%Z /\ score r = float_zero)
  /\ (forall p1,
        Str.find BAR 4 line = Some p1 ->
        let index_field := Str.substr 4 (p1 - 4) line in
        let score_field := Str.substr_from (p1 + 1) line in
        (stoi index_field = None \/ stof score_field = None ->
           index r = (-1)%Z /\ score r = float_zero)
        /\ (forall i f,
              stoi index_field = Some i -> stof score_field = Some f ->
              index r = i /\ score r = f)).
Proof.
  intros Hp r. unfold decode_line. rewrite Hp.
  split; [reflexivity|]. unfold r, decode_RES, try_RES.
  destruct (Str.find BAR 4 line) as [p1|].
  - unfold try_bind, try_call, try_set.
    destruct (stoi (Str.substr 4 (p1 - 4) line)) as [i|] eqn:Ei;
      destruct (stof (Str.substr_from (p1 + 1) line)) as [f|] eqn:Ef;
      (split; [reflexivity|]); (split; [discriminate|]);
      intros q [= <-]; cbv zeta; rewrite Ei, ?Ef;
      (split;
       [ intros [H|H]; try discriminate H; split; reflexivity
       | intros i' f' Hi Hf; try discriminate Hi; try discriminate Hf;
         injection Hi as <-; injection Hf as <-; split; reflexivity ]).
  - cbn. split; [reflexivity|]. split; [auto|]. discriminate.
Qed.

(** The line of the specification, whatever [std::stof] does. *)
Lemma decode_RES_garbled :
  decode_RES float_zero stof "RES|abc|xyz"
  = set_type "RES" (resp_default float_zero).
Proof. reflexivity. Qed.

(** ** The favorites batch *)


Lemma SanitizeInPlace_no_LF s : Str.mem LF (SanitizeInPlace s) = false.
Proof.
  apply StrFacts.mem_map_replace. intros a.
  destruct (Ascii.eqb a LF) eqn:E; simpl; [reflexivity|].
  destruct (Ascii.eqb a CR); [reflexivity|exact E].
Qed.

Lemma SanitizeInPlace_no_CR s : Str.mem CR (SanitizeInPlace s) = false.
Proof.
  apply StrFacts.mem_map_replace. intros a.
  destruct (Ascii.eqb a LF) eqn:E; simpl; [reflexivity|].
  destruct (Ascii.eqb a CR) eqn:E'; [reflexivity|exact E'].
Qed.

Lemma SanitizeInPlace_keeps_BAR s :
  Str.mem BAR s = false -> Str.mem BAR (SanitizeInPlace s) = false.
Proof.
  apply StrFacts.mem_map_keep. intros a Ha.
  destruct (Ascii.eqb a LF || Ascii.eqb a CR); [reflexivity|exact Ha].
Qed.

Lemma SanitizeFavoriteField_no_BAR s :
  Str.mem BAR (SanitizeFavoriteField s) = false.
Proof.
  apply StrFacts.mem_map_replace. intros a.
  destruct (Ascii.eqb a BAR) eqn:E; [reflexivity|exact E].
Qed.

Lemma SanitizeFavoriteField_no_LF s :
  Str.mem LF (SanitizeFavoriteField s) = false.
Proof.
  apply StrFacts.mem_map_keep; [|apply SanitizeInPlace_no_LF].
  intros a Ha. destruct (Ascii.eqb a BAR); [reflexivity|exact Ha].
Qed.

Lemma SanitizeFavoriteField_no_CR s :
  Str.mem CR (SanitizeFavoriteField s) = false.
Proof.
  apply StrFacts.mem_map_keep; [|apply SanitizeInPlace_no_CR].
  intros a Ha. destruct (Ascii.eqb a BAR); [reflexivity|exact Ha].
Qed.

Lemma one_frame_app a b : one_frame a -> one_frame b -> one_frame (a ++ b).
Proof.
  unfold one_frame. rewrite !StrFacts.mem_app. intros [-> ->] [-> ->]. auto.
Qed.

Lemma one_frame_SanitizeInPlace s : one_frame (SanitizeInPlace s).
Proof. split; [apply SanitizeInPlace_no_LF|apply SanitizeInPlace_no_CR]. Qed.

Lemma one_frame_SanitizeFavoriteField s : one_frame (SanitizeFavoriteField s).
Proof.
  split; [apply SanitizeFavoriteField_no_LF|apply SanitizeFavoriteField_no_CR].
Qed.

Lemma one_frame_fav_shout_line e : one_frame (fav_shout_line e).
Proof.
  unfold fav_shout_line.
  repeat (apply one_frame_app;
          auto using one_frame_SanitizeInPlace, one_frame_SanitizeFavoriteField);
    now split.
Qed.

Lemma one_frame_fav_power_line e : one_frame (fav_power_line e).
Proof.
  unfold fav_power_line.
  repeat (apply one_frame_app;
          auto using one_frame_SanitizeInPlace, one_frame_SanitizeFavoriteField);
    now split.
Qed.

Lemma one_frame_fav_item_line t e :
  one_frame t -> one_frame (fav_item_line t e).
Proof.
  intros Ht. unfold fav_item_line.
  repeat (apply one_frame_app;
          auto using one_frame_SanitizeInPlace, one_frame_SanitizeFavoriteField);
    now split.
Qed.

Lemma split_four (t f n : string) :
  Str.mem BAR t = false -> Str.mem BAR f = false -> Str.mem BAR n = false ->
  Str.split BAR ("FAV|" ++ t ++ "|" ++ f ++ "|" ++ n)
  = ["FAV"%string; t; f; n].
Proof.
  intros Ht Hf Hn.
  change ("FAV|" ++ t ++ "|" ++ f ++ "|" ++ n)%string
    with ("FAV" ++ String BAR (t ++ String BAR (f ++ String BAR n)))%string.
  rewrite !StrFacts.split_app_sep by (assumption || reflexivity).
  now rewrite StrFacts.split_no_mem.
Qed.

Lemma split_six (p f n e : string) :
  Str.mem BAR p = false -> Str.mem BAR f = false ->
  Str.mem BAR n = false -> Str.mem BAR e = false ->
  Str.split BAR ("FAV|SHOUT|" ++ p ++ "|" ++ f ++ "|" ++ n ++ "|" ++ e)
  = ["FAV"%string; "SHOUT"%string; p; f; n; e].
Proof.
  intros Hp Hf Hn He.
  change ("FAV|SHOUT|" ++ p ++ "|" ++ f ++ "|" ++ n ++ "|" ++ e)%string
    with ("FAV" ++ String BAR ("SHOUT" ++ String BAR
            (p ++ String BAR (f ++ String BAR (n ++ String BAR e)))))%string.
  rewrite !StrFacts.split_app_sep by (assumption || reflexivity).
  now rewrite StrFacts.split_no_mem.
Qed.

Lemma recognize_shout e :
  Str.mem BAR (sh_formIdHex e) = false ->
  Str.split BAR (fav_shout_line e)
  = ["FAV"%string; "SHOUT"%string; SanitizeFavoriteField (plugin e);
     SanitizeInPlace (sh_formIdHex e); SanitizeFavoriteField (sh_name e);
     SanitizeFavoriteField (editorID e)]
  /\ recognize (fav_shout_line e) = Some (expected_shout e).
Proof.
  intros Hf. unfold recognize, fav_shout_line.
  rewrite split_six;
    auto using SanitizeFavoriteField_no_BAR, SanitizeInPlace_keeps_BAR.
Qed.

Lemma recognize_power e :
  Str.mem BAR (pw_formIdHex e) = false ->
  Str.split BAR (fav_power_line e)
  = ["FAV"%string; "POWER"%string; SanitizeInPlace (pw_formIdHex e);
     SanitizeFavoriteField (pw_name e)]
  /\ recognize (fav_power_line e) = Some (expected_power e).
Proof.
  intros Hf. unfold recognize, fav_power_line.
  change ("FAV|POWER|" ++ SanitizeInPlace (pw_formIdHex e) ++ "|"
            ++ SanitizeFavoriteField (pw_name e))%string
    with ("FAV|" ++ "POWER" ++ "|" ++ SanitizeInPlace (pw_formIdHex e) ++ "|"
            ++ SanitizeFavoriteField (pw_name e))%string.
  rewrite split_four;
    auto using SanitizeFavoriteField_no_BAR, SanitizeInPlace_keeps_BAR.
Qed.

Lemma split_item t e :
  Str.mem BAR t = false -> Str.mem BAR (formIdHex e) = false ->
  Str.split BAR (fav_item_line t e)
  = ["FAV"%string; t; SanitizeInPlace (formIdHex e);
     SanitizeFavoriteField (name e)].
Proof.
  intros Ht Hf. unfold fav_item_line.
  apply split_four;
    auto using SanitizeFavoriteField_no_BAR, SanitizeInPlace_keeps_BAR.
Qed.

Lemma recognize_item t k e :
  Str.mem BAR (formIdHex e) = false ->
  (t, k) = ("WEAPON"%string, FavWeapon)
  \/ (t, k) = ("SPELL"%string, FavSpell)
  \/ (t, k) = ("POTION"%string, FavPotion) ->
  recognize (fav_item_line t e) = Some (expected_item k e).
Proof.
  intros Hf Ht. unfold recognize.
  destruct Ht as [[= -> ->]|[[= -> ->]|[= -> ->]]];
    rewrite split_item by (assumption || reflexivity); reflexivity.
Qed.




(** ** Decoding a TRIG line *)

Ltac next_sep line n :=
  let F := fresh "F" in
  let E := fresh "E" in
  let p := fresh "p" in
  pose proof (StrFacts.field_at BAR line n) as F;
  destruct (Str.find BAR n line) as [p|] eqn:E;
  [ destruct F as [_ F]; rewrite ?Nat.sub_add_distr in F | ].

Ltac run_try :=
  cbv [try_bind try_set try_ret try_call]; cbn.

Lemma TRIG_split line :
  Str.starts_with "TRIG|" line = true ->
  Str.split BAR line = "TRIG"%string :: Str.split BAR (Str.drop 5 line).
Proof. intros H. now apply (StrFacts.split_prefix BAR "TRIG"). Qed.

Lemma decode_TRIG_score line :
  Str.starts_with "TRIG|" line = true ->
  spec_trig_layout stof line = false ->
  score (decode_TRIG float_zero stof line) = float_zero.
Proof.
  intros Hs H. unfold spec_trig_layout in H. rewrite (TRIG_split _ Hs) in H.
  unfold decode_TRIG, try_TRIG.
  next_sep line 5; [|reflexivity].
  rewrite F in H. cbn [String.eqb Ascii.eqb Bool.eqb andb] in H.
  destruct (Str.substr 5 (p - 5) line =? "shout")%string eqn:K1.
  - unfold try_TRIG_shout.
    next_sep line (p + 1); [|reflexivity]. rewrite F0 in H.
    next_sep line (p0 + 1); [|reflexivity]. rewrite F1 in H.
    next_sep line (p1 + 1); [|reflexivity]. rewrite F2 in H.
    destruct (stoi (Str.substr (p1 + 1) (p2 - p1 - 1) line)) as [n|] eqn:En;
      [|reflexivity].
    next_sep line (p2 + 1); [|reflexivity].
    rewrite F3 in H.
    destruct (stof (Str.substr (p2 + 1) (p3 - p2 - 1) line)) as [f|] eqn:Ef;
      [|reflexivity].
    destruct (StrFacts.split_nonempty BAR (Str.drop (p3 + 1) line))
      as (x & xs & Hx).
    rewrite Hx in H. cbn in H. discriminate H.
  - destruct (Str.substr 5 (p - 5) line =? "power")%string eqn:K2.
    + unfold try_TRIG_power.
      next_sep line (p + 1); [|reflexivity]. rewrite F0 in H.
      next_sep line (p0 + 1); [|reflexivity]. rewrite F1 in H.
      destruct (stof (Str.substr (p0 + 1) (p1 - p0 - 1) line)) as [f|] eqn:Ef;
        [|reflexivity].
      destruct (StrFacts.split_nonempty BAR (Str.drop (p1 + 1) line))
        as (x & xs & Hx).
      rewrite Hx in H. cbn in H. discriminate H.
    + destruct ((Str.substr 5 (p - 5) line =? "weapon")%string
                || (Str.substr 5 (p - 5) line =? "spell")%string
                || (Str.substr 5 (p - 5) line =? "potion")%string) eqn:K3.
      * unfold try_TRIG_item.
        next_sep line (p + 1); [|reflexivity]. rewrite F0 in H.
        next_sep line (p0 + 1); [|reflexivity]. rewrite F1 in H.
        destruct (stof (Str.substr (p0 + 1) (p1 - p0 - 1) line)) as [f|] eqn:Ef;
          [|reflexivity].
        destruct (StrFacts.split_nonempty BAR (Str.drop (p1 + 1) line))
          as (x & xs & Hx).
        rewrite Hx in H. cbn [orb] in H. rewrite K3 in H. cbn in H.
        discriminate H.
      * unfold try_TRIG_other.
        next_sep line (p + 1); [|reflexivity]. rewrite F0 in H.
        destruct (stof (Str.substr (p + 1) (p0 - p - 1) line)) as [f|] eqn:Ef;
          [|reflexivity].
        destruct (StrFacts.split_nonempty BAR (Str.drop (p0 + 1) line))
          as (x & xs & Hx).
        rewrite Hx in H. cbn [orb] in H. rewrite K3 in H. cbn in H.
        discriminate H.
Qed.


(** A field name clashes with the outcome of the tests on the kind. *)
Ltac kind_clash :=
  solve [ repeat match goal with
          | Hk : ?k = _ \/ _ |- _ => destruct Hk as [Hk|Hk]
          end;
          match goal with
          | Hk : ?k = _ |- _ =>
              repeat match goal with
                     | K : context [(k =? _)%string] |- _ =>
                         rewrite Hk in K; cbn in K; try discriminate K
                     end
          end ].

Ltac known_fields_in H :=
  unfold ended_field in H;
  repeat match goal with
  | F : Str.split BAR _ = _ |- _ => rewrite F in H
  end;
  cbn in H.

Ltac known_fields :=
  unfold ended_field;
  repeat match goal with
  | F : Str.split BAR _ = _ |- _ => rewrite F
  end.

Lemma decode_TRIG_fields line :
  Str.starts_with "TRIG|" line = true ->
  let r := decode_TRIG float_zero stof line in
  forall kind,
    ended_field 1 line = Some kind ->
    trigKind r = kind
    /\ (kind = "shout"%string ->
          (forall f, ended_field 2 line = Some f -> shoutPlugin r = f)
          /\ (forall f, ended_field 3 line = Some f -> shoutFormID r = f)
          /\ (forall f n, ended_field 4 line = Some f -> stoi f = Some n ->
                shoutPower r = n))
    /\ (kind = "power"%string ->
          forall f, ended_field 2 line = Some f -> powerFormID r = f)
    /\ (kind = "weapon"%string \/ kind = "spell"%string
        \/ kind = "potion"%string ->
          forall f, ended_field 2 line = Some f -> itemFormID r = f).
Proof.
  intros Hs r kind Hk. pose proof (TRIG_split _ Hs) as S0.
  unfold r, decode_TRIG, try_TRIG. clear r.
  next_sep line 5.
  2:{ exfalso. known_fields_in Hk. discriminate Hk. }
  assert (Hkind : kind = Str.substr 5 (p - 5) line).
  { destruct (StrFacts.split_nonempty BAR (Str.drop (p + 1) line))
      as (x1 & xs1 & Hx1).
    known_fields_in Hk. now injection Hk as <-. }
  clear Hk. subst kind.
  destruct (Str.substr 5 (p - 5) line =? "shout")%string eqn:K1.
  - split; [|split; [|split]]; try (intros Hk; kind_clash).
    + unfold try_TRIG_shout.
      repeat match goal with
      | |- context [Str.find BAR ?n line] =>
          destruct (Str.find BAR n line)
      | |- context [stoi ?x] => destruct (stoi x)
      | |- context [stof ?x] => destruct (stof x)
      end; reflexivity.
    + intros _. unfold try_TRIG_shout.
      next_sep line (p + 1).
      2:{ known_fields. cbn. repeat split; intros; discriminate. }
      next_sep line (p0 + 1).
      2:{ known_fields. cbn. repeat split; intros; try discriminate.
          congruence. }
      next_sep line (p1 + 1).
      2:{ known_fields. cbn. repeat split; intros; try discriminate;
          congruence. }
      destruct (StrFacts.split_nonempty BAR (Str.drop (p2 + 1) line))
        as (x & xs & Hx).
      known_fields.
      destruct (stoi (Str.substr (p1 + 1) (p2 - p1 - 1) line)) as [n|] eqn:En.
      * destruct (Str.find BAR (p2 + 1) line) as [p3|];
          [destruct (stof (Str.substr (p2 + 1) (p3 - p2 - 1) line))|];
          cbn; repeat split; intros; try discriminate; congruence.
      * cbn. repeat split; intros; try discriminate; congruence.
  - destruct (Str.substr 5 (p - 5) line =? "power")%string eqn:K2.
    + split; [|split; [|split]]; try (intros Hk; kind_clash).
      * unfold try_TRIG_power.
        repeat match goal with
        | |- context [Str.find BAR ?n line] =>
            destruct (Str.find BAR n line)
        | |- context [stof ?x] => destruct (stof x)
        end; reflexivity.
      * intros _. unfold try_TRIG_power.
        next_sep line (p + 1).
        2:{ known_fields. cbn. intros; discriminate. }
        destruct (StrFacts.split_nonempty BAR (Str.drop (p0 + 1) line))
          as (x & xs & Hx).
        known_fields.
        repeat match goal with
        | |- context [Str.find BAR ?n line] =>
            destruct (Str.find BAR n line)
        | |- context [stof ?y] => destruct (stof y)
        end; cbn; intros; congruence.
    + destruct ((Str.substr 5 (p - 5) line =? "weapon")%string
                || (Str.substr 5 (p - 5) line =? "spell")%string
                || (Str.substr 5 (p - 5) line =? "potion")%string) eqn:K3.
      * split; [|split; [|split]]; try (intros Hk; kind_clash).
        -- unfold try_TRIG_item.
           repeat match goal with
           | |- context [Str.find BAR ?n line] =>
               destruct (Str.find BAR n line)
           | |- context [stof ?x] => destruct (stof x)
           end; reflexivity.
        -- intros _. unfold try_TRIG_item.
           next_sep line (p + 1).
           2:{ known_fields. cbn. intros; discriminate. }
           destruct (StrFacts.split_nonempty BAR (Str.drop (p0 + 1) line))
             as (x & xs & Hx).
           known_fields.
           repeat match goal with
           | |- context [Str.find BAR ?n line] =>
               destruct (Str.find BAR n line)
           | |- context [stof ?y] => destruct (stof y)
           end; cbn; intros; congruence.
      * split; [|split; [|split]]; try (intros Hk; kind_clash).
        unfold try_TRIG_other.
        repeat match goal with
        | |- context [Str.find BAR ?n line] =>
            destruct (Str.find BAR n line)
        | |- context [stof ?x] => destruct (stof x)
        end; reflexivity.
Qed.

Lemma RES_not_TRIG line :
  Str.starts_with "TRIG|" line = true -> Str.starts_with "RES|" line = false.
Proof.
  intros H. apply StrFacts.starts_with_app in H. now rewrite H.
Qed.

Lemma decode_TRIG_type line :
  type (decode_TRIG float_zero stof line) = "TRIG"%string.
Proof.
  unfold decode_TRIG, try_TRIG, try_TRIG_shout, try_TRIG_power,
    try_TRIG_item, try_TRIG_other.
  repeat match goal with
  | |- context [Str.find BAR ?n line] => destruct (Str.find BAR n line)
  | |- context [stoi ?x] => destruct (stoi x)
  | |- context [stof ?x] => destruct (stof x)
  | |- context [if ?b then _ else _] => destruct b
  end; reflexivity.
Qed.

(** A deposit puts the message at the back of the queue. *)
Lemma deposit_newest (r : PipeResponse float) q :
  exists q', deposit r q = q' ++ [r].
Proof.
  unfold deposit, pop_front. destruct q as [|x q]; [now exists []|].
  destruct (128 <? List.length ((x :: q) ++ [r]))%nat;
    [now exists q|now exists (x :: q)].
Qed.

(** C6. A line that starts with TRIG| always decodes to a TRIG message,
    and the message is put at the back of the response queue. When the
    line does not have the layout of its kind (a field or a separator is
    missing, or a number does not parse) the score is 0.0; when a
    conversion throws, the message is the one built up to the throw with
    the score set to 0.0; and the fields that a separator ends are still
    in the message: the kind, and for a
    shout the plugin, the form id and the power, for a power or an item
    the form id. *)
Theorem decode_TRIG_total (line : string) (w : State) :
  Str.starts_with "TRIG|" line = true ->
  let r := decode_TRIG float_zero stof line in
  decode_line float_zero stof line = Some r
  /\ type r = "TRIG"%string
  /\ (exists q',
        handle_line float_zero stof line w
        = (Done tt,
           mkWorld (set_responses (q' ++ [r]) (client w))
                   (trace w ++ [EvLock RespMutex; EvUnlock RespMutex])))
  /\ (spec_trig_layout stof line = false -> score r = float_zero)
  /\ (forall r',
        try_TRIG stof line (set_type "TRIG" (resp_default float_zero))
        = (r', None) ->
        r = set_score float_zero r')
  /\ (forall kind,
        ended_field 1 line = Some kind ->
        trigKind r = kind
        /\ (kind = "shout"%string ->
              (forall f, ended_field 2 line = Some f -> shoutPlugin r = f)
              /\ (forall f, ended_field 3 line = Some f -> shoutFormID r = f)
              /\ (forall f n,
                    ended_field 4 line = Some f -> stoi f = Some n ->
                    shoutPower r = n))
        /\ (kind = "power"%string ->
              forall f, ended_field 2 line = Some f -> powerFormID r = f)
        /\ (kind = "weapon"%string \/ kind = "spell"%string
            \/ kind = "potion"%string ->
              forall f, ended_field 2 line = Some f -> itemFormID r = f)).
Proof.
  intros Hs r.
  assert (Hd : decode_line float_zero stof line = Some r).
  { unfold decode_line. now rewrite (RES_not_TRIG _ Hs), Hs. }
  split; [exact Hd|].
  split; [apply decode_TRIG_type|].
  split.
  { destruct (deposit_newest r (responses (client w))) as [q' Hq].
    exists q'. rewrite handle_line_run, Hd. now rewrite Hq. }
  split; [now apply decode_TRIG_score|].
  split; [intros r' Ht; unfold r, decode_TRIG; now rewrite Ht|].
  now apply decode_TRIG_fields.
Qed.

(** ** The text of a power trigger *)

(** X1. In a power trigger [TRIG|power|<formId>|<score>|<text>] the
    decoder reads the kind, the form id and the score as laid out, but
    looks for one more separator before the text: the text of the message
    is what follows the first separator inside <text>, and stays empty
    when <text> holds none. *)
Theorem power_trigger_text (fid sc text : string) (f : float) :
  Str.mem BAR fid = false -> Str.mem BAR sc = false -> stof sc = Some f ->
  let r := decode_TRIG float_zero stof
             ("TRIG|power|" ++ fid ++ "|" ++ sc ++ "|" ++ text)%string in
  trigKind r = "power"%string /\ powerFormID r = fid /\ score r = f
  /\ trigText r = match Str.find BAR 0 text with
                  | Some p => Str.substr_from (p + 1) text
                  | None => ""%string
                  end.
Proof.
  intros Hfid Hsc Hf.
  set (line := ("TRIG|power|" ++ fid ++ "|" ++ sc ++ "|" ++ text)%string).
  set (n2 := 11 + String.length fid).
  set (n3 := n2 + 1 + String.length sc).
  assert (E2 : line
               = (("TRIG|power|" ++ fid ++ "|") ++ sc ++ String BAR text)%string).
  { unfold line. now rewrite !StrFacts.append_assoc. }
  assert (L2 : n2 + 1 = String.length ("TRIG|power|" ++ fid ++ "|")%string).
  { unfold n2. rewrite !StrFacts.length_append. simpl. lia. }
  assert (E3 : line
               = (("TRIG|power|" ++ fid ++ "|" ++ sc ++ "|") ++ text)%string).
  { unfold line. now rewrite !StrFacts.append_assoc. }
  assert (L3 : n3 + 1
               = String.length ("TRIG|power|" ++ fid ++ "|" ++ sc ++ "|")%string).
  { unfold n3, n2. rewrite !StrFacts.length_append. simpl. lia. }
  assert (H1 : Str.find BAR 5 line = Some 10) by reflexivity.
  assert (K : Str.substr 5 (10 - 5) line = "power"%string) by reflexivity.
  assert (H2 : Str.find BAR (10 + 1) line = Some n2).
  { apply (@StrFacts.find_field BAR "TRIG|power|"%string fid _ 11 eq_refl
             Hfid). }
  assert (S2 : Str.substr (10 + 1) (n2 - 10 - 1) line = fid).
  { apply (@StrFacts.substr_field "TRIG|power|"%string fid); [reflexivity|].
    unfold n2. lia. }
  assert (H3 : Str.find BAR (n2 + 1) line = Some n3).
  { rewrite E2. now apply StrFacts.find_field. }
  assert (S3 : Str.substr (n2 + 1) (n3 - n2 - 1) line = sc).
  { rewrite E2. apply StrFacts.substr_field; [exact L2|]. unfold n3. lia. }
  assert (H4 : Str.find BAR (n3 + 1) line
               = option_map (Nat.add (n3 + 1)) (Str.find BAR 0 text)).
  { rewrite E3. now apply StrFacts.find_after. }
  assert (S4 : forall k, Str.substr_from (n3 + 1 + k) line = Str.drop k text).
  { intros k. rewrite E3. now apply StrFacts.substr_from_after. }
  cbv zeta. fold line. unfold decode_TRIG, try_TRIG.
  rewrite H1, K. cbn [String.eqb Ascii.eqb Bool.eqb].
  unfold try_TRIG_power. rewrite H2, S2, H3, S3, H4.
  unfold try_bind, try_set, try_call, try_ret. rewrite Hf.
  destruct (Str.find BAR 0 text) as [p|]; cbn [option_map]; cbv beta iota.
  - rewrite <- (Nat.add_assoc _ p 1), S4. repeat split.
  - repeat split.
Qed.

End Properties.

(* ================================================================== *)
(** * Decoding the lines that have the layout of their kind *)
(* ================================================================== *)

Module FieldFacts.

Local Open Scope string_scope.

(** The field [a] of a line that starts at [n] and is ended by a
    separator: where the separator is found, what [substr] cuts, and the
    line seen from the start of the next field. *)
Lemma scan_field c (line pre a rest : string) (n : nat) :
  line = pre ++ a ++ String c rest ->
  Str.mem c a = false -> n = String.length pre ->
  Str.find c n line = Some (n + String.length a)
  /\ Str.substr n (n + String.length a - n) line = a
  /\ line = (pre ++ a ++ String c "") ++ rest
  /\ n + String.length a + 1 = String.length (pre ++ a ++ String c "").
Proof.
  intros -> Ha Hn.
  split; [now apply StrFacts.find_field|].
  split; [apply StrFacts.substr_field; [exact Hn|lia]|].
  split; [now rewrite !StrFacts.append_assoc|].
  rewrite !StrFacts.length_append. simpl. lia.
Qed.

(** The same from the position [p] of the separator before the field,
    in the terms of the decoder. *)
Lemma scan_next c (line pre a rest : string) (p : nat) :
  line = pre ++ a ++ String c rest ->
  Str.mem c a = false -> p + 1 = String.length pre ->
  let q := p + 1 + String.length a in
  Str.find c (p + 1) line = Some q
  /\ Str.substr (p + 1) (q - p - 1) line = a
  /\ line = (pre ++ a ++ String c "") ++ rest
  /\ q + 1 = String.length (pre ++ a ++ String c "").
Proof.
  intros E Ha Hn q.
  destruct (@scan_field c line pre a rest (p + 1) E Ha Hn) as (F & S & E' & L).
  repeat split; auto.
  replace (q - p - 1) with (p + 1 + String.length a - (p + 1))
    by (unfold q; lia).
  exact S.
Qed.

(** The text after the last separator that the decoder looks for. *)
Lemma scan_rest (pre rest : string) (n : nat) :
  n = String.length pre -> Str.substr_from n (pre ++ rest) = rest.
Proof. intros ->. apply StrFacts.drop_app_length. Qed.

End FieldFacts.

Section Layouts.

Variable float : Type.
Variable float_zero : float.
Variable stof : string -> option float.

Local Open Scope string_scope.

Lemma decode_shout_layout (plugin fid pw sc text : string) (n : Z)
    (f : float) :
  Str.mem BAR plugin = false -> Str.mem BAR fid = false ->
  Str.mem BAR pw = false -> Str.mem BAR sc = false ->
  stoi pw = Some n -> stof sc = Some f ->
  decode_TRIG float_zero stof
    ("TRIG|shout|" ++ plugin ++ "|" ++ fid ++ "|" ++ pw ++ "|" ++ sc
       ++ "|" ++ text)
  = mkResp (-1) f "TRIG" "shout" text plugin fid n "" "".
Proof.
  intros Hp Hf Hw Hs Hn Hsc.
  set (line := "TRIG|shout|" ++ plugin ++ "|" ++ fid ++ "|" ++ pw ++ "|"
                 ++ sc ++ "|" ++ text).
  assert (H1 : Str.find BAR 5 line = Some 10) by reflexivity.
  assert (K : Str.substr 5 (10 - 5) line = "shout") by reflexivity.
  destruct (@FieldFacts.scan_next BAR line "TRIG|shout|" plugin
              (fid ++ "|" ++ pw ++ "|" ++ sc ++ "|" ++ text) 10
              eq_refl Hp eq_refl) as (F2 & S2 & E2 & L2).
  set (p2 := 10 + 1 + String.length plugin) in *.
  destruct (@FieldFacts.scan_next BAR line _ fid
              (pw ++ "|" ++ sc ++ "|" ++ text) p2 E2 Hf L2)
    as (F3 & S3 & E3 & L3).
  set (p3 := p2 + 1 + String.length fid) in *.
  destruct (@FieldFacts.scan_next BAR line _ pw (sc ++ "|" ++ text)
              p3 E3 Hw L3)
    as (F4 & S4 & E4 & L4).
  set (p4 := p3 + 1 + String.length pw) in *.
  destruct (@FieldFacts.scan_next BAR line _ sc text p4 E4 Hs L4)
    as (F5 & S5 & E5 & L5).
  set (p5 := p4 + 1 + String.length sc) in *.
  assert (S6 : Str.substr_from (p5 + 1) line = text).
  { rewrite E5 at 1. now apply FieldFacts.scan_rest. }
  unfold decode_TRIG, try_TRIG. rewrite H1, K.
  cbn [String.eqb Ascii.eqb Bool.eqb]. unfold try_TRIG_shout.
  rewrite F2, S2, F3, S3, F4, S4, F5, S5, S6.
  unfold try_bind, try_set, try_call, try_ret. rewrite Hn, Hsc.
  reflexivity.
Qed.

Lemma decode_item_layout (kind fid sc text : string) (f : float) :
  kind = "weapon" \/ kind = "spell" \/ kind = "potion" ->
  Str.mem BAR fid = false -> Str.mem BAR sc = false ->
  stof sc = Some f ->
  decode_TRIG float_zero stof
    ("TRIG|" ++ kind ++ "|" ++ fid ++ "|" ++ sc ++ "|" ++ text)
  = mkResp (-1) f "TRIG" kind text "" "" 0 "" fid.
Proof.
  intros Hk Hf Hs Hsc.
  set (line := "TRIG|" ++ kind ++ "|" ++ fid ++ "|" ++ sc ++ "|" ++ text).
  assert (Hkind : Str.mem BAR kind = false)
    by (destruct Hk as [->|[->| ->]]; reflexivity).
  destruct (@FieldFacts.scan_field BAR line "TRIG|" kind
              (fid ++ "|" ++ sc ++ "|" ++ text) 5 eq_refl Hkind eq_refl)
    as (F1 & S1 & E1 & L1).
  set (p1 := 5 + String.length kind) in *.
  destruct (@FieldFacts.scan_next BAR line _ fid (sc ++ "|" ++ text) p1
              E1 Hf L1) as (F2 & S2 & E2 & L2).
  set (p2 := p1 + 1 + String.length fid) in *.
  destruct (@FieldFacts.scan_next BAR line _ sc text p2 E2 Hs L2)
    as (F3 & S3 & E3 & L3).
  set (p3 := p2 + 1 + String.length sc) in *.
  assert (S4 : Str.substr_from (p3 + 1) line = text).
  { rewrite E3 at 1. now apply FieldFacts.scan_rest. }
  unfold decode_TRIG, try_TRIG. rewrite F1, S1.
  assert (K : (kind =? "shout") = false /\ (kind =? "power") = false
              /\ (kind =? "weapon") || (kind =? "spell") || (kind =? "potion")
                 = true)
    by (destruct Hk as [->|[->| ->]]; repeat split; reflexivity).
  destruct K as (-> & -> & ->). unfold try_TRIG_item.
  rewrite F2, S2, F3, S3, S4.
  unfold try_bind, try_set, try_call, try_ret. rewrite Hsc.
  reflexivity.
Qed.

Lemma decode_plain_layout (kind sc text : string) (f : float) :
  Str.mem BAR kind = false -> Str.mem BAR sc = false ->
  kind <> "shout" -> kind <> "power" -> kind <> "weapon" ->
  kind <> "spell" -> kind <> "potion" ->
  stof sc = Some f ->
  decode_TRIG float_zero stof ("TRIG|" ++ kind ++ "|" ++ sc ++ "|" ++ text)
  = mkResp (-1) f "TRIG" kind text "" "" 0 "" "".
Proof.
  intros Hkind Hs N1 N2 N3 N4 N5 Hsc.
  set (line := "TRIG|" ++ kind ++ "|" ++ sc ++ "|" ++ text).
  destruct (@FieldFacts.scan_field BAR line "TRIG|" kind
              (sc ++ "|" ++ text) 5 eq_refl Hkind eq_refl)
    as (F1 & S1 & E1 & L1).
  set (p1 := 5 + String.length kind) in *.
  destruct (@FieldFacts.scan_next BAR line _ sc text p1 E1 Hs L1)
    as (F2 & S2 & E2 & L2).
  set (p2 := p1 + 1 + String.length sc) in *.
  assert (S3 : Str.substr_from (p2 + 1) line = text).
  { rewrite E2 at 1. now apply FieldFacts.scan_rest. }
  unfold decode_TRIG, try_TRIG. rewrite F1, S1.
  apply String.eqb_neq in N1, N2, N3, N4, N5.
  rewrite N1, N2, N3, N4, N5. cbn [orb]. unfold try_TRIG_other.
  rewrite F2, S2, S3.
  unfold try_bind, try_set, try_call, try_ret. rewrite Hsc.
  reflexivity.
Qed.

(** X2. A trigger line that has the layout of its kind decodes to the
    message that holds exactly its fields. For a shout,
    [TRIG|shout|<plugin>|<formId>|<power>|<score>|<text>]; for a weapon,
    a spell or a potion, [TRIG|<kind>|<formId>|<score>|<text>], the form
    id stored as the item form id; for any kind other than these and
    power (such as [open]), [TRIG|<kind>|<score>|<text>]. The fields
    before the text hold no separator, the power converts with
    [std::stoi] and the score with [std::stof]; the text is everything
    after the separator that ends the score, separators included. *)
Theorem well_formed_triggers_decode (kind plugin fid pw sc text : string)
    (n : Z) (f : float) :
  Str.mem BAR sc = false -> stof sc = Some f ->
  (Str.mem BAR plugin = false -> Str.mem BAR fid = false ->
   Str.mem BAR pw = false -> stoi pw = Some n ->
   decode_TRIG float_zero stof
     ("TRIG|shout|" ++ plugin ++ "|" ++ fid ++ "|" ++ pw ++ "|" ++ sc
        ++ "|" ++ text)
   = mkResp (-1) f "TRIG" "shout" text plugin fid n "" "")
  /\ (kind = "weapon" \/ kind = "spell" \/ kind = "potion" ->
      Str.mem BAR fid = false ->
      decode_TRIG float_zero stof
        ("TRIG|" ++ kind ++ "|" ++ fid ++ "|" ++ sc ++ "|" ++ text)
      = mkResp (-1) f "TRIG" kind text "" "" 0 "" fid)
  /\ (Str.mem BAR kind = false ->
      kind <> "shout" -> kind <> "power" -> kind <> "weapon" ->
      kind <> "spell" -> kind <> "potion" ->
      decode_TRIG float_zero stof
        ("TRIG|" ++ kind ++ "|" ++ sc ++ "|" ++ text)
      = mkResp (-1) f "TRIG" kind text "" "" 0 "" "").
Proof.
  intros Hs Hsc. split; [|split].
  - intros Hp Hf Hw Hn. now apply decode_shout_layout.
  - intros Hk Hf. now apply decode_item_layout.
  - intros Hk N1 N2 N3 N4 N5. now apply decode_plain_layout.
Qed.

End Layouts.

Module FormIDFacts.

Import FormID.
Local Open Scope Z_scope.

Lemma hex_val_digit d : 0 <= d < 16 -> hex_val (hex_digit d) = Some d.
Proof.
  intros H.
  assert (Hc : d = 0 \/ d = 1 \/ d = 2 \/ d = 3 \/ d = 4 \/ d = 5 \/ d = 6
               \/ d = 7 \/ d = 8 \/ d = 9 \/ d = 10 \/ d = 11 \/ d = 12
               \/ d = 13 \/ d = 14 \/ d = 15) by lia.
  repeat (destruct Hc as [->|Hc]; [reflexivity|]). now subst.
Qed.

(** Reading goes through a string written by [to_hex]. *)
Lemma read_hex_to_hex digits : forall n acc seen rest,
  0 <= n < 16 ^ Z.of_nat digits -> (0 < digits)%nat ->
  exists k,
    read_hex acc seen (to_hex digits n ++ rest)
    = read_hex (16 ^ k * acc + n) true rest
    /\ 0 <= k.
Proof.
  induction digits as [|digits IH]; intros n acc seen rest Hn Hd; [lia|].
  cbn [to_hex].
  assert (Hm : 0 <= n mod 16 < 16) by (apply Z.mod_pos_bound; lia).
  destruct (n / 16 =? 0) eqn:E.
  - apply Z.eqb_eq in E. exists 1. split; [|lia].
    cbn [append read_hex]. rewrite hex_val_digit by exact Hm.
    f_equal. rewrite (Z.div_mod n 16) at 2 by lia. rewrite E. lia.
  - apply Z.eqb_neq in E.
    assert (Hq : 0 <= n / 16 < 16 ^ Z.of_nat digits).
    { split; [apply Z.div_pos; lia|].
      apply Z.div_lt_upper_bound; [lia|].
      rewrite Nat2Z.inj_succ, Z.pow_succ_r in Hn by lia. lia. }
    assert (Hd' : (0 < digits)%nat).
    { destruct digits; [|lia]. simpl in Hq. lia. }
    rewrite StrFacts.append_assoc.
    destruct (IH (n / 16) acc seen
                 (String (hex_digit (n mod 16)) EmptyString ++ rest)%string
                 Hq Hd') as (k & -> & Hk).
    exists (k + 1). split; [|lia].
    cbn [append read_hex]. rewrite hex_val_digit by exact Hm.
    f_equal. rewrite Z.pow_add_r by lia.
    rewrite (Z.div_mod n 16) at 3 by lia. lia.
Qed.

Lemma append_nil_r (s : string) : (s ++ "")%string = s.
Proof. induction s as [|a s IH]; simpl; [reflexivity|now rewrite IH]. Qed.

Lemma from_chars_to_hex n :
  0 <= n <= UINT32_MAX -> from_chars_hex (to_hex 8 n) = Some n.
Proof.
  intros Hn. unfold from_chars_hex.
  destruct (@read_hex_to_hex 8 n 0 false EmptyString) as (k & E & _);
    [unfold UINT32_MAX in Hn; simpl; lia|lia|].
  rewrite <- (append_nil_r (to_hex 8 n)), E. cbn [read_hex].
  rewrite Z.mul_0_r, Z.add_0_l.
  destruct (n <=? UINT32_MAX) eqn:L; [reflexivity|].
  apply Z.leb_gt in L. lia.
Qed.

End FormIDFacts.

Section FormIDProperties.

Import FormID FormIDFacts.
Local Open Scope Z_scope.



Lemma ParseHexFormID_0x s :
  ParseHexFormID ("0x" ++ s)
  = match from_chars_hex s with Some v => v | None => 0 end.
Proof.
  unfold ParseHexFormID.
  replace (Str.starts_with "0x" ("0x" ++ s)) with true; [reflexivity|].
  symmetry. unfold Str.starts_with. cbn [String.prefix append].
  destruct (ascii_dec "0" "0") as [_|N]; [|now elim N].
  destruct (ascii_dec "x" "x") as [_|N]; [|now elim N].
  now destruct s.
Qed.

(** X3. A form id written by [FormIDToHex] after the prefix [0x], as the
    favorites scanner writes it, is read back by [ParseHexFormID] as the
    same form id, for every 32-bit value; so is its base id written by
    [BaseIDToHex]. *)
Theorem formid_hex_roundtrip (id : Z) :
  0 <= id <= UINT32_MAX ->
  ParseHexFormID ("0x" ++ FormIDToHex id) = id
  /\ ParseHexFormID ("0x" ++ BaseIDToHex id) = Z.land id 0x00FFFFFF.
Proof.
  intros Hid. unfold FormIDToHex, BaseIDToHex.
  assert (Hb : 0 <= Z.land id 0x00FFFFFF <= UINT32_MAX).
  { change 0x00FFFFFF with (Z.ones 24). rewrite Z.land_ones by lia.
    pose proof (Z.mod_pos_bound id (2 ^ 24)). unfold UINT32_MAX. lia. }
  split; rewrite ParseHexFormID_0x; now rewrite from_chars_to_hex.
Qed.


(** X5. The power of a shout is clamped to 1..3 whatever the message
    holds, so the index into the three variations of the shout is always
    within the array; a power within 1..3 is kept. *)
Theorem variation_index_in_bounds (float : Type) (resp : PipeResponse float)
    (shout : TESShout) :
  List.length (variations shout) = 3%nat ->
  1 <= ClampPower (shoutPower resp) <= 3
  /\ 0 <= variation_index resp <= 2
  /\ nth_error (variations shout) (Z.to_nat (variation_index resp)) <> None
  /\ (1 <= shoutPower resp <= 3 ->
        ClampPower (shoutPower resp) = shoutPower resp)
  /\ (shoutPower resp < 1 -> ClampPower (shoutPower resp) = 1)
  /\ (3 < shoutPower resp -> ClampPower (shoutPower resp) = 3).
Proof.
  intros Hlen. unfold variation_index, ClampPower.
  destruct (shoutPower resp <? 1) eqn:L1;
    [apply Z.ltb_lt in L1|apply Z.ltb_ge in L1];
    (destruct (3 <? shoutPower resp) eqn:L3;
     [apply Z.ltb_lt in L3|apply Z.ltb_ge in L3]);
    (repeat split; try lia;
     apply nth_error_Some; rewrite Hlen; lia).
Qed.

Lemma u32_small x : 0 <= x < 2 ^ 32 -> u32 x = x.
Proof. intros H. unfold u32. now apply Z.mod_small. Qed.

Lemma testbit_low_mask k n :
  0 <= k -> 0 <= n -> Z.testbit (Z.ones k) n = (n <? k).
Proof.
  intros Hk Hn. destruct (n <? k) eqn:L.
  - apply Z.ltb_lt in L. apply Z.ones_spec_low. lia.
  - apply Z.ltb_ge in L. apply Z.ones_spec_high. lia.
Qed.

Lemma compose_full (dh : TESDataHandler) (plugin : string) (id : Z) :
  0 <= id <= UINT32_MAX -> plugin <> ""%string ->
  GetLoadedModIndex dh plugin = Some (Z.shiftr id 24) ->
  ComposeRuntimeFormID (Some dh) plugin (Z.land id 0x00FFFFFF) = id.
Proof.
  intros Hid Hp Hidx. unfold UINT32_MAX in Hid.
  apply String.eqb_neq in Hp.
  assert (Hhi : 0 <= Z.shiftr id 24 < 256).
  { rewrite Z.shiftr_div_pow2 by lia. split; [apply Z.div_pos; lia|].
    apply Z.div_lt_upper_bound; lia. }
  unfold ComposeRuntimeFormID. rewrite Hp, Hidx.
  rewrite (@u32_small (Z.shiftr id 24)) by lia.
  rewrite u32_small.
  2:{ rewrite Z.shiftl_mul_pow2 by lia. lia. }
  apply Z.bits_inj'. intros n Hn.
  rewrite Z.lor_spec, !Z.land_spec.
  change 0x00FFFFFF with (Z.ones 24).
  rewrite testbit_low_mask by lia.
  destruct (n <? 24) eqn:L.
  + apply Z.ltb_lt in L. rewrite Z.shiftl_spec_low by lia.
    now rewrite !andb_true_r.
  + apply Z.ltb_ge in L. rewrite Z.shiftl_spec by lia.
    rewrite Z.shiftr_spec by lia.
    replace (n - 24 + 24) with n by lia.
    now rewrite !andb_false_r, orb_false_r.
Qed.

Lemma compose_light (dh : TESDataHandler) (plugin : string) (id : Z) :
  0 <= id <= UINT32_MAX -> plugin <> ""%string ->
  GetLoadedModIndex dh plugin = None ->
  GetLoadedLightModIndex dh plugin = Some (Z.land (Z.shiftr id 12) 0xFFF) ->
  Z.shiftr id 24 = 0xFE ->
  ComposeRuntimeFormID (Some dh) plugin (Z.land id 0x00FFFFFF) = id.
Proof.
  intros Hid Hp Hidx Hlight Hfe. unfold UINT32_MAX in Hid.
  apply String.eqb_neq in Hp.
  unfold ComposeRuntimeFormID. rewrite Hp, Hidx, Hlight.
  assert (Hl : 0 <= Z.land (Z.shiftr id 12) 0xFFF < 4096).
  { change 0xFFF with (Z.ones 12). rewrite Z.land_ones by lia.
    apply Z.mod_pos_bound. lia. }
  rewrite (@u32_small (Z.land (Z.shiftr id 12) 0xFFF)) by lia.
  assert (Hll : Z.land (Z.land (Z.shiftr id 12) 0xFFF) 0x00000FFF
                = Z.land (Z.shiftr id 12) 0xFFF).
  { now rewrite <- Z.land_assoc, Z.land_diag. }
  cbv zeta. rewrite Hll.
  rewrite u32_small.
  2:{ rewrite Z.shiftl_mul_pow2 by lia. lia. }
  apply Z.bits_inj'. intros n Hn.
  rewrite !Z.lor_spec, !Z.land_spec.
  change 0x00FFFFFF with (Z.ones 24). change 0x00000FFF with (Z.ones 12).
  change 0xFFF with (Z.ones 12).
  change 0xFE000000 with (Z.shiftl 0xFE 24).
  rewrite !testbit_low_mask by lia.
  destruct (n <? 12) eqn:L12.
  + apply Z.ltb_lt in L12.
    assert (L24 : (n <? 24) = true) by (apply Z.ltb_lt; lia).
    rewrite L24, !Z.shiftl_spec_low by lia. cbn [orb].
    now rewrite !andb_true_r.
  + apply Z.ltb_ge in L12. rewrite !andb_false_r, orb_false_r.
    rewrite (Z.shiftl_spec _ 12) by lia.
    rewrite Z.land_spec, Z.shiftr_spec by lia.
    replace (n - 12 + 12) with n by lia.
    rewrite testbit_low_mask by lia.
    destruct (n <? 24) eqn:L24.
    * apply Z.ltb_lt in L24. rewrite Z.shiftl_spec_low by lia.
      assert (L : (n - 12 <? 12) = true) by (apply Z.ltb_lt; lia).
      rewrite L. now rewrite !andb_true_r.
    * apply Z.ltb_ge in L24.
      assert (L : (n - 12 <? 12) = false) by (apply Z.ltb_ge; lia).
      rewrite L, andb_false_r, orb_false_r.
      rewrite Z.shiftl_spec by lia. rewrite <- Hfe.
      rewrite Z.shiftr_spec by lia. f_equal. lia.
Qed.

(** X6. The run-time form id that [ComposeRuntimeFormID] builds from the
    base id that the favorites scanner sends ([id & 0x00FFFFFF]) is the
    form id itself: for a full plugin whose load index is the top byte of
    the id, and for a light plugin (top byte 0xFE) whose light index is in
    bits 12..23. It is 0 when the plugin name is empty, when there is no
    data handler, and when the plugin is not loaded. *)
Theorem ComposeRuntimeFormID_roundtrip (dh : TESDataHandler)
    (plugin : string) (id : Z) :
  0 <= id <= UINT32_MAX ->
  plugin <> ""%string ->
  (GetLoadedModIndex dh plugin = Some (Z.shiftr id 24) ->
     ComposeRuntimeFormID (Some dh) plugin (Z.land id 0x00FFFFFF) = id)
  /\ (GetLoadedModIndex dh plugin = None ->
      GetLoadedLightModIndex dh plugin
      = Some (Z.land (Z.shiftr id 12) 0xFFF) ->
      Z.shiftr id 24 = 0xFE ->
      ComposeRuntimeFormID (Some dh) plugin (Z.land id 0x00FFFFFF) = id)
  /\ (GetLoadedModIndex dh plugin = None ->
      GetLoadedLightModIndex dh plugin = None ->
      forall baseId, ComposeRuntimeFormID (Some dh) plugin baseId = 0)
  /\ (forall baseId,
        ComposeRuntimeFormID None plugin baseId = 0
        /\ ComposeRuntimeFormID (Some dh) "" baseId = 0).
Proof.
  intros Hid Hp.
  split; [now apply compose_full|].
  split; [now apply compose_light|].
  apply String.eqb_neq in Hp. unfold ComposeRuntimeFormID. rewrite Hp.
  split; [intros -> ->; reflexivity|].
  intros baseId. split; reflexivity.
Qed.

End FormIDProperties.

Module FavoritesFacts.

Import FormID Favorites.
Local Open Scope string_scope.

Lemma map_fixed (f : ascii -> ascii) : forall s,
  (forall c, Str.mem c s = true -> f c = c) -> Str.map f s = s.
Proof.
  induction s as [|a s IH]; intros H; simpl; [reflexivity|].
  rewrite H by (simpl; now rewrite Ascii.eqb_refl).
  rewrite IH; [reflexivity|]. intros c Hc. apply H. simpl.
  rewrite Hc. apply orb_true_r.
Qed.

Lemma mem_eqb_false c d s :
  Str.mem c s = true -> Str.mem d s = false -> Ascii.eqb c d = false.
Proof.
  intros Hc Hd. destruct (Ascii.eqb_spec c d) as [->|]; [|reflexivity].
  congruence.
Qed.

Lemma SanitizeInPlace_fixed s :
  Str.mem LF s = false -> Str.mem CR s = false -> SanitizeInPlace s = s.
Proof.
  intros Hl Hr. apply map_fixed. intros c Hc.
  now rewrite (mem_eqb_false _ _ _ Hc Hl), (mem_eqb_false _ _ _ Hc Hr).
Qed.

Lemma SanitizeFavoriteField_fixed s :
  Str.mem BAR s = false -> Str.mem LF s = false -> Str.mem CR s = false ->
  SanitizeFavoriteField s = s.
Proof.
  intros Hb Hl Hr. unfold SanitizeFavoriteField.
  rewrite SanitizeInPlace_fixed by assumption.
  apply map_fixed. intros c Hc. now rewrite (mem_eqb_false _ _ _ Hc Hb).
Qed.

Lemma SafeName_clean raw :
  Str.mem BAR (SafeName raw) = false
  /\ Str.mem LF (SafeName raw) = false
  /\ Str.mem CR (SafeName raw) = false.
Proof.
  destruct raw as [s|]; [|now repeat split]. unfold SafeName.
  repeat split; apply StrFacts.mem_map_replace;
    intros a;
    destruct (Ascii.eqb a BAR) eqn:E1; try reflexivity;
    destruct (Ascii.eqb a LF) eqn:E2; try reflexivity;
    destruct (Ascii.eqb a CR) eqn:E3; try reflexivity; assumption.
Qed.

Lemma hex_digit_cases d :
  (0 <= d < 16)%Z ->
  In (hex_digit d)
     ["0"; "1"; "2"; "3"; "4"; "5"; "6"; "7"; "8"; "9";
      "A"; "B"; "C"; "D"; "E"; "F"]%char.
Proof.
  intros H.
  assert (Hc : (d = 0 \/ d = 1 \/ d = 2 \/ d = 3 \/ d = 4 \/ d = 5 \/ d = 6
               \/ d = 7 \/ d = 8 \/ d = 9 \/ d = 10 \/ d = 11 \/ d = 12
               \/ d = 13 \/ d = 14 \/ d = 15)%Z) by lia.
  repeat (destruct Hc as [->|Hc]; [cbn; tauto|]). subst. cbn. tauto.
Qed.

(** A hexadecimal numeral holds digits only. *)
Lemma to_hex_digits c digits : forall n,
  (0 <= n)%Z ->
  ~ In c ["0"; "1"; "2"; "3"; "4"; "5"; "6"; "7"; "8"; "9";
          "A"; "B"; "C"; "D"; "E"; "F"]%char ->
  Str.mem c (to_hex digits n) = false.
Proof.
  induction digits as [|digits IH]; intros n Hn Hc; [reflexivity|].
  cbn [to_hex]. rewrite StrFacts.mem_app.
  assert (Hm : (0 <= n mod 16 < 16)%Z) by (apply Z.mod_pos_bound; lia).
  assert (Hd : Str.mem c (String (hex_digit (n mod 16)) "") = false).
  { simpl. rewrite orb_false_r.
    destruct (Ascii.eqb_spec (hex_digit (n mod 16)) c) as [E|]; [|reflexivity].
    elim Hc. rewrite <- E. now apply hex_digit_cases. }
  rewrite Hd, orb_false_r.
  destruct (n / 16 =? 0)%Z; [reflexivity|].
  apply IH; [apply Z.div_pos; lia|exact Hc].
Qed.

Lemma formid_text_clean n :
  (0 <= n)%Z ->
  Str.mem BAR ("0x" ++ FormIDToHex n) = false
  /\ Str.mem LF ("0x" ++ FormIDToHex n) = false
  /\ Str.mem CR ("0x" ++ FormIDToHex n) = false.
Proof.
  intros Hn. unfold FormIDToHex.
  repeat split; cbn [append Str.mem]; rewrite to_hex_digits;
    try exact Hn; try reflexivity;
    cbn; intros H; repeat (destruct H as [H|H]; [discriminate H|]); exact H.
Qed.

Lemma land_nonneg id : (0 <= Z.land id 0x00FFFFFF)%Z.
Proof. apply Z.land_nonneg. right. lia. Qed.

Lemma scanned_shout_clean e :
  scanned_shout e ->
  plugin e <> ""
  /\ Str.mem BAR (sh_formIdHex e) = false
  /\ expected_shout e
     = FavShout (plugin e) (sh_formIdHex e) (sh_name e) (editorID e).
Proof.
  intros (fullName & editorId & fileName & id & H).
  unfold shout_entry in H.
  destruct (_ =? "") eqn:E; [discriminate|]. injection H as <-.
  apply String.eqb_neq in E.
  destruct (formid_text_clean (land_nonneg id)) as (Hb & Hl & Hr).
  split; [exact E|]. split; [exact Hb|].
  unfold expected_shout. cbn [plugin sh_formIdHex sh_name editorID].
  rewrite SanitizeInPlace_fixed by assumption.
  destruct (SafeName_clean fullName) as (? & ? & ?).
  destruct (SafeName_clean editorId) as (? & ? & ?).
  rewrite !(@SanitizeFavoriteField_fixed (SafeName _)) by assumption.
  destruct fileName as [f|].
  - destruct (SafeName_clean (Some f)) as (? & ? & ?).
    now rewrite SanitizeFavoriteField_fixed by assumption.
  - reflexivity.
Qed.

Lemma scanned_power_clean e :
  scanned_power e ->
  Str.mem BAR (pw_formIdHex e) = false
  /\ expected_power e = FavPower (pw_formIdHex e) (pw_name e).
Proof.
  intros (fullName & id & Hid & H). unfold power_entry in H.
  destruct (_ =? "") eqn:E; [discriminate|]. injection H as <-.
  destruct (formid_text_clean Hid) as (Hb & Hl & Hr).
  split; [exact Hb|].
  unfold expected_power. cbn [pw_formIdHex pw_name].
  rewrite SanitizeInPlace_fixed by assumption.
  destruct (SafeName_clean fullName) as (? & ? & ?).
  now rewrite SanitizeFavoriteField_fixed by assumption.
Qed.

Lemma scanned_item_clean k e :
  scanned_item e ->
  Str.mem BAR (formIdHex e) = false
  /\ expected_item k e = k (formIdHex e) (name e).
Proof.
  intros (fullName & id & Hid & H). unfold item_entry in H.
  destruct (_ =? "") eqn:E; [discriminate|]. injection H as <-.
  destruct (formid_text_clean Hid) as (Hb & Hl & Hr).
  split; [exact Hb|].
  unfold expected_item. cbn [formIdHex name].
  rewrite SanitizeInPlace_fixed by assumption.
  destruct (SafeName_clean fullName) as (? & ? & ?).
  now rewrite SanitizeFavoriteField_fixed by assumption.
Qed.

End FavoritesFacts.

Section FavoritesProperties.

Variable float : Type.
Variable float_zero : float.
Variable stof : string -> option float.

Import FormID Favorites FavoritesFacts.
Local Open Scope string_scope.

(** X7. The entries that the scanner builds go through [SendAllFavorites]
    unchanged: the names were made safe by [SafeName], which the
    sanitiser of the batch leaves as they are, and the form ids are [0x]
    and hexadecimal digits. Each line of the batch reads back as the
    entry it was built from, field for field. *)
Theorem scanned_favorites_read_back (shouts : list ShoutEntry)
    (powers : list PowerEntry) (weapons spells potions : list ItemEntry) :
  Forall scanned_shout shouts -> Forall scanned_power powers ->
  Forall scanned_item weapons -> Forall scanned_item spells ->
  Forall scanned_item potions ->
  (forall raw, SanitizeFavoriteField (SafeName raw) = SafeName raw)
  /\ List.map recognize
       (favorites_lines shouts powers weapons spells potions)
     = List.map Some
         ([FavBegin]
            ++ List.map (fun e => FavShout (plugin e) (sh_formIdHex e)
                                    (sh_name e) (editorID e)) shouts
            ++ List.map (fun e => FavPower (pw_formIdHex e) (pw_name e)) powers
            ++ List.map (fun e => FavWeapon (formIdHex e) (name e)) weapons
            ++ List.map (fun e => FavSpell (formIdHex e) (name e)) spells
            ++ List.map (fun e => FavPotion (formIdHex e) (name e)) potions
            ++ [FavEnd])%list.
Proof.
  intros Hs Hp Hw Hsp Hpo. split.
  { intros raw. destruct (SafeName_clean raw) as (? & ? & ?).
    now apply SanitizeFavoriteField_fixed. }
  unfold favorites_lines. rewrite !map_app, !map_map.
  apply (f_equal2 (@app _)); [reflexivity|].
  apply (f_equal2 (@app _)).
  { apply map_ext_in. intros e He.
    rewrite Forall_forall in Hs. specialize (Hs e He).
    destruct (scanned_shout_clean Hs) as (_ & Hb & <-).
    now apply recognize_shout. }
  apply (f_equal2 (@app _)).
  { apply map_ext_in. intros e He.
    rewrite Forall_forall in Hp. specialize (Hp e He).
    destruct (scanned_power_clean Hp) as (Hb & <-).
    now apply recognize_power. }
  apply (f_equal2 (@app _)).
  { apply map_ext_in. intros e He.
    rewrite Forall_forall in Hw. specialize (Hw e He).
    destruct (scanned_item_clean FavWeapon Hw) as (Hb & <-).
    apply recognize_item; auto. }
  apply (f_equal2 (@app _)).
  { apply map_ext_in. intros e He.
    rewrite Forall_forall in Hsp. specialize (Hsp e He).
    destruct (scanned_item_clean FavSpell Hsp) as (Hb & <-).
    apply recognize_item; auto. }
  apply (f_equal2 (@app _)); [|reflexivity].
  apply map_ext_in. intros e He.
  rewrite Forall_forall in Hpo. specialize (Hpo e He).
  destruct (scanned_item_clean FavPotion Hpo) as (Hb & <-).
  apply recognize_item; auto.
Qed.

End FavoritesProperties.

Section ShoutIds.

Variable float : Type.
Variable float_zero : float.
Variable stof : string -> option float.

Import FormID Favorites FavoritesFacts FormIDFacts.
Local Open Scope string_scope.

(** X8. From the scanner to the trigger: when the companion answers with
    a shout trigger that carries the plugin and the form id of an entry
    as the scanner sent them, [ValidateShoutContext] finds the form id
    that the scanner started from (for a shout of a full plugin whose
    load index is the top byte of the id, and whose base id is not 0),
    the power clamped to 1..3, and the spell of that variation. *)
Theorem shout_id_end_to_end (fullName editorId fileName : option string)
    (id : Z) (e : ShoutEntry) (pw sc text : string) (n : Z) (f : float)
    (game : Game) (dh : TESDataHandler) (shout : TESShout) (spell : nat) :
  (0 <= id <= UINT32_MAX)%Z ->
  Z.land id 0x00FFFFFF <> 0%Z ->
  shout_entry fullName editorId fileName id = Some e ->
  Str.mem BAR pw = false -> Str.mem BAR sc = false ->
  stoi pw = Some n -> stof sc = Some f ->
  dataHandler game = Some dh ->
  GetLoadedModIndex dh (plugin e) = Some (Z.shiftr id 24) ->
  LookupShout game id = Some shout ->
  nth_error (variations shout) (Z.to_nat (ClampPower n - 1)) = Some (Some spell) ->
  ValidateShoutContext game
    (decode_TRIG float_zero stof
       ("TRIG|shout|" ++ plugin e ++ "|" ++ sh_formIdHex e ++ "|" ++ pw
          ++ "|" ++ sc ++ "|" ++ text))
  = Some (mkShoutContext id (ClampPower n) shout spell).
Proof.
  intros Hid Hbase He Hpw Hsc Hn Hf Hdh Hidx Hlook Hvar.
  destruct (@scanned_shout_clean e) as (Hp & Hb & _);
    [now exists fullName, editorId, fileName, id|].
  assert (Hplug : Str.mem BAR (plugin e) = false).
  { unfold shout_entry in He. destruct (_ =? "") eqn:E; [discriminate|].
    injection He as <-. cbn [plugin]. destruct fileName as [x|].
    - apply (SafeName_clean (Some x)).
    - reflexivity. }
  rewrite (@decode_shout_layout float float_zero stof (plugin e)
             (sh_formIdHex e) pw sc text n f Hplug Hb Hpw Hsc Hn Hf).
  unfold ValidateShoutContext. cbn [shoutFormID shoutPlugin shoutPower].
  assert (Hfid : sh_formIdHex e = "0x" ++ BaseIDToHex id).
  { unfold shout_entry in He. destruct (_ =? "") eqn:E; [discriminate|].
    now injection He as <-. }
  assert (Hparse : ParseHexFormID (sh_formIdHex e) = Z.land id 0x00FFFFFF).
  { rewrite Hfid, ParseHexFormID_0x. unfold BaseIDToHex.
    rewrite from_chars_to_hex; [reflexivity|].
    change 0x00FFFFFF%Z with (Z.ones 24). rewrite Z.land_ones by lia.
    pose proof (Z.mod_pos_bound id (2 ^ 24)). unfold UINT32_MAX. lia. }
  rewrite Hparse.
  destruct (Z.eqb_spec (Z.land id 0x00FFFFFF) 0) as [E|_]; [now elim Hbase|].
  rewrite Hdh.
  assert (Hcomp : ComposeRuntimeFormID (Some dh) (plugin e)
                    (Z.land id 0x00FFFFFF) = id).
  { apply (compose_full dh Hid Hp Hidx). }
  rewrite Hcomp.
  destruct (Z.eqb_spec id 0) as [E|_].
  { subst id. now elim Hbase. }
  now rewrite Hlook, Hvar.
Qed.

End ShoutIds.

Module ScanFacts.

Import Favorites.
Local Open Scope string_scope.

Lemma shout_eqb_eq a b : shout_eqb a b = true <-> a = b.
Proof.
  unfold shout_eqb. rewrite !andb_true_iff, !String.eqb_eq.
  destruct a, b; cbn. split; [intros [[[-> ->] ->] ->]|intros [= -> -> -> ->]];
    auto.
Qed.

Lemma power_eqb_eq a b : power_eqb a b = true <-> a = b.
Proof.
  unfold power_eqb. rewrite !andb_true_iff, !String.eqb_eq.
  destruct a, b; cbn. split; [intros [-> ->]|intros [= -> ->]]; auto.
Qed.

Lemma item_eqb_eq a b : item_eqb a b = true <-> a = b.
Proof.
  unfold item_eqb. rewrite !andb_true_iff, !String.eqb_eq.
  destruct a, b; cbn. split; [intros [-> ->]|intros [= -> ->]]; auto.
Qed.

Lemma EntriesEqual_eq {A} (eqb : A -> A -> bool) :
  (forall x y, eqb x y = true <-> x = y) ->
  forall a b, EntriesEqual eqb a b = true <-> a = b.
Proof.
  intros Heq a b. unfold EntriesEqual.
  destruct (Nat.eqb_spec (List.length a) (List.length b)) as [L|L]; cbn.
  - revert b L. induction a as [|x a IH]; intros [|y b] L; cbn;
      try discriminate; [tauto|].
    rewrite andb_true_iff, Heq, IH by (cbn in L; lia).
    split; [intros [-> ->]|intros [= -> ->]]; auto.
  - split; [discriminate|]. intros ->. now elim L.
Qed.

Lemma scan_changed_false now last :
  scan_changed now last = false <-> now = last.
Proof.
  unfold scan_changed. rewrite !orb_false_iff, !negb_false_iff.
  rewrite (EntriesEqual_eq _ shout_eqb_eq), (EntriesEqual_eq _ power_eqb_eq),
    !(EntriesEqual_eq _ item_eqb_eq).
  destruct now, last; cbn.
  split; [intros [[[[-> ->] ->] ->] ->]|intros [= -> -> -> -> ->]]; auto.
Qed.

End ScanFacts.

Section ScanProperties.

Variable float : Type.

Import Favorites ScanFacts.
Local Open Scope string_scope.

(** X9. A scan replaces the remembered vectors by what it collected. It
    queues a favorites batch when it is forced or when something differs
    from the last scan, in any member of any entry; a scan that is not
    forced and collects what the last one did leaves the pipe client
    untouched, so the same batch is not sent twice. *)
Theorem ScanAllFavorites_sends_changes (now last : Scan) (force : bool)
    (st : PipeClient float) :
  let last' := fst (ScanAllFavorites float now force last) in
  let op := snd (ScanAllFavorites float now force last) in
  last' = now
  /\ (force = false -> now = last -> run op st = (Done tt, mkWorld st []))
  /\ (force = true \/ now <> last ->
        pendingFavorites (exec op st)
        = Some (favorites_lines (shouts now) (powers now) (weapons now)
                  (spells now) (potions now)))
  /\ (let again := snd (ScanAllFavorites float now false last') in
      run again (exec op st) = (Done tt, mkWorld (exec op st) [])).
Proof.
  cbv zeta. unfold ScanAllFavorites. cbn [fst snd].
  split; [reflexivity|]. split; [|split].
  - intros -> E. apply scan_changed_false in E. now rewrite E.
  - intros H.
    assert (E : scan_changed now last || force = true).
    { destruct H as [->|H]; [apply orb_true_r|].
      destruct (scan_changed now last) eqn:C; [reflexivity|].
      apply scan_changed_false in C. now elim H. }
    rewrite E. reflexivity.
  - assert (E : scan_changed now now = false) by now apply scan_changed_false.
    now rewrite E.
Qed.

End ScanProperties.

Section Exact.

Variable float : Type.
Variable float_zero : float.
Variable stof : string -> option float.

Local Open Scope list_scope.

Abbreviation Client := (PipeClient float).
Abbreviation State := (World float).

Lemma refines_to_seq env (step1 rest : bool -> M float bool)
    d1 post1 fail1 wrote1 d2 post2 fail2 wrote2 :
  refines_to env step1 d1 post1 fail1 wrote1 ->
  refines_to env rest d2 post2 fail2 wrote2 ->
  (forall st : Client, live st -> live (post1 st)) ->
  refines_to env (fun wa => bind (step1 wa) rest)
    (fun st => d1 st ++ d2 (post1 st))
    (fun st => post2 (post1 st))
    (seq_fail d1 post1 fail1 fail2)
    (fun st => wrote1 st || wrote2 (post1 st)).
Proof.
  intros H1 H2 Hst wa w Hlive. unfold bind.
  specialize (H1 wa w Hlive).
  destruct (step1 wa w) as [[wa1|] w1].
  - destruct H1 as (Ht & Hc & Hw).
    assert (Hlive1 : live (client w1)) by (rewrite Hc; now apply Hst).
    specialize (H2 wa1 w1 Hlive1).
    destruct (rest wa1 w1) as [[wa2|] w2].
    + destruct H2 as (Ht2 & Hc2 & Hw2).
      rewrite Ht2, Ht, Hc2, Hw2, Hw, Hc, map_app, <- app_assoc, orb_assoc.
      auto.
    + destruct H2 as (pre & p & rest' & Hd & Ht2 & Hf & Hs).
      exists (d1 (client w) ++ pre), p, rest'.
      split; [|split; [|split]].
      * rewrite <- Hc, Hd, <- app_assoc. reflexivity.
      * rewrite Ht2, Ht, map_app, <- !app_assoc. reflexivity.
      * rewrite Ht, write_calls_app, write_calls_written in Hf.
        rewrite length_app. now rewrite Nat.add_assoc.
      * rewrite Hs, Hc. unfold seq_fail. rewrite length_app.
        destruct (Nat.ltb_spec (List.length (d1 (client w)) + List.length pre)
                    (List.length (d1 (client w)))) as [L|L]; [lia|].
        f_equal. lia.
  - destruct H1 as (pre & p & rest' & Hd & Ht & Hf & Hs).
    exists pre, p, (rest' ++ d2 (post1 (client w))).
    split; [rewrite Hd, <- app_assoc; reflexivity|].
    split; [exact Ht|]. split; [exact Hf|].
    rewrite Hs. unfold seq_fail. rewrite Hd, length_app. cbn [List.length].
    destruct (Nat.ltb_spec (List.length pre)
                (List.length pre + S (List.length rest'))) as [L|L]; [|lia].
    reflexivity.
Qed.

Lemma refines_to_ext env (step : bool -> M float bool)
    d post fail wrote d' post' wrote' :
  (forall st : Client, d st = d' st) ->
  (forall st, post st = post' st) ->
  (forall st, wrote st = wrote' st) ->
  refines_to env step d post fail wrote ->
  refines_to env step d' post' fail wrote'.
Proof.
  intros Hd Hp Hw H wa w Hlive. specialize (H wa w Hlive).
  destruct (step wa w) as [[wa'|] w'].
  - now rewrite <- Hd, <- Hp, <- Hw.
  - now rewrite <- Hd.
Qed.

(** The case of a block that has nothing to send. *)
Ltac idle_block :=
  simpl; rewrite ?app_nil_r, ?orb_false_r; repeat split; auto.

(** The case of a block that writes one line and then updates the state. *)
Ltac one_line_block Hlive :=
  unfold bind; rewrite (@write_or_disconnect_run float) by exact Hlive;
  match goal with
  | |- context [env_write ?e ?n] =>
      let Hok := fresh "Hok" in
      destruct (env_write e n) eqn:Hok; simpl;
      [ rewrite ?orb_true_r; repeat split; auto
      | eexists [], _, []; simpl; rewrite Nat.add_0_r;
        repeat split; eauto ]
  end.

Lemma transmit_lang_to env :
  refines_to env (transmit_lang env)
    (fun st : Client => tag SiteLang (lang_lines st))
    (fun st : Client => set_lastSentGameLang
                 (acknowledged (desiredGameLang st) (lastSentGameLang st)) st)
    (@unchanged float)
    (fun st : Client => nonempty (lang_lines st)).
Proof.
  intros wa w Hlive. unfold transmit_lang, lang_lines, bind at 1, get.
  destruct (desiredGameLang (client w)) as [d|] eqn:Hd; simpl.
  - destruct (differs String.eqb (lastSentGameLang (client w)) d) eqn:Hdiff.
    + one_line_block Hlive.
    + apply differs_string_false in Hdiff. rewrite <- Hdiff.
      rewrite set_lastSentGameLang_same. idle_block.
  - rewrite set_lastSentGameLang_same. idle_block.
Qed.

Lemma transmit_cfg_to env c :
  refines_to env (transmit_cfg env c)
    (fun st : Client => tag (SiteCfg c) (cfg_lines c st))
    (@acknowledge_cfg float c)
    (@unchanged float)
    (fun st : Client => nonempty (cfg_lines c st)).
Proof.
  intros wa w Hlive.
  unfold transmit_cfg, cfg_lines, acknowledge_cfg, bind at 1, get.
  destruct (cfg_get c (desiredCfg (client w))) as [d|] eqn:Hd; simpl.
  - destruct (differs Bool.eqb (cfg_get c (lastSentCfg (client w))) d) eqn:Hdiff.
    + one_line_block Hlive.
    + apply differs_bool_false in Hdiff. rewrite <- Hdiff.
      rewrite set_lastSentCfg_same. idle_block.
  - rewrite set_lastSentCfg_same. idle_block.
Qed.

Lemma transmit_close_to env :
  refines_to env (transmit_close env)
    (fun st : Client => tag SiteClose (close_lines st))
    (@set_pendingClose float false)
    (@unchanged float)
    (fun st : Client => pendingClose st).
Proof.
  intros wa w Hlive. unfold transmit_close, close_lines, bind at 1, get.
  destruct (pendingClose (client w)) eqn:Hp; simpl.
  - one_line_block Hlive.
  - idle_block. rewrite <- Hp. symmetry. apply set_pendingClose_same.
Qed.

Lemma transmit_listen_to env :
  refines_to env (transmit_listen env)
    (fun st : Client => tag SiteListen (listen_lines st))
    (@set_pendingListen float None)
    (@unchanged float)
    (fun st : Client => is_some (pendingListen st)).
Proof.
  intros wa w Hlive. unfold transmit_listen, listen_lines, bind at 1, get.
  destruct (pendingListen (client w)) as [on|] eqn:Hp; simpl.
  - one_line_block Hlive.
  - rewrite <- Hp, set_pendingListen_same. idle_block.
Qed.

Lemma transmit_listen_shouts_to env :
  refines_to env (transmit_listen_shouts env)
    (fun st : Client => tag SiteListenShouts (listen_shouts_lines st))
    (@set_pendingListenVoiceHandle float None)
    (@unchanged float)
    (fun st : Client => is_some (pendingListenVoiceHandle st)).
Proof.
  intros wa w Hlive.
  unfold transmit_listen_shouts, listen_shouts_lines, bind at 1, get.
  destruct (pendingListenVoiceHandle (client w)) as [on|] eqn:Hp; simpl.
  - one_line_block Hlive.
  - rewrite <- Hp, set_pendingListenVoiceHandle_same. idle_block.
Qed.

Lemma transmit_favorites_to env :
  refines_to env (transmit_favorites env)
    (fun st : Client => tag SiteFavorites (favorites_due st))
    (@set_pendingFavorites float None)
    (fun _ => @set_pendingFavorites float None)
    (fun st : Client => is_some (pendingFavorites st)).
Proof.
  intros wa w Hlive.
  unfold transmit_favorites, favorites_due, bind at 1, get.
  destruct (pendingFavorites (client w)) as [lines|] eqn:Hp; simpl.
  - unfold bind at 1, modify at 1. unfold bind at 1.
    set (w1 := mkWorld (set_pendingFavorites None (client w)) (trace w)).
    pose proof (@for_each_write float env SiteFavorites (fun x => x) lines w1
                  (live_set_pendingFavorites None Hlive)) as H.
    rewrite map_id in H.
    destruct (for_each lines _ w1) as [[u|] w2].
    + destruct H as [Ht Hc]. simpl. rewrite orb_true_r. auto.
    + destruct H as (pre & p & rest & Hd & Ht & Hf & Hc).
      exists pre, p, rest. rewrite Hc. repeat split; auto.
  - idle_block. rewrite <- Hp. symmetry. apply set_pendingFavorites_same.
Qed.

Lemma transmit_options_to env :
  refines_to env (transmit_options env)
    (fun st : Client => tag SiteOptions (options_lines st))
    (@set_pendingOptions float None)
    (fun _ => @set_pendingOptions float None)
    (fun st : Client => is_some (pendingOptions st)).
Proof.
  intros wa w Hlive.
  unfold transmit_options, options_lines, bind at 1, get.
  destruct (pendingOptions (client w)) as [opts|] eqn:Hp; [|simpl].
  - cbv beta iota. unfold is_some. unfold bind at 1, modify at 1.
    set (st1 := set_pendingOptions None (client w)).
    assert (Hlive1 : live st1) by now apply live_set_pendingOptions.
    unfold bind at 1. rewrite (@write_or_disconnect_run float) by exact Hlive1.
    cbn [trace client].
    set (open := ("OPEN|" ++ Str.of_nat (List.length opts))%string).
    set (opt := fun s => SanitizeInPlace ("OPT|" ++ s)%string).
    destruct (env_write env (write_calls (trace w))) eqn:Hok1.
    + unfold bind at 1.
      set (w2 := mkWorld st1 (trace w ++ [EvWrite SiteOptions open true])).
      pose proof (@for_each_write float env SiteOptions opt opts w2 Hlive1) as H.
      destruct (for_each opts _ w2) as [[u|] w3].
      * destruct H as [Ht Hc].
        assert (Hlive3 : live (client w3)) by now rewrite Hc.
        unfold bind at 1. rewrite (@write_or_disconnect_run float) by exact Hlive3.
        assert (Hn : write_calls (trace w3)
                     = write_calls (trace w) + S (List.length opts)).
        { rewrite Ht. subst w2. cbn [trace].
          rewrite !write_calls_app, write_calls_written. unfold tag.
          rewrite !length_map. unfold write_calls. simpl. lia. }
        rewrite Hn.
        assert (Hl : List.length (tag SiteOptions (open :: map opt opts))
                     = S (List.length opts)).
        { unfold tag. simpl. now rewrite !length_map. }
        assert (Hsplit : tag SiteOptions (open :: map opt opts ++ ["END"%string])
                         = tag SiteOptions (open :: map opt opts)
                             ++ [(SiteOptions, "END"%string)]).
        { unfold tag. simpl. now rewrite map_app. }
        assert (Htr : trace w3
                      = trace w ++ map (@written) (tag SiteOptions (open :: map opt opts))).
        { rewrite Ht. subst w2. cbn [trace]. rewrite <- app_assoc. reflexivity. }
        destruct (env_write env (write_calls (trace w) + S (List.length opts)))
          eqn:Hok2.
        -- cbn [ret]. rewrite Hsplit, map_app, Htr, Hc, <- !app_assoc.
           rewrite orb_true_r. auto.
        -- exists (tag SiteOptions (open :: map opt opts)),
             (SiteOptions, "END"%string), [].
           rewrite Hl. cbn [trace client fst snd].
           rewrite Htr, Hc, <- app_assoc. auto.
      * destruct H as (pre & p & rest & Hd & Ht & Hf & Hc).
        exists ((SiteOptions, open) :: pre), p,
          (rest ++ [(SiteOptions, "END"%string)]).
        subst w2. cbn [trace client] in *.
        split; [|split; [|split]].
        -- change (tag SiteOptions (open :: map opt opts ++ ["END"%string]))
             with ((SiteOptions, open)
                     :: map (pair SiteOptions) (map opt opts ++ ["END"%string])).
           rewrite map_app. fold (tag SiteOptions (map opt opts)).
           rewrite Hd, <- app_assoc. reflexivity.
        -- rewrite Ht, <- app_assoc. reflexivity.
        -- rewrite write_calls_app in Hf. unfold write_calls at 2 in Hf.
           simpl in Hf. cbn [List.length].
           replace (write_calls (trace w) + S (List.length pre))
             with (write_calls (trace w) + 1 + List.length pre) by lia.
           exact Hf.
        -- now rewrite Hc.
    + exists [], (SiteOptions, open),
        (tag SiteOptions (map opt opts ++ ["END"%string])).
      simpl. rewrite Nat.add_0_r. auto.
  - idle_block. rewrite <- Hp. symmetry. apply set_pendingOptions_same.
Qed.

Ltac block_to lemma :=
  eapply refines_to_seq; [apply lemma | | intros st [? ?]; now split].

(** The transmit phase in full: what it sends, the state it leaves, and
    the state in which it fails. *)
Lemma transmit_to env :
  refines_to env (transmit_blocks env) (@due float) (@transmitted float)
    (@interrupted float) (@wrote_any float).
Proof.
  eapply refines_to_ext;
    [ | | |
      unfold transmit_blocks, interrupted;
      block_to transmit_lang_to;
      block_to transmit_options_to;
      block_to transmit_close_to;
      block_to transmit_favorites_to;
      block_to transmit_listen_to;
      do 10 (block_to transmit_cfg_to);
      apply transmit_listen_shouts_to ].
  - intros st. reflexivity.
  - intros st. reflexivity.
  - intros st. cbv beta. rewrite !orb_assoc. reflexivity.
Qed.


Lemma transmit_exact env (w : State) :
  live (client w) ->
  match transmit env w with
  | (Done wroteAny, w') =>
      trace w' = trace w ++ EvLock SendMutex
                   :: map (@written) (due (client w)) ++ [EvUnlock SendMutex]
      /\ client w' = transmitted (client w)
      /\ wroteAny = wrote_any (client w)
  | (GotoDisconnect, w') =>
      exists pre p rest,
        due (client w) = pre ++ p :: rest
        /\ trace w' = trace w ++ EvLock SendMutex
                        :: map (@written) pre
                        ++ [EvWrite (fst p) (snd p) false; EvUnlock SendMutex]
        /\ env_write env (write_calls (trace w) + List.length pre) = false
        /\ client w' = interrupted (List.length pre) (client w)
  end.
Proof.
  intros Hlive. unfold transmit, with_lock, bind at 1, emit.
  set (w1 := mkWorld (client w) (trace w ++ [EvLock SendMutex])).
  pose proof (@transmit_to env false w1 Hlive) as H.
  destruct (transmit_blocks env false w1) as [[wa|] w2];
    subst w1; cbn [client trace] in *.
  - destruct H as (Ht & Hc & Hw). rewrite Ht, <- !app_assoc. auto.
  - destruct H as (pre & p & rest & Hd & Ht & Hf & Hs).
    exists pre, p, rest. rewrite Ht, <- !app_assoc.
    rewrite write_calls_app in Hf. unfold write_calls at 2 in Hf. simpl in Hf.
    rewrite Nat.add_0_r in Hf. auto.
Qed.

Lemma kept_refl (st : Client) : kept st st.
Proof. split; [apply steady_refl|now left]. Qed.

Lemma kept_trans (a b c : Client) : kept a b -> kept b c -> kept a c.
Proof.
  intros [S1 F1] [S2 F2]. split; [eapply steady_trans; eauto|].
  destruct F2 as [F2|F2]; [|now right]. rewrite F2. exact F1.
Qed.

Lemma kept_seq_fail d1 post1 fail1 fail2 :
  (forall st : Client, kept st (post1 st)) ->
  (forall n st, kept st (fail1 n st)) ->
  (forall n st, kept st (fail2 n st)) ->
  forall n st, kept st (seq_fail d1 post1 fail1 fail2 n st).
Proof.
  intros Hp H1 H2 n st. unfold seq_fail.
  destruct (n <? List.length (d1 st)); [apply H1|].
  eapply kept_trans; [apply Hp|apply H2].
Qed.

Lemma kept_field (f : Client -> Client) :
  (forall st, connected (f st) = connected st) ->
  (forall st, pipe (f st) = pipe st) ->
  (forall st, recvBuf (f st) = recvBuf st) ->
  (forall st, desiredGameLang (f st) = desiredGameLang st) ->
  (forall st, desiredCfg (f st) = desiredCfg st) ->
  (forall st, responses (f st) = responses st) ->
  (forall st, connEvent (f st) = connEvent st) ->
  (forall st, pendingFavorites (f st) = pendingFavorites st
              \/ pendingFavorites (f st) = None) ->
  forall st, kept st (f st).
Proof. intros. repeat split; auto. Qed.

Lemma kept_interrupted n (st : Client) : kept st (interrupted n st).
Proof.
  revert n st. unfold interrupted.
  repeat (apply kept_seq_fail;
          [ apply kept_field; intros; auto
          | intros; try apply kept_refl; apply kept_field; intros; auto | ]).
  intros. apply kept_refl.
Qed.

Lemma service_cycle_exact env (w : State) :
  live (client w) ->
  (service_cycle float_zero stof env w =
     (Done tt, mkWorld (cycle_state float_zero stof env (client w))
                       (trace w ++ cycle_events float_zero stof env (client w))))
  \/ (exists pre p rest,
        due (client w) = pre ++ p :: rest
        /\ env_write env (write_calls (trace w) + List.length pre) = false
        /\ service_cycle float_zero stof env w =
             (Done tt,
              mkWorld (disconnected (interrupted (List.length pre) (client w)))
                (trace w
                   ++ failed_events pre p
                        (interrupted (List.length pre) (client w))))).
Proof.
  intros Hlive. unfold service_cycle, on_disconnect. unfold bind.
  pose proof (transmit_exact env w Hlive) as H.
  destruct (transmit env w) as [[wa|] w1].
  - left. destruct H as (Ht & Hc & Hw).
    assert (Hlive1 : live (client w1)).
    { rewrite Hc. now apply live_transmitted. }
    rewrite (@ProcessIncoming_run float) by exact Hlive1.
    unfold cycle_state, cycle_events. rewrite Hc, Ht, Hw. cbn [client trace].
    destruct (wrote_any (client w)); cbn [negb]; unfold ret, emit;
      cbn [client trace]; rewrite <- ?app_assoc; cbn [app];
      rewrite <- ?app_assoc; try rewrite app_nil_r; reflexivity.
  - right. destruct H as (pre & p & rest & Hd & Ht & Hf & Hs).
    exists pre, p, rest.
    split; [exact Hd|]. split; [exact Hf|].
    assert (Hlive1 : live (client w1)).
    { rewrite Hs. eapply steady_live; [|exact Hlive].
      apply kept_interrupted. }
    rewrite (@HandleDisconnect_run float) by (left; apply Hlive1).
    unfold emit, failed_events. cbn [client trace]. rewrite Ht, Hs.
    rewrite <- !app_assoc. cbn [app]. rewrite <- !app_assoc. reflexivity.
Qed.

(** One round of the loop in which a service cycle takes place: its state
    and its events, in the two cases. *)
Lemma iteration_exact env (st : Client) :
  cycle_begins env st ->
  (run (ThreadMain_iteration float_zero stof env) st =
     (Done tt, mkWorld (cycle_state float_zero stof env (entering st))
                       (connect_events st
                          ++ cycle_events float_zero stof env (entering st))))
  \/ (exists pre p rest,
        due (entering st) = pre ++ p :: rest
        /\ env_write env (List.length pre) = false
        /\ run (ThreadMain_iteration float_zero stof env) st =
             (Done tt,
              mkWorld (disconnected (interrupted (List.length pre) (entering st)))
                (connect_events st
                   ++ failed_events pre p
                        (interrupted (List.length pre) (entering st))))).
Proof.
  intros Hb. unfold run. rewrite (iteration_enters float_zero stof Hb).
  pose proof (live_entering Hb) as Hlive.
  destruct (@service_cycle_exact env (mkWorld (entering st) (connect_events st))
              Hlive) as [H|H]; [left; exact H|right].
  destruct H as (pre & p & rest & Hd & Hf & Hrun).
  exists pre, p, rest.
  split; [exact Hd|]. split; [|exact Hrun].
  cbn [trace] in Hf.
  replace (write_calls (connect_events st)) with 0 in Hf; [exact Hf|].
  unfold connect_events. now destruct (connected st).
Qed.

(** A round in which the connect attempt fails. *)
Lemma iteration_waits env (st : Client) :
  connected st = false -> env_connect env = false ->
  run (ThreadMain_iteration float_zero stof env) st
  = (Done tt, mkWorld st [EvConnect false; EvSleep 1000]).
Proof.
  intros Hc He. unfold run, ThreadMain_iteration, bind at 1.
  rewrite (@connect_run float) by exact Hc. now rewrite He.
Qed.

End Exact.

Section LifeProperties.

Variable float : Type.
Variable float_zero : float.
Variable stof : string -> option float.

Local Open Scope list_scope.

Abbreviation Client := (PipeClient float).
Abbreviation iteration := (ThreadMain_iteration float_zero stof).

Lemma one_frame_of_nat n : one_frame (Str.of_nat n).
Proof.
  unfold Str.of_nat. generalize (Nat.to_uint n). intros d.
  assert (H : forall d, one_frame (NilZero.string_of_uint d)
                        /\ one_frame (NilEmpty.string_of_uint d)).
  { induction d0 as [|? [? ?]|? [? ?]|? [? ?]|? [? ?]|? [? ?]|? [? ?]
                     |? [? ?]|? [? ?]|? [? ?]|? [? ?]];
      simpl; repeat split; auto;
      match goal with H : one_frame _ |- _ => apply H end. }
  apply H.
Qed.

Lemma one_frame_bit b : one_frame (bit b).
Proof. destruct b; now split. Qed.

Lemma one_frame_cfg_name c : one_frame (cfg_name c).
Proof. destruct c; now split. Qed.

Lemma favorites_lines_framed shouts powers weapons spells potions :
  Forall one_frame (favorites_lines shouts powers weapons spells potions).
Proof.
  unfold favorites_lines.
  repeat (apply Forall_app; split);
    try (apply Forall_forall; intros x Hx; apply in_map_iff in Hx;
         destruct Hx as (e & <- & _));
    auto using one_frame_fav_shout_line, one_frame_fav_power_line.
  - repeat constructor.
  - apply one_frame_fav_item_line. now split.
  - apply one_frame_fav_item_line. now split.
  - apply one_frame_fav_item_line. now split.
  - repeat constructor.
Qed.

Lemma tag_framed x lines :
  Forall one_frame lines -> Forall (fun p => one_frame (snd p)) (tag x lines).
Proof.
  intros H. unfold tag. apply Forall_forall. intros p Hp.
  apply in_map_iff in Hp. destruct Hp as (l & <- & Hl).
  rewrite Forall_forall in H. now apply H.
Qed.

(** Every line due holds no line break. *)
Lemma due_framed (st : Client) :
  framed st -> Forall (fun p => one_frame (snd p)) (due st).
Proof.
  intros [Hlang Hfav]. unfold due.
  repeat (apply Forall_app; split); apply tag_framed.
  - unfold lang_lines. destruct (desiredGameLang st) as [d|]; [|constructor].
    destruct (differs _ _ _); constructor; [|constructor].
    apply one_frame_app; [now split|now apply Hlang].
  - unfold options_lines. destruct (pendingOptions st) as [opts|]; [|constructor].
    constructor.
    + apply one_frame_app; [now split|apply one_frame_of_nat].
    + apply Forall_app. split; [|repeat constructor].
      apply Forall_forall. intros x Hx. apply in_map_iff in Hx.
      destruct Hx as (o & <- & _). apply one_frame_SanitizeInPlace.
  - unfold close_lines. destruct (pendingClose st); repeat constructor.
  - unfold favorites_due. destruct (pendingFavorites st) as [l|]; [|constructor].
    now apply Hfav.
  - unfold listen_lines. destruct (pendingListen st) as [b|]; [|constructor].
    constructor; [|constructor].
    apply one_frame_app; [now split|apply one_frame_bit].
  - unfold cfg_lines. destruct (cfg_get _ _) as [d|]; [|constructor].
    destruct (differs _ _ _); constructor; [|constructor].
    repeat apply one_frame_app;
      auto using one_frame_bit, one_frame_cfg_name; now split.
  - unfold cfg_lines. destruct (cfg_get _ _) as [d|]; [|constructor].
    destruct (differs _ _ _); constructor; [|constructor].
    repeat apply one_frame_app;
      auto using one_frame_bit, one_frame_cfg_name; now split.
  - unfold cfg_lines. destruct (cfg_get _ _) as [d|]; [|constructor].
    destruct (differs _ _ _); constructor; [|constructor].
    repeat apply one_frame_app;
      auto using one_frame_bit, one_frame_cfg_name; now split.
  - unfold cfg_lines. destruct (cfg_get _ _) as [d|]; [|constructor].
    destruct (differs _ _ _); constructor; [|constructor].
    repeat apply one_frame_app;
      auto using one_frame_bit, one_frame_cfg_name; now split.
  - unfold cfg_lines. destruct (cfg_get _ _) as [d|]; [|constructor].
    destruct (differs _ _ _); constructor; [|constructor].
    repeat apply one_frame_app;
      auto using one_frame_bit, one_frame_cfg_name; now split.
  - unfold cfg_lines. destruct (cfg_get _ _) as [d|]; [|constructor].
    destruct (differs _ _ _); constructor; [|constructor].
    repeat apply one_frame_app;
      auto using one_frame_bit, one_frame_cfg_name; now split.
  - unfold cfg_lines. destruct (cfg_get _ _) as [d|]; [|constructor].
    destruct (differs _ _ _); constructor; [|constructor].
    repeat apply one_frame_app;
      auto using one_frame_bit, one_frame_cfg_name; now split.
  - unfold cfg_lines. destruct (cfg_get _ _) as [d|]; [|constructor].
    destruct (differs _ _ _); constructor; [|constructor].
    repeat apply one_frame_app;
      auto using one_frame_bit, one_frame_cfg_name; now split.
  - unfold cfg_lines. destruct (cfg_get _ _) as [d|]; [|constructor].
    destruct (differs _ _ _); constructor; [|constructor].
    repeat apply one_frame_app;
      auto using one_frame_bit, one_frame_cfg_name; now split.
  - unfold cfg_lines. destruct (cfg_get _ _) as [d|]; [|constructor].
    destruct (differs _ _ _); constructor; [|constructor].
    repeat apply one_frame_app;
      auto using one_frame_bit, one_frame_cfg_name; now split.
  - unfold listen_shouts_lines.
    destruct (pendingListenVoiceHandle st) as [b|]; [|constructor].
    constructor; [|constructor].
    apply one_frame_app; [now split|apply one_frame_bit].
Qed.


(** ** The invariant *)

Lemma sound_init : sound (@client_init float).
Proof.
  unfold sound, nothing_acknowledged, framed. simpl.
  repeat split; auto; try discriminate. lia.
Qed.

Lemma exec_with_lock_modify mu (f : Client -> Client) (st : Client) :
  exec (with_lock mu (modify f)) st = f st.
Proof. reflexivity. Qed.

(** The six parts of the invariant. *)
Ltac sound_parts :=
  unfold sound; split; [|split; [|split; [|split; [|split]]]].

(** A setter changes nothing but the slot it sets and keeps it framed. *)
Lemma sound_produce p (st : Client) : sound st -> sound (exec (produce p) st).
Proof.
  intros (Hl & Hq & Hb & Ha & He & Hlang & Hfav).
  destruct p as [[opts| |shouts powers weapons spells potions|on|on]|c b|l];
    try (sound_parts; try assumption; split; assumption).
  - sound_parts; try assumption. split; [assumption|].
    cbn. intros lines [= <-]. apply favorites_lines_framed.
  - unfold produce, SendGameLanguage.
    destruct (SanitizeInPlace l =? "")%string;
      [sound_parts; try assumption; split; assumption|].
    sound_parts; try assumption. split; [|assumption].
    cbn. intros d [= <-]. apply one_frame_SanitizeInPlace.
Qed.

Lemma exec_ConsumeLastResponse (st : Client) :
  exec (@ConsumeLastResponse float) st
  = set_responses (pop_front (responses st)) st.
Proof.
  unfold exec, run, ConsumeLastResponse, with_lock, bind, emit, get. simpl.
  destruct st as [? ? ? ? ? ? ? ? ? ? ? ? q ?]. simpl.
  destruct q; reflexivity.
Qed.

Lemma sound_ConsumeLastResponse (st : Client) :
  sound st -> sound (exec (@ConsumeLastResponse float) st).
Proof.
  intros (Hl & Hq & Hb & Ha & He & Hf). rewrite exec_ConsumeLastResponse.
  sound_parts; try assumption.
  cbn. unfold pop_front. destruct (responses st); simpl in *; lia.
Qed.

Lemma sound_ConsumeConnectionEvent (st : Client) :
  sound st -> sound (exec (@ConsumeConnectionEvent float) st).
Proof.
  intros (Hl & Hq & Hb & Ha & He & Hf).
  sound_parts; try assumption. cbn. discriminate.
Qed.

Lemma sound_entering env (st : Client) :
  sound st -> cycle_begins env st -> sound (entering st).
Proof.
  intros Hs Hb. unfold entering.
  destruct (connected st) eqn:Hc; [exact Hs|].
  destruct Hs as (Hl & Hq & Hb' & Ha & He & Hf).
  sound_parts; try assumption; cbn; try discriminate; auto.
  now intros b [= <-].
Qed.

Lemma sound_transmitted (st : Client) :
  sound st -> live st -> sound (transmitted st).
Proof.
  intros (Hl & Hq & Hb & Ha & He & Hlang & Hfav) [Hc Hp].
  sound_parts; try assumption; cbn; try (rewrite Hc; discriminate).
  split; [exact Hlang|]. cbn. discriminate.
Qed.

Lemma sound_disconnected (st : Client) :
  List.length (responses st) <= 128 -> Str.mem LF (recvBuf st) = false ->
  framed st -> sound (disconnected st).
Proof.
  intros Hq Hb Hf.
  sound_parts; try assumption; cbn; auto.
  - intros _. split; reflexivity.
  - now intros b [= <-].
Qed.

Lemma sound_received chunk (st : Client) :
  sound st -> live st -> sound (received float_zero stof chunk st).
Proof.
  intros (Hl & Hq & Hb & Ha & He & Hf) [Hc Hp].
  unfold received.
  sound_parts; try assumption; cbn; try (rewrite Hc; discriminate).
  - now apply deposit_all_spec.
  - apply cut_rest_no_sep.
Qed.

Lemma sound_incoming_state i (st : Client) :
  sound st -> live st -> sound (incoming_state float_zero stof i st).
Proof.
  intros Hs Hlive.
  assert (Hd : sound (disconnected st)).
  { destruct Hs as (Hl & Hq & Hb & Ha & He & Hf).
    now apply sound_disconnected. }
  destruct i as [| | |chunk]; cbn [incoming_state]; auto.
  destruct (chunk =? "")%string; auto using sound_received.
Qed.

Lemma framed_kept (st st' : Client) : kept st st' -> framed st -> framed st'.
Proof.
  intros [(_ & _ & _ & Hd & _) Hk] [Hlang Hfav]. split.
  - rewrite Hd. exact Hlang.
  - destruct Hk as [->| ->]; [exact Hfav|discriminate].
Qed.

Lemma sound_interrupted n (st : Client) :
  sound st -> sound (disconnected (interrupted n st)).
Proof.
  intros (Hl & Hq & Hb & Ha & He & Hf).
  pose proof (kept_interrupted n st) as Hk.
  pose proof Hk as [(_ & _ & Hr & _ & _ & Hs & _) _].
  apply sound_disconnected.
  - now rewrite Hs.
  - now rewrite Hr.
  - eapply framed_kept; eauto.
Qed.

(** A round of the loop keeps the invariant, whatever the channel does. *)
Lemma sound_iteration env (st : Client) :
  sound st -> sound (exec (iteration env) st).
Proof.
  intros Hs. unfold exec.
  assert (Hcase : cycle_begins env st
                  \/ (connected st = false /\ env_connect env = false)).
  { destruct Hs as (Hl & _). unfold cycle_begins, live.
    destruct (connected st) eqn:Hc; [left; left; split; congruence|].
    destruct (env_connect env); auto. }
  destruct Hcase as [Hb|[Hc He]].
  - pose proof (sound_entering Hs Hb) as Hent.
    pose proof (live_entering Hb) as Hlive.
    destruct (@iteration_exact float float_zero stof env st Hb)
      as [->|(pre & p & rest & _ & _ & ->)]; cbn [snd client].
    + apply sound_incoming_state.
      * now apply sound_transmitted.
      * now apply live_transmitted.
    + now apply sound_interrupted.
  - rewrite (@iteration_waits float float_zero stof env st Hc He). exact Hs.
Qed.

Lemma reachable_is_sound (st : Client) :
  reachable float_zero stof st -> sound st.
Proof.
  induction 1;
    auto using sound_init, sound_produce, sound_ConsumeLastResponse,
      sound_ConsumeConnectionEvent, sound_iteration.
Qed.

(** X10. Between any two steps of its life (a call of a setter, a call of a
    consumer operation, a round of the loop of [ThreadMain], whatever the
    channel does in it) the client is in a state where: the flag
    [_connected] and the handle [_pipe] agree; the queue of responses
    holds at most 128 messages; the receive buffer holds no complete line;
    while the link is down no last-sent value is recorded, so that the
    next connection re-sends every desired toggle; and a connection event
    that waits for the consumer tells the state of the link. *)
Theorem client_invariant (st : Client) :
  reachable float_zero stof st ->
  connected st = pipe st
  /\ List.length (responses st) <= 128
  /\ Str.find LF 0 (recvBuf st) = None
  /\ (connected st = false ->
      lastSentCfg st = cfg_unset /\ lastSentGameLang st = None)
  /\ (forall b, connEvent st = Some b -> connected st = b).
Proof.
  intros H. apply reachable_is_sound in H.
  destruct H as (Hl & Hq & Hb & Ha & He & _).
  repeat split; auto; try apply Ha; auto.
  now apply StrFacts.mem_false_find.
Qed.

Lemma framed_event_written (l : list (Site * string)) :
  Forall (fun p => one_frame (snd p)) l ->
  Forall framed_event (map (@written) l).
Proof.
  intros H. apply Forall_forall. intros e He. apply in_map_iff in He.
  destruct He as (p & <- & Hp). rewrite Forall_forall in H. now apply H.
Qed.

Lemma framed_event_quiet (t : list Event) :
  Forall (fun e => is_quiet e = true) t -> Forall framed_event t.
Proof.
  apply Forall_impl. intros [] H; simpl in *; auto; discriminate.
Qed.

(** X11. From any state that the client reaches, whatever the channel does
    in a round of the loop, every line handed to [WriteFile] in that
    round, accepted or refused, holds neither a line feed nor a carriage
    return: the line feed that [WriteLine] appends is the only line break
    on the channel. *)
Theorem writes_are_frames env (st : Client) :
  reachable float_zero stof st ->
  forall site line ok,
    In (EvWrite site line ok) (events (iteration env) st) -> one_frame line.
Proof.
  intros H. apply reachable_is_sound in H.
  assert (Hall : writes_framed (events (iteration env) st)).
  { unfold events.
    assert (Hcase : cycle_begins env st
                    \/ (connected st = false /\ env_connect env = false)).
    { destruct H as (Hl & _). unfold cycle_begins, live.
      destruct (connected st) eqn:Hc; [left; left; split; congruence|].
      destruct (env_connect env); auto. }
    destruct Hcase as [Hb|[Hc He]].
    - pose proof (sound_entering H Hb) as (_ & _ & _ & _ & _ & Hf).
      pose proof (due_framed Hf) as Hdue.
      assert (Hconn : writes_framed (connect_events st)).
      { unfold connect_events. destruct (connected st); repeat constructor. }
      destruct (@iteration_exact float float_zero stof env st Hb)
        as [->|(pre & p & rest & Hd & _ & ->)]; cbn [snd trace];
        apply Forall_app; (split; [exact Hconn|]).
      + unfold cycle_events. constructor; [exact I|].
        apply Forall_app. split; [now apply framed_event_written|].
        constructor; [exact I|]. apply Forall_app. split.
        * apply framed_event_quiet, Forall_forall. intros e He.
          pose proof (quiet_incoming_events float_zero stof
                        (env_incoming env) (transmitted (entering st))) as Q.
          rewrite Forall_forall in Q. now apply Q.
        * destruct (wrote_any _); repeat constructor.
      + rewrite Hd in Hdue. apply Forall_app in Hdue.
        destruct Hdue as [Hpre Hrest]. inversion Hrest as [|? ? Hp _]; subst.
        unfold failed_events. constructor; [exact I|].
        apply Forall_app. split; [now apply framed_event_written|].
        constructor; [exact Hp|]. constructor; [exact I|].
        apply Forall_app. split; [|repeat constructor].
        unfold disconnect_events. destruct (pipe _); repeat constructor.
    - rewrite (@iteration_waits float float_zero stof env st Hc He).
      repeat constructor. }
  intros site line ok Hin. unfold writes_framed in Hall.
  rewrite Forall_forall in Hall. exact (Hall _ Hin).
Qed.

End LifeProperties.

Module CutFacts.

Import Str.
Local Open Scope string_scope.

(** Cutting a text that arrives in two parts. *)
Lemma cut_app c : forall s t,
  cut c (s ++ t)
  = ((fst (cut c s) ++ fst (cut c (snd (cut c s) ++ t)))%list,
     snd (cut c (snd (cut c s) ++ t))).
Proof.
  induction s as [|a s IH]; intros t; simpl.
  - now destruct (cut c t).
  - rewrite IH. destruct (cut c s) as [p1 r1]. cbn [fst snd].
    destruct (Ascii.eqb a c) eqn:Ea; [reflexivity|].
    destruct p1 as [|p ps]; cbn [fst snd app].
    + simpl. rewrite Ea. now destruct (cut c (r1 ++ t)) as [[|q qs] r2].
    + reflexivity.
Qed.

Lemma append_empty_r : forall s, s ++ "" = s.
Proof. induction s as [|a s IH]; simpl; [reflexivity|now rewrite IH]. Qed.

End CutFacts.

Section ReadingProperties.

Variable float : Type.
Variable float_zero : float.
Variable stof : string -> option float.

Local Open Scope list_scope.

Abbreviation Client := (PipeClient float).
Abbreviation iteration := (ThreadMain_iteration float_zero stof).

Lemma messages_app (l1 l2 : list string) :
  messages float_zero stof (l1 ++ l2)
  = messages float_zero stof l1 ++ messages float_zero stof l2.
Proof.
  induction l1 as [|l l1 IH]; simpl; [reflexivity|].
  destruct (decode_line float_zero stof l); simpl; now rewrite IH.
Qed.

Lemma deposit_all_app (rs1 rs2 q : list (PipeResponse float)) :
  deposit_all (rs1 ++ rs2) q = deposit_all rs2 (deposit_all rs1 q).
Proof. apply fold_left_app. Qed.

Lemma received_received a b (st : Client) :
  received float_zero stof b (received float_zero stof a st)
  = received float_zero stof (a ++ b) st.
Proof.
  unfold received. cbn [recvBuf responses].
  rewrite <- StrFacts.append_assoc.
  rewrite (CutFacts.cut_app LF (recvBuf st ++ a) b). cbn [fst snd].
  rewrite messages_app, deposit_all_app.
  destruct st; reflexivity.
Qed.

Lemma exec_read_chunk chunk (st : Client) :
  live st -> chunk <> ""%string ->
  exec (read_chunk float_zero stof chunk) st = received float_zero stof chunk st.
Proof.
  intros Hlive Hne. unfold exec, run, read_chunk.
  rewrite (@ProcessIncoming_run float) by exact Hlive.
  cbn [snd client env_incoming incoming_state].
  apply String.eqb_neq in Hne. now rewrite Hne.
Qed.

Lemma live_received chunk (st : Client) :
  live st -> live (received float_zero stof chunk st).
Proof. now intros [? ?]. Qed.

Lemma read_chunks_received : forall chunks a (st : Client),
  live st -> Forall (fun c => c <> ""%string) chunks ->
  read_chunks float_zero stof chunks (received float_zero stof a st)
  = received float_zero stof (a ++ String.concat "" chunks) st.
Proof.
  induction chunks as [|c chunks IH]; intros a st Hlive Hall.
  - simpl.
    now rewrite CutFacts.append_empty_r.
  - inversion Hall as [|? ? Hc Hrest]; subst.
    cbn [read_chunks fold_left].
    rewrite exec_read_chunk by (auto using live_received).
    rewrite received_received.
    fold (read_chunks float_zero stof chunks
            (received float_zero stof (a ++ c) st)).
    rewrite IH by assumption. rewrite StrFacts.append_assoc.
    f_equal. destruct chunks as [|c' chunks]; simpl.
    + now rewrite CutFacts.append_empty_r.
    + reflexivity.
Qed.

(** X12. The messages that the client delivers do not depend on how the
    channel cuts the byte stream into reads: on a connected client,
    reading a sequence of non-empty chunks one round after the other
    leaves the same queue of responses and the same receive buffer (the
    whole state) as reading their concatenation in one round. *)
Theorem chunking_is_irrelevant (c : string) (chunks : list string)
    (st : Client) :
  live st -> c <> ""%string -> Forall (fun c => c <> ""%string) chunks ->
  read_chunks float_zero stof (c :: chunks) st
  = exec (read_chunk float_zero stof (String.concat "" (c :: chunks))) st.
Proof.
  intros Hlive Hc Hall. cbn [read_chunks fold_left].
  rewrite exec_read_chunk by assumption.
  fold (read_chunks float_zero stof chunks (received float_zero stof c st)).
  rewrite read_chunks_received by assumption.
  assert (E : String.concat "" (c :: chunks)
              = (c ++ String.concat "" chunks)%string).
  { destruct chunks; simpl; [|reflexivity].
    now rewrite CutFacts.append_empty_r. }
  rewrite E. rewrite exec_read_chunk; [reflexivity|exact Hlive|].
  destruct c; [now elim Hc|discriminate].
Qed.

(** X13. [HandleDisconnect] does not empty the receive buffer. When the
    read phase of a round loses the link (no write fails in it) and a
    later round connects again and reads a chunk, the bytes of the
    incomplete line that the buffer held before are in front of the chunk:
    the lines cut and the messages deposited are those of the old bytes
    followed by the new ones. *)
Theorem stale_bytes_after_reconnect env1 env2 chunk (st : Client) :
  live st -> channel_ok env1 -> link_lost (env_incoming env1) = true ->
  env_connect env2 = true -> channel_ok env2 ->
  env_incoming env2 = Received chunk -> chunk <> ""%string ->
  let st1 := exec (iteration env1) st in
  let st2 := exec (iteration env2) st1 in
  connected st1 = false
  /\ recvBuf st1 = recvBuf st
  /\ connected st2 = true
  /\ recvBuf st2 = snd (Str.cut LF (recvBuf st ++ chunk))
  /\ responses st2
     = deposit_all
         (messages float_zero stof (fst (Str.cut LF (recvBuf st ++ chunk))))
         (responses st).
Proof.
  intros Hlive Hok1 Hlost Hc2 Hok2 Hin2 Hne. cbv zeta.
  assert (Hb1 : cycle_begins env1 st) by now left.
  rewrite (iteration_state_ok float_zero stof Hb1 Hok1).
  assert (E1 : cycle_state float_zero stof env1 (entering st)
               = disconnected (transmitted st)).
  { unfold cycle_state, entering. destruct Hlive as [-> _].
    destruct (env_incoming env1) as [| | |ch]; try reflexivity;
      try discriminate.
    cbn [incoming_state]. cbn [link_lost] in Hlost. now rewrite Hlost. }
  rewrite E1.
  assert (Hb2 : cycle_begins env2 (disconnected (transmitted st)))
    by (right; now split).
  rewrite (iteration_state_ok float_zero stof Hb2 Hok2).
  unfold cycle_state. rewrite Hin2. cbn [incoming_state].
  apply String.eqb_neq in Hne. rewrite Hne.
  repeat split; reflexivity.
Qed.

Lemma acknowledged_idem {A} (d l : option A) :
  acknowledged d (acknowledged d l) = acknowledged d l.
Proof. now destruct d. Qed.

Lemma client_ext (a b : Client) :
  connected a = connected b -> pipe a = pipe b -> recvBuf a = recvBuf b ->
  pendingOptions a = pendingOptions b ->
  pendingFavorites a = pendingFavorites b ->
  pendingClose a = pendingClose b -> pendingListen a = pendingListen b ->
  pendingListenVoiceHandle a = pendingListenVoiceHandle b ->
  desiredGameLang a = desiredGameLang b -> desiredCfg a = desiredCfg b ->
  lastSentCfg a = lastSentCfg b -> lastSentGameLang a = lastSentGameLang b ->
  responses a = responses b -> connEvent a = connEvent b ->
  a = b.
Proof. destruct a, b; simpl; intros; subst; reflexivity. Qed.

Lemma cfg_ext (m m' : CfgMembers) :
  (forall c, cfg_get c m = cfg_get c m') -> m = m'.
Proof.
  intros H. destruct m, m'.
  pose proof (H CfgOpen). pose proof (H CfgClose).
  pose proof (H CfgVoiceHandle). pose proof (H CfgDebug).
  pose proof (H CfgSaveWav). pose proof (H CfgDialogueSelect).
  pose proof (H CfgWeapons). pose proof (H CfgSpells).
  pose proof (H CfgPowers). pose proof (H CfgPotions).
  simpl in *. congruence.
Qed.

(** The members of the client after a transmit phase without a failure. *)
Lemma transmitted_fields (st : Client) :
  connected (transmitted st) = connected st
  /\ pipe (transmitted st) = pipe st
  /\ recvBuf (transmitted st) = recvBuf st
  /\ pendingOptions (transmitted st) = None
  /\ pendingFavorites (transmitted st) = None
  /\ pendingClose (transmitted st) = false
  /\ pendingListen (transmitted st) = None
  /\ pendingListenVoiceHandle (transmitted st) = None
  /\ desiredGameLang (transmitted st) = desiredGameLang st
  /\ desiredCfg (transmitted st) = desiredCfg st
  /\ lastSentGameLang (transmitted st)
     = acknowledged (desiredGameLang st) (lastSentGameLang st)
  /\ responses (transmitted st) = responses st
  /\ connEvent (transmitted st) = connEvent st.
Proof. repeat split. Qed.

Lemma transmitted_idem (st : Client) :
  transmitted (transmitted st) = transmitted st.
Proof.
  pose proof (transmitted_fields st)
    as (F1 & F2 & F3 & F4 & F5 & F6 & F7 & F8 & F9 & F10 & F11 & F12 & F13).
  pose proof (transmitted_fields (transmitted st))
    as (G1 & G2 & G3 & G4 & G5 & G6 & G7 & G8 & G9 & G10 & G11 & G12 & G13).
  apply client_ext; try congruence.
  - apply cfg_ext. intros c. rewrite !lastSentCfg_transmitted, F10.
    apply acknowledged_idem.
  - rewrite G11, F9, F11. apply acknowledged_idem.
Qed.

(** Reading touches the buffer and the queue only. *)
Lemma received_fields chunk (st : Client) :
  connected (received float_zero stof chunk st) = connected st
  /\ pipe (received float_zero stof chunk st) = pipe st
  /\ pendingOptions (received float_zero stof chunk st) = pendingOptions st
  /\ pendingFavorites (received float_zero stof chunk st)
     = pendingFavorites st
  /\ pendingClose (received float_zero stof chunk st) = pendingClose st
  /\ pendingListen (received float_zero stof chunk st) = pendingListen st
  /\ pendingListenVoiceHandle (received float_zero stof chunk st)
     = pendingListenVoiceHandle st
  /\ desiredGameLang (received float_zero stof chunk st) = desiredGameLang st
  /\ desiredCfg (received float_zero stof chunk st) = desiredCfg st
  /\ lastSentCfg (received float_zero stof chunk st) = lastSentCfg st
  /\ lastSentGameLang (received float_zero stof chunk st)
     = lastSentGameLang st
  /\ connEvent (received float_zero stof chunk st) = connEvent st.
Proof. repeat split. Qed.

Lemma recvBuf_received chunk (st : Client) :
  recvBuf (received float_zero stof chunk st)
  = snd (Str.cut LF (recvBuf st ++ chunk)).
Proof. reflexivity. Qed.

Lemma responses_received chunk (st : Client) :
  responses (received float_zero stof chunk st)
  = deposit_all
      (messages float_zero stof (fst (Str.cut LF (recvBuf st ++ chunk))))
      (responses st).
Proof. reflexivity. Qed.

Lemma transmitted_received chunk (st : Client) :
  transmitted (received float_zero stof chunk st)
  = received float_zero stof chunk (transmitted st).
Proof.
  pose proof (transmitted_fields st)
    as (F1 & F2 & F3 & F4 & F5 & F6 & F7 & F8 & F9 & F10 & F11 & F12 & F13).
  pose proof (transmitted_fields (received float_zero stof chunk st))
    as (G1 & G2 & G3 & G4 & G5 & G6 & G7 & G8 & G9 & G10 & G11 & G12 & G13).
  pose proof (received_fields chunk st)
    as (R1 & R2 & R4 & R5 & R6 & R7 & R8 & R9 & R10 & R11 & R12 & R14).
  pose proof (received_fields chunk (transmitted st))
    as (S1 & S2 & S4 & S5 & S6 & S7 & S8 & S9 & S10 & S11 & S12 & S14).
  apply client_ext; try congruence.
  - now rewrite G3, !recvBuf_received, F3.
  - rewrite S11. apply cfg_ext. intros c.
    now rewrite !lastSentCfg_transmitted, R10, R11.
  - now rewrite G12, !responses_received, F3, F12.
Qed.

Lemma differs_acknowledged {A} (eqb : A -> A -> bool) (d : A) l :
  (forall x, eqb x x = true) ->
  differs eqb (acknowledged (Some d) l) d = false.
Proof. intros H. simpl. now rewrite H. Qed.

Lemma due_transmitted (st : Client) : due (transmitted st) = [].
Proof.
  pose proof (transmitted_fields st)
    as (F1 & F2 & F3 & F4 & F5 & F6 & F7 & F8 & F9 & F10 & F11 & F12 & F13).
  assert (Hcfg : forall c, cfg_lines c (transmitted st) = []).
  { intros c. unfold cfg_lines. rewrite lastSentCfg_transmitted, F10.
    destruct (cfg_get c (desiredCfg st)) as [d|]; [|reflexivity].
    rewrite differs_acknowledged; [reflexivity|]. now intros []. }
  unfold due. rewrite !Hcfg.
  unfold lang_lines, options_lines, close_lines, favorites_due, listen_lines,
    listen_shouts_lines.
  rewrite F4, F5, F6, F7, F8, F9, F11.
  destruct (desiredGameLang st) as [d|]; [|reflexivity].
  rewrite differs_acknowledged; [reflexivity|]. apply String.eqb_refl.
Qed.

Lemma wrote_any_transmitted (st : Client) : wrote_any (transmitted st) = false.
Proof.
  pose proof (due_transmitted st) as H.
  pose proof (transmitted_fields st) as (_ & _ & _ & _ & F5 & _).
  rewrite <- (@nonempty_due float (transmitted st)); [now rewrite H|].
  unfold favorites_framed. rewrite F5. discriminate.
Qed.

Lemma due_received chunk (st : Client) :
  due (received float_zero stof chunk st) = due st.
Proof. reflexivity. Qed.

Lemma wrote_any_received chunk (st : Client) :
  wrote_any (received float_zero stof chunk st) = wrote_any st.
Proof. reflexivity. Qed.

(** X14. Once a service cycle is through without a refused write and with
    the link still up, the client is at rest: a further round in which the
    channel has nothing to read writes nothing, takes the send mutex once,
    peeks, sleeps the 15 ms of the idle path, and leaves the state of the
    client exactly as it was, whatever the channel would do to a write. *)
Theorem idle_round_is_a_fixpoint env env' (st : Client) :
  cycle_begins env st -> channel_ok env ->
  link_lost (env_incoming env) = false ->
  env_incoming env' = NothingAvailable ->
  let st1 := exec (iteration env) st in
  run (iteration env') st1
  = (Done tt,
     mkWorld st1 [EvLock SendMutex; EvUnlock SendMutex; EvPeek true;
                  EvSleep 15]).
Proof.
  intros Hb Hok Hup Hin'. cbv zeta.
  rewrite (iteration_state_ok float_zero stof Hb Hok).
  pose proof (live_entering Hb) as Hlive.
  set (st0 := entering st) in *.
  assert (E : exists st1 : Client,
             cycle_state float_zero stof env st0 = st1
             /\ live st1 /\ due st1 = [] /\ wrote_any st1 = false
             /\ transmitted st1 = st1).
  { unfold cycle_state.
    destruct (env_incoming env) as [| | |chunk]; try discriminate.
    - exists (transmitted st0). cbn [incoming_state].
      auto using live_transmitted, due_transmitted, wrote_any_transmitted,
        transmitted_idem.
    - cbn [incoming_state]. cbn [link_lost] in Hup. rewrite Hup.
      exists (received float_zero stof chunk (transmitted st0)).
      split; [reflexivity|].
      split; [apply live_received, live_transmitted, Hlive|].
      split; [rewrite due_received; apply due_transmitted|].
      split; [rewrite wrote_any_received; apply wrote_any_transmitted|].
      now rewrite transmitted_received, transmitted_idem. }
  destruct E as (st1 & -> & Hlive1 & Hdue & Hwrote & Hfix).
  assert (Hb1 : cycle_begins env' st1) by now left.
  assert (Hent : entering st1 = st1).
  { unfold entering. now destruct Hlive1 as [-> _]. }
  destruct (@iteration_exact float float_zero stof env' st1 Hb1)
    as [->|(pre & p & rest & Hd & _)].
  - unfold cycle_state, cycle_events, connect_events.
    rewrite Hent, Hin', Hdue, Hwrote, Hfix.
    destruct Hlive1 as [-> _]. reflexivity.
  - rewrite Hent, Hdue in Hd. now destruct pre.
Qed.

End ReadingProperties.

Section RefusalProperties.

Variable float : Type.
Variable float_zero : float.
Variable stof : string -> option float.

Local Open Scope list_scope.

Abbreviation Client := (PipeClient float).
Abbreviation iteration := (ThreadMain_iteration float_zero stof).

(** Where a line of two blocks that follow each other lies. *)
Lemma split_at_block (x : Site) (lines : list string)
    (D pre rest : list (Site * string)) (p : Site * string) :
  tag x lines ++ D = pre ++ p :: rest ->
  (fst p = x /\ List.length pre < List.length (tag x lines))
  \/ (exists pre', D = pre' ++ p :: rest
                   /\ List.length pre
                      = List.length (tag x lines) + List.length pre').
Proof.
  revert pre. induction lines as [|l lines IH]; intros pre H.
  - right. exists pre. auto.
  - destruct pre as [|q pre]; simpl in H.
    + left. injection H as <- _. split; [reflexivity|simpl; lia].
    + injection H as _ H. destruct (IH _ H) as [[Hp Hl]|(pre' & HD & Hl)].
      * left. split; [exact Hp|simpl; lia].
      * right. exists pre'. split; [exact HD|simpl; lia].
Qed.

Lemma seq_fail_step (d1 : Client -> list (Site * string)) post1 fail1 fail2
    (x : Site) (lines : list string) D pre p rest (st : Client) :
  d1 st = tag x lines ->
  tag x lines ++ D = pre ++ p :: rest ->
  (fst p = x
   /\ seq_fail d1 post1 fail1 fail2 (List.length pre) st
      = fail1 (List.length pre) st)
  \/ (exists pre', D = pre' ++ p :: rest
        /\ seq_fail d1 post1 fail1 fail2 (List.length pre) st
           = fail2 (List.length pre') (post1 st)).
Proof.
  intros Hd H. unfold seq_fail. rewrite Hd.
  destruct (@split_at_block _ _ _ _ _ _ H) as [[Hp Hl]|(pre' & HD & Hl)].
  - left. split; [exact Hp|].
    destruct (Nat.ltb_spec (List.length pre) (List.length (tag x lines)));
      [reflexivity|lia].
  - right. exists pre'. split; [exact HD|].
    destruct (Nat.ltb_spec (List.length pre) (List.length (tag x lines)));
      [lia|].
    f_equal. lia.
Qed.

(** The state at a refused write, by the block of the refused line. *)
Lemma disconnected_interrupted pre p rest (st : Client) :
  due st = pre ++ p :: rest ->
  disconnected (interrupted (List.length pre) st)
  = disconnected (drained (site_rank (fst p)) st).
Proof.
  unfold due, interrupted. intros H.
  repeat
    (match goal with
     | H : tag ?x ?lines ++ ?D = ?pre ++ ?p :: ?rest
       |- context [seq_fail ?d1 ?post1 ?fail1 ?fail2 (List.length ?pre) ?s] =>
         let Hp := fresh "Hp" in
         let E := fresh "E" in
         let pre' := fresh "pre" in
         let HD := fresh "HD" in
         destruct (@seq_fail_step d1 post1 fail1 fail2 x lines D pre p rest s
                     eq_refl H)
           as [[Hp E]|(pre' & HD & E)];
         rewrite E; clear E H;
         [ rewrite Hp; destruct st; reflexivity | ]
     end).
  match goal with
  | H : tag ?x ?lines = ?pre ++ ?p :: ?rest |- _ =>
      destruct (@split_at_block x lines [] pre rest p)
        as [[Hp _]|(pre' & HD' & _)];
      [ now rewrite app_nil_r
      | rewrite Hp; destruct st; reflexivity
      | now destruct pre' ]
  end.
Qed.

Lemma disconnected_drained_entering r (st : Client) :
  disconnected (drained r (entering st)) = disconnected (drained r st).
Proof. unfold entering. now destruct (connected st). Qed.

(** X15. When the channel refuses a write in a round of the loop, the
    lines due before the refused line [p] were sent and nothing after it
    was tried. The round leaves the link down, no last-sent value
    recorded and every desired value as it was. Of the one-shot commands,
    those written by an earlier block than the one of [p] are gone (they
    were sent); those of a later block still wait; a CLOSE or LISTEN
    command whose own line was refused still waits and is sent again
    after the next connection, whereas a batch of dialogue options or of
    favorites whose block was reached is lost, sent in part. *)
Theorem refused_write_outcome env (st : Client) :
  connected st = pipe st ->
  write_failed (events (iteration env) st) = true ->
  exists pre p rest,
    due st = pre ++ p :: rest
    /\ sent (events (iteration env) st) = pre
    /\ In (EvWrite (fst p) (snd p) false) (events (iteration env) st)
    /\ exec (iteration env) st
       = disconnected (drained (site_rank (fst p)) st).
Proof.
  intros Hl Hfail.
  assert (Hcase : cycle_begins env st
                  \/ (connected st = false /\ env_connect env = false)).
  { unfold cycle_begins, live.
    destruct (connected st) eqn:Hc; [left; left; split; congruence|].
    destruct (env_connect env); auto. }
  destruct Hcase as [Hb|[Hc He]].
  - unfold events, exec in *.
    destruct (@iteration_exact float float_zero stof env st Hb)
      as [E|(pre & p & rest & Hd & _ & E)]; rewrite E in *;
      cbn [snd trace client] in *.
    + unfold write_failed in Hfail. rewrite existsb_app in Hfail.
      fold (write_failed (connect_events st)) in Hfail.
      fold (write_failed (cycle_events float_zero stof env (entering st)))
        in Hfail.
      rewrite write_failed_connect_events, write_failed_cycle_events in Hfail.
      discriminate.
    + exists pre, p, rest. rewrite due_entering in Hd.
      split; [exact Hd|]. split; [|split].
      * now rewrite sent_app, sent_connect_events, sent_failed_events.
      * apply in_or_app. right. unfold failed_events. right.
        apply in_or_app. right. now left.
      * rewrite <- due_entering in Hd.
        rewrite (@disconnected_interrupted _ _ _ _ Hd).
        apply disconnected_drained_entering.
  - unfold events in Hfail.
    rewrite (@iteration_waits float float_zero stof env st Hc He) in Hfail.
    discriminate.
Qed.

End RefusalProperties.

Module LanguageFacts.

Import Language.
Local Open Scope string_scope.

Lemma back_last : forall s c,
  back s = Some c ->
  s = Str.take (String.length s - 1) s ++ String c "".
Proof.
  induction s as [|a s IH]; intros c H; [discriminate|].
  destruct s as [|b s].
  - simpl in H. now injection H as ->.
  - change (back (String a (String b s))) with (back (String b s)) in H.
    specialize (IH c H).
    replace (String.length (String a (String b s)) - 1)
      with (S (String.length (String b s) - 1)) by (simpl; lia).
    cbn [Str.take]. cbn [String.append]. f_equal. exact IH.
Qed.

(** The only line that opens the section [general]. *)
Lemma general_header s f b :
  front s = Some f -> back s = Some b ->
  Ascii.eqb f "[" && Ascii.eqb b "]" = true ->
  Str.substr 1 (String.length s - 2) s = "general" ->
  s = "[general]".
Proof.
  intros Hf Hb Hfb Hsub. apply andb_true_iff in Hfb. destruct Hfb as [Ef Eb].
  apply Ascii.eqb_eq in Ef, Eb. subst f b.
  destruct s as [|a t]; [discriminate|]. simpl in Hf. injection Hf as ->.
  destruct t as [|c t]; [discriminate|].
  change (back (String "[" (String c t))) with (back (String c t)) in Hb.
  pose proof (back_last _ Hb) as E.
  unfold Str.substr in Hsub. cbn [Str.drop String.length] in Hsub.
  replace (S (S (String.length t)) - 2) with (String.length (String c t) - 1)
    in Hsub by (simpl; lia).
  rewrite Hsub in E. rewrite E. reflexivity.
Qed.

Lemma ini_scan_outside : forall lines section,
  section <> "general" ->
  Forall (fun l => TrimLower l <> "[general]") lines ->
  ini_scan section lines = "".
Proof.
  induction lines as [|line rest IH]; intros section Hs Hall;
    [reflexivity|].
  inversion Hall as [|? ? Hline Hrest]; subst. cbn [ini_scan].
  set (s := TrimLower line) in *.
  pose proof (IH section Hs Hrest) as Hskip.
  assert (Hout : negb (section =? "general") = true).
  { apply String.eqb_neq in Hs. now rewrite Hs. }
  destruct (s =? ""); [exact Hskip|].
  destruct (Str.starts_with ";" s || Str.starts_with "#" s); [exact Hskip|].
  destruct (front s) as [f|] eqn:Hf; destruct (back s) as [b|] eqn:Hb;
    try (rewrite Hout; exact Hskip).
  destruct (Ascii.eqb f "[" && Ascii.eqb b "]") eqn:Hfb;
    [|rewrite Hout; exact Hskip].
  apply IH; [|exact Hrest]. intros Hsub. apply Hline.
  exact (@general_header s f b Hf Hb Hfb Hsub).
Qed.

Lemma classify_codes key :
  fst (classify key) = "" \/ In (fst (classify key)) codes.
Proof.
  unfold classify, codes.
  repeat match goal with
         | |- context [if ?b then _ else _] =>
             destruct b; [right; simpl; tauto|]
         end.
  now left.
Qed.

Lemma codes_clean c : In c codes -> SanitizeInPlace c = c /\ c <> "".
Proof.
  unfold codes. simpl.
  intros [<-|[<-|[<-|[<-|[<-|[<-|[<-|[<-|[<-|[]]]]]]]]]];
    split; try reflexivity; discriminate.
Qed.

End LanguageFacts.

Section LanguageProperties.

Variable float : Type.

Import Language LanguageFacts.
Local Open Scope string_scope.

(** X16. Whatever the game setting and the two ini files hold, the
    language that the plugin asks the client to send is one of the nine
    codes en, ru, fr, it, de, es, pl, ja, cn, or nothing at all: a
    language that [DetectGameLanguage] does not know has an empty code,
    and then [TryDetectAndSendGameLanguage] leaves the client untouched.
    A known code is stored as it is, and its line [LANG|<code>] is due
    for the next cycle unless that code was the last one sent. *)
Theorem only_known_languages (setting : option string) (files : IniFiles)
    (st : PipeClient float) :
  let info := DetectGameLanguage setting files in
  let op := @TryDetectAndSendGameLanguage float setting files in
  (code info = "" \/ In (code info) codes)
  /\ (code info = "" -> run op st = (Done tt, mkWorld st []))
  /\ (code info <> "" ->
      exec op st = set_desiredGameLang (Some (code info)) st
      /\ (lastSentGameLang st <> Some (code info) ->
          lang_lines (exec op st) = [("LANG|" ++ code info)%string]%list)).
Proof.
  cbv zeta.
  assert (Hcodes : code (DetectGameLanguage setting files) = ""
                   \/ In (code (DetectGameLanguage setting files)) codes).
  { unfold DetectGameLanguage.
    match goal with
    | |- context [if ?b then mkInfo "" "" "" else _] => destruct b
    end; [now left|]. cbn [code]. apply classify_codes. }
  split; [exact Hcodes|]. unfold TryDetectAndSendGameLanguage. split.
  - intros ->. reflexivity.
  - intros Hne. destruct Hcodes as [E|Hin]; [now elim Hne|].
    destruct (@codes_clean _ Hin) as [Hclean _].
    apply String.eqb_neq in Hne. rewrite Hne.
    assert (E : exec (SendGameLanguage (code (DetectGameLanguage setting files)))
                  st
                = set_desiredGameLang
                    (Some (code (DetectGameLanguage setting files))) st).
    { unfold SendGameLanguage. rewrite Hclean, Hne. reflexivity. }
    split; [exact E|]. intros Hlast. rewrite E.
    unfold lang_lines. cbn [desiredGameLang lastSentGameLang set_desiredGameLang].
    destruct (lastSentGameLang st) as [l|]; [|reflexivity].
    cbn [differs].
    destruct (String.eqb_spec l (code (DetectGameLanguage setting files)))
      as [->|_]; [now elim Hlast|reflexivity].
Qed.

(** X17. [ReadLanguageFromIni] reads the key [sLanguage] in the section
    [General] only: a file that does not open, and a file in which no
    line, trimmed and in lower case, is the header [[general]], give no
    language, whatever assignments of [sLanguage] they hold before any
    header or in other sections. Then the other file decides, and with
    no language from either file the setting of the game. *)
Theorem ini_language_needs_general (custom ini : list string)
    (setting : option string) :
  Forall (fun l => TrimLower l <> "[general]") custom ->
  ReadLanguageFromIni None = ""
  /\ ReadLanguageFromIni (Some custom) = ""
  /\ ReadLanguageFromIniFiles (mkIniFiles true (Some custom) (Some ini))
     = ReadLanguageFromIni (Some ini)
  /\ (Forall (fun l => TrimLower l <> "[general]") ini ->
      raw (DetectGameLanguage setting
             (mkIniFiles true (Some custom) (Some ini)))
      = match setting with Some s => s | None => "" end).
Proof.
  intros Hc.
  assert (E : ReadLanguageFromIni (Some custom) = "").
  { apply ini_scan_outside; [discriminate|exact Hc]. }
  split; [reflexivity|]. split; [exact E|]. split.
  - unfold ReadLanguageFromIniFiles. cbn [myGames SkyrimCustom_ini Skyrim_ini negb].
    now rewrite E.
  - intros Hi.
    assert (E' : ReadLanguageFromIni (Some ini) = "").
    { apply ini_scan_outside; [discriminate|exact Hi]. }
    unfold DetectGameLanguage, ReadLanguageFromIniFiles.
    cbn [myGames SkyrimCustom_ini Skyrim_ini negb].
    rewrite E. cbn [String.eqb negb]. rewrite E'. cbn [String.eqb negb].
    destruct setting as [s|]; [|reflexivity].
    destruct (s =? "") eqn:Es; [apply String.eqb_eq in Es; now subst|].
    rewrite Es. reflexivity.
Qed.

End LanguageProperties.

Module SettingsFacts.

Import Settings.
Local Open Scope Z_scope.

Lemma write_bools_all (ok : nat -> bool) : forall vs n,
  (forall k, ok k = true) ->
  write_bools ok n vs = List.map (fun v : bool => if v then 1 else 0) vs.
Proof.
  induction vs as [|v vs IH]; intros n Hok; simpl; [reflexivity|].
  now rewrite Hok, IH.
Qed.

(** The bytes written up to the first call that fails. *)
Lemma write_bools_stops (ok : nat -> bool) : forall vs n k,
  (forall j, (j < k)%nat -> ok (n + j)%nat = true) ->
  ok (n + k)%nat = false -> (k < List.length vs)%nat ->
  write_bools ok n vs
  = List.map (fun v : bool => if v then 1 else 0) (firstn k vs).
Proof.
  induction vs as [|v vs IH]; intros n k Hbefore Hk Hlen;
    [simpl in Hlen; lia|].
  destruct k as [|k].
  - simpl. rewrite Nat.add_0_r in Hk. now rewrite Hk.
  - simpl. rewrite <- (Nat.add_0_r n), (Hbefore 0%nat) by lia.
    f_equal. apply IH.
    + intros j Hj. replace (S (n + 0) + j)%nat with (n + S j)%nat by lia.
      apply Hbefore. lia.
    + now replace (S (n + 0) + k)%nat with (n + S k)%nat by lia.
    + simpl in Hlen. lia.
Qed.

Lemma bit_back (v : bool) : negb ((if v then 1 else 0) =? 0) = v.
Proof. now destruct v. Qed.

(** Reading back what was written, whatever follows it in the record. *)
Lemma read_settings_members s extra :
  read_settings
    (List.map (fun v : bool => if v then 1 else 0) (members s) ++ extra)
  = Some s.
Proof.
  destruct s. unfold members, read_settings. cbn [List.map app readBool].
  rewrite !bit_back. reflexivity.
Qed.

Lemma read_settings_short data :
  (List.length data < 11)%nat -> read_settings data = None.
Proof.
  intros H. unfold read_settings.
  do 11 (destruct data as [|? data]; [reflexivity|]; cbn [readBool]).
  simpl in H. lia.
Qed.

End SettingsFacts.

Section SettingsProperties.

Variable float : Type.
Variable float_zero : float.
Variable stof : string -> option float.

Import Settings SettingsFacts.
Local Open Scope list_scope.

Abbreviation Client := (PipeClient float).
Abbreviation iteration := (ThreadMain_iteration float_zero stof).

Lemma load_records_foreign : forall before rest cur loaded,
  Forall foreign before ->
  load_records float (before ++ rest) cur loaded
  = load_records float rest cur loaded.
Proof.
  induction before as [|r before IH]; intros rest cur loaded H;
    [reflexivity|].
  inversion H as [|? ? Hr Hb]; subst. cbn [app load_records].
  destruct Hr as [Ht|Hv].
  - apply Z.eqb_neq in Ht. rewrite Ht. cbn [negb]. now apply IH.
  - apply Z.eqb_neq in Hv. rewrite Hv. cbn [negb].
    destruct (rec_type r =? kSettingsRecord)%Z; cbn [negb]; now apply IH.
Qed.

Lemma load_records_only_foreign : forall after cur loaded,
  Forall foreign after ->
  load_records float after cur loaded = (cur, ret tt).
Proof.
  intros after cur loaded H.
  rewrite <- (app_nil_r after). now rewrite load_records_foreign.
Qed.

(** X18. The settings survive a save and a load. When every write
    succeeds, [SaveSettings] writes one record of type DVCS, version 1,
    with the eleven settings as eleven bytes; [LoadSettings] on a co-save
    that holds this record, among any records of another type or
    version and with any bytes after the eleven (a later version of
    the record), stores exactly the settings that were saved, whatever
    the settings were before. *)
Theorem settings_survive_save_and_load (s old : Settings) (loaded : bool)
    (before after : list SerdeRecord) (extra : list Z) :
  Forall foreign before -> Forall foreign after ->
  exists bytes,
    SaveSettings true true (fun _ => true) s
    = Some (mkRecord kSettingsRecord kSettingsRecordVersion bytes)
    /\ List.length bytes = kSettingsDataSize
    /\ fst (LoadSettings float
              (Some (before
                       ++ mkRecord kSettingsRecord kSettingsRecordVersion
                            (bytes ++ extra) :: after))
              old loaded)
       = s.
Proof.
  intros Hb Ha.
  exists (List.map (fun v : bool => if v then 1%Z else 0%Z) (members s)).
  split; [|split].
  - unfold SaveSettings. cbn [negb]. now rewrite write_bools_all.
  - reflexivity.
  - unfold LoadSettings. rewrite load_records_foreign by exact Hb.
    cbn [load_records rec_type rec_version rec_data].
    rewrite !Z.eqb_refl. cbn [negb].
    rewrite read_settings_members.
    rewrite load_records_only_foreign by exact Ha. reflexivity.
Qed.

(** X19. A settings record that is cut short is never applied. When a
    call of [WriteRecordData] fails, [SaveSettings] leaves a record with
    the bytes written before it. [LoadSettings] that meets a record of
    type DVCS and version 1 with fewer than eleven bytes returns at
    once: it leaves the settings and the pipe client as they are and
    does not read the records after it, not even a complete one. *)
Theorem truncated_settings_record (s old : Settings) (loaded : bool)
    (write_ok : nat -> bool) (k : nat) (rest : list SerdeRecord) :
  (k < kSettingsDataSize)%nat ->
  (forall j, (j < k)%nat -> write_ok j = true) -> write_ok k = false ->
  exists bytes,
    SaveSettings true true write_ok s
    = Some (mkRecord kSettingsRecord kSettingsRecordVersion bytes)
    /\ List.length bytes = k
    /\ LoadSettings float
         (Some (mkRecord kSettingsRecord kSettingsRecordVersion bytes :: rest))
         old loaded
       = (old, ret tt).
Proof.
  intros Hk Hbefore Hfail.
  exists (List.map (fun v : bool => if v then 1%Z else 0%Z)
            (firstn k (members s))).
  assert (Hlen : List.length
                   (List.map (fun v : bool => if v then 1%Z else 0%Z)
                      (firstn k (members s))) = k).
  { rewrite length_map, length_firstn. unfold kSettingsDataSize in Hk.
    change (List.length (members s)) with 11%nat. lia. }
  split; [|split; [exact Hlen|]].
  - unfold SaveSettings. cbn [negb]. f_equal. f_equal.
    apply (@write_bools_stops write_ok (members s) 0 k);
      [exact Hbefore|exact Hfail|].
    change (List.length (members s)) with 11%nat. exact Hk.
  - unfold LoadSettings. cbn [load_records rec_type rec_version rec_data].
    rewrite !Z.eqb_refl. cbn [negb].
    rewrite read_settings_short; [reflexivity|].
    rewrite Hlen. exact Hk.
Qed.


Lemma tag_nil x (l : list string) : tag x l = [] -> l = [].
Proof. now destruct l. Qed.

(** Nothing waits in a client that has nothing due. *)
Lemma due_nil (st : Client) :
  due st = [] ->
  lang_lines st = [] /\ options_lines st = [] /\ close_lines st = []
  /\ favorites_due st = [] /\ listen_lines st = []
  /\ listen_shouts_lines st = [].
Proof.
  unfold due. intros H.
  repeat match type of H with
         | _ ++ _ = [] =>
             apply app_eq_nil in H;
             let H1 := fresh "H" in destruct H as [H1 H];
             apply tag_nil in H1
         end.
  apply tag_nil in H. repeat split; assumption.
Qed.


End SettingsProperties.

Section RuntimeProperties.

Variable float : Type.
Variable float_zero : float.
Variable stof : string -> option float.

Local Open Scope string_scope.

Abbreviation Client := (PipeClient float).
Abbreviation iteration := (ThreadMain_iteration float_zero stof).

(** X21. What a RES line can make the poll thread do. Whatever the line
    is, the response that [decode_RES] builds from it is answered by a
    selection, by the task that hides the menu, or by nothing: never by
    a trigger handler or a notification. An option is selected only
    while the dialogue is open and dialogue selection is enabled, and
    only with an index that is not negative, read by [std::stoi] from
    the field of the line, whose score converts too (a score that does
    not convert resets the index to -1). The menu is hidden only for the
    index -2, and only when voice close and dialogue selection are both
    enabled. *)
Theorem voice_selection_is_guarded (line : string)
    (isOpen selectEnabled closeEnabled : bool) :
  let a := dispatch (decode_RES float_zero stof line) isOpen selectEnabled
             closeEnabled in
  (a = ActNothing \/ a = ActHideMenu \/ exists i, a = ActSelect i)
  /\ (forall i, a = ActSelect i ->
        isOpen = true /\ selectEnabled = true /\ (0 <= i)%Z
        /\ exists p1 f,
             Str.find BAR 4 line = Some p1
             /\ stoi (Str.substr 4 (p1 - 4) line) = Some i
             /\ stof (Str.substr_from (p1 + 1) line) = Some f)
  /\ (a = ActHideMenu ->
        isOpen = true /\ selectEnabled = true /\ closeEnabled = true
        /\ exists p1 f,
             Str.find BAR 4 line = Some p1
             /\ stoi (Str.substr 4 (p1 - 4) line) = Some (-2)%Z
             /\ stof (Str.substr_from (p1 + 1) line) = Some f).
Proof.
  cbv zeta. unfold decode_RES, try_RES.
  destruct (Str.find BAR 4 line) as [p1|] eqn:Hfind.
  - unfold try_bind, try_call, try_set.
    destruct (stoi (Str.substr 4 (p1 - 4) line)) as [i|] eqn:Hi.
    + destruct (stof (Str.substr_from (p1 + 1) line)) as [f|] eqn:Hf.
      * unfold dispatch. cbn [type index set_score set_index set_type].
        cbn [String.eqb Ascii.eqb Bool.eqb andb].
        destruct isOpen; cbn [andb];
          [|repeat split; auto; discriminate].
        destruct selectEnabled; cbn [negb];
          [|repeat split; auto; discriminate].
        destruct (Z.eqb_spec i (-2)) as [->|Hne].
        -- destruct closeEnabled; cbn [negb].
           ++ split; [auto|]. split; [discriminate|].
              intros _. repeat split. exists p1, f. auto.
           ++ repeat split; auto; discriminate.
        -- destruct (Z.ltb_spec i 0) as [Hneg|Hpos].
           ++ repeat split; auto; discriminate.
           ++ split; [right; right; now exists i|]. split; [|discriminate].
              intros j [= <-]. repeat split; auto. exists p1, f. auto.
      * unfold dispatch. cbn [type index set_score set_index set_type].
        cbn [String.eqb Ascii.eqb Bool.eqb andb].
        destruct isOpen, selectEnabled; cbn;
          repeat split; auto; discriminate.
    + unfold dispatch. cbn [type index set_score set_index set_type].
      cbn [String.eqb Ascii.eqb Bool.eqb andb].
      destruct isOpen, selectEnabled; cbn;
        repeat split; auto; discriminate.
  - unfold try_ret, dispatch.
    cbn [type index set_score set_index set_type resp_default].
    cbn [String.eqb Ascii.eqb Bool.eqb andb].
    destruct isOpen, selectEnabled; cbn;
      repeat split; auto; discriminate.
Qed.


Variable ticks_per_ms : Z.

Abbreviation step := (focus_step ticks_per_ms).





(** X23. The open trigger. A line [TRIG|open|<score>|<text>] is handed
    to [HandleOpenTrigger] whether or not a dialogue is open. With voice
    open enabled and a focused actor that is still a valid target, the
    handler switches the listen mode off, asks the client for LISTEN|0
    and LISTEN|SHOUTS|0 (on a connection with nothing else waiting the
    next cycle sends these two lines, in this order) and queues the
    activation of the focused actor; otherwise it does nothing. The
    focused actor is the one seen when the focus was acquired: a poll
    that sees another actor while the focus lasts keeps the handle. *)
Theorem open_trigger_activates_focus (sc text : string) (fl : float)
    (isOpen selectEnabled closeEnabled : bool) (f : FocusState) (h : nat)
    (resolve : nat -> option bool) (st : Client) env (i : PollInput) :
  Str.mem BAR sc = false -> stof sc = Some fl ->
  focusedActorHandle f = Some h ->
  live st -> due st = [] -> channel_ok env ->
  let resp := decode_TRIG float_zero stof ("TRIG|open|" ++ sc ++ "|" ++ text) in
  dispatch resp isOpen selectEnabled closeEnabled = ActOpen resp
  /\ trigText resp = text
  /\ (resolve h = Some true ->
      let r := HandleOpenTrigger float true resolve f in
      listenModeActive (fst (fst r)) = false
      /\ snd r = [ActivateTask h]
      /\ List.map snd
           (sent (events (iteration env) (exec (snd (fst r)) st)))
         = ["LISTEN|0"; "LISTEN|SHOUTS|0"]%list)
  /\ (resolve h <> Some true ->
      HandleOpenTrigger float true resolve f = (f, ret tt, []%list))
  /\ HandleOpenTrigger float false resolve f = (f, ret tt, []%list)
  /\ (dialogueOpen i = false -> voiceOpenEnabled i = true ->
      gamePaused i = false -> hadFocusLastPoll f = true ->
      currentTarget i <> None ->
      focusedActorHandle (fst (step f i)) = Some h).
Proof.
  intros Hsc Hfl Hh Hlive Hdue Hok. cbv zeta.
  assert (Hresp : decode_TRIG float_zero stof
                    ("TRIG|open|" ++ sc ++ "|" ++ text)
                  = mkResp (-1) fl "TRIG" "open" text "" "" 0 "" "").
  { refine (@decode_plain_layout float float_zero stof "open" sc text fl
              eq_refl Hsc _ _ _ _ _ Hfl); discriminate. }
  rewrite Hresp.
  split; [reflexivity|]. split; [reflexivity|]. split; [|split; [|split]].
  - intros Hr. unfold HandleOpenTrigger. rewrite Hh, Hr.
    cbn [negb fst snd listenModeActive set_listenModeActive].
    split; [reflexivity|]. split; [reflexivity|].
    set (st' := exec (SendListen false ;; SendListenShouts false) st).
    assert (Hb : cycle_begins env st').
    { left. destruct Hlive as [? ?]. now split. }
    rewrite (iteration_sent_ok float_zero stof Hb Hok).
    destruct (@due_nil float st Hdue) as (Hl & Ho & Hc & Hf & Hn & Hs).
    assert (Hcfg : forall c, cfg_lines c st = []%list).
    { intros c. unfold due in Hdue.
      destruct c;
        repeat match type of Hdue with
               | (_ ++ _)%list = []%list =>
                   apply app_eq_nil in Hdue;
                   let H1 := fresh "H" in destruct Hdue as [H1 Hdue];
                   try (apply (@tag_nil (SiteCfg _)) in H1; exact H1)
               end. }
    unfold due.
    change (lang_lines st') with (lang_lines st).
    change (options_lines st') with (options_lines st).
    change (close_lines st') with (close_lines st).
    change (favorites_due st') with (favorites_due st).
    change (cfg_lines CfgOpen st') with (cfg_lines CfgOpen st).
    change (cfg_lines CfgClose st') with (cfg_lines CfgClose st).
    change (cfg_lines CfgVoiceHandle st') with (cfg_lines CfgVoiceHandle st).
    change (cfg_lines CfgDebug st') with (cfg_lines CfgDebug st).
    change (cfg_lines CfgSaveWav st') with (cfg_lines CfgSaveWav st).
    change (cfg_lines CfgDialogueSelect st')
      with (cfg_lines CfgDialogueSelect st).
    change (cfg_lines CfgWeapons st') with (cfg_lines CfgWeapons st).
    change (cfg_lines CfgSpells st') with (cfg_lines CfgSpells st).
    change (cfg_lines CfgPowers st') with (cfg_lines CfgPowers st).
    change (cfg_lines CfgPotions st') with (cfg_lines CfgPotions st).
    rewrite Hl, Ho, Hc, Hf, !Hcfg. reflexivity.
  - intros Hr. unfold HandleOpenTrigger. rewrite Hh. cbn [negb].
    destruct (resolve h) as [[|]|]; [now elim Hr|reflexivity|reflexivity].
  - reflexivity.
  - intros Hd Hv Hp Hhad Ht. unfold focus_step. rewrite Hd, Hv, Hp, Hhad.
    cbn [negb]. destruct (currentTarget i) as [h'|]; [|now elim Ht].
    cbn [andb negb listenModeActive focusedActorHandle focusAcquiredTime].
    destruct (negb (listenModeActive f)
              && (kFocusOnDelayMs
                  <=? milliseconds ticks_per_ms
                        (now i - focusAcquiredTime f))%Z);
      exact Hh.
Qed.

End RuntimeProperties.

Section DialogueProperties.

Variable float : Type.
Variable float_zero : float.
Variable stof : string -> option float.

Import Dialogue.
Local Open Scope string_scope.

Abbreviation Client := (PipeClient float).
Abbreviation iteration := (ThreadMain_iteration float_zero stof).

Lemma list_eqb_refl (l : list string) : list_eqb l l = true.
Proof. unfold list_eqb. now destruct (list_eq_dec string_dec l l). Qed.

Lemma list_eqb_neq (a b : list string) : a <> b -> list_eqb a b = false.
Proof.
  intros H. unfold list_eqb. now destruct (list_eq_dec string_dec a b).
Qed.

(** X24. [LogOptionsIfChanged] remembers the snapshot of the topics and
    sends it to the client only when it differs from the last one and is
    not empty: a second call that finds the same topics leaves the
    dialogue state and the client untouched, and a snapshot that became
    empty is remembered but not sent (the client keeps no empty batch).
    The snapshot holds no empty text. *)
Theorem options_are_sent_on_change (topics : option (list (option string)))
    (d : DialogueState) (st : Client) :
  let opts := SnapshotDialogueOptions topics in
  let r := LogOptionsIfChanged float topics d in
  lastOptions (fst r) = opts
  /\ ~ In "" opts
  /\ (opts <> lastOptions d -> opts <> []%list ->
      exec (snd r) st = set_pendingOptions (Some opts) st)
  /\ (opts = lastOptions d \/ opts = []%list ->
      run (snd r) st = (Done tt, mkWorld st []))
  /\ LogOptionsIfChanged float topics (fst r) = (fst r, ret tt).
Proof.
  cbv zeta. unfold LogOptionsIfChanged.
  set (opts := SnapshotDialogueOptions topics).
  assert (Hclean : ~ In "" opts).
  { unfold opts, SnapshotDialogueOptions. destruct topics as [l|]; [|auto].
    intros Hin. apply in_flat_map in Hin. destruct Hin as ([t|] & _ & Ht).
    - revert Ht. destruct (t =? "") eqn:E; intros Ht; [now elim Ht|].
      destruct Ht as [Ht|[]]. subst t. discriminate.
    - now elim Ht. }
  destruct (list_eq_dec string_dec opts (lastOptions d)) as [E|N].
  - rewrite E at 1. rewrite <- E. rewrite list_eqb_refl.
    cbn [fst snd]. rewrite <- E, list_eqb_refl.
    repeat split; auto. intros Hne. now elim Hne.
  - rewrite (list_eqb_neq N). cbn [fst snd lastOptions].
    rewrite list_eqb_refl.
    split; [reflexivity|]. split; [exact Hclean|]. split; [|split].
    + intros _ Hne. unfold SendOptionsToPipe_IfAny. cbn [lastOptions].
      destruct opts; [now elim Hne|reflexivity].
    + intros [E|E]; [now elim N|].
      unfold SendOptionsToPipe_IfAny. cbn [lastOptions]. now rewrite E.
    + reflexivity.
Qed.

(** The lines due in a client that had nothing due, once options, CLOSE
    and a LISTEN|SHOUTS command were put in. *)
Lemma due_dialogue (st : Client) (o : option (list string)) (c : bool)
    (l : option bool) :
  due st = []%list ->
  List.map snd
    (due (set_pendingListenVoiceHandle l
            (set_pendingClose c (set_pendingOptions o st))))
  = ((match o with Some opts => options_batch opts | None => [] end)
       ++ (if c then ["CLOSE"%string] else [])
       ++ match l with
          | Some on => [("LISTEN|SHOUTS|" ++ bit on)%string]
          | None => []
          end)%list.
Proof.
  intros Hdue.
  destruct (@due_nil float st Hdue) as (Hl & Ho & Hc & Hf & Hn & Hs).
  assert (Hcfg : forall x, cfg_lines x st = []%list).
  { intros x. unfold due in Hdue.
    destruct x;
      repeat match type of Hdue with
             | (_ ++ _)%list = []%list =>
                 apply app_eq_nil in Hdue;
                 let H1 := fresh "H" in destruct Hdue as [H1 Hdue];
                 try (apply (@tag_nil (SiteCfg _)) in H1; exact H1)
             end. }
  set (st' := set_pendingListenVoiceHandle l
                (set_pendingClose c (set_pendingOptions o st))).
  unfold due.
  change (lang_lines st') with (lang_lines st).
  change (favorites_due st') with (favorites_due st).
  change (listen_lines st') with (listen_lines st).
  change (cfg_lines CfgOpen st') with (cfg_lines CfgOpen st).
  change (cfg_lines CfgClose st') with (cfg_lines CfgClose st).
  change (cfg_lines CfgVoiceHandle st') with (cfg_lines CfgVoiceHandle st).
  change (cfg_lines CfgDebug st') with (cfg_lines CfgDebug st).
  change (cfg_lines CfgSaveWav st') with (cfg_lines CfgSaveWav st).
  change (cfg_lines CfgDialogueSelect st')
    with (cfg_lines CfgDialogueSelect st).
  change (cfg_lines CfgWeapons st') with (cfg_lines CfgWeapons st).
  change (cfg_lines CfgSpells st') with (cfg_lines CfgSpells st).
  change (cfg_lines CfgPowers st') with (cfg_lines CfgPowers st).
  change (cfg_lines CfgPotions st') with (cfg_lines CfgPotions st).
  rewrite Hl, Hf, Hn, !Hcfg. cbn [tag List.map app].
  assert (Htag : forall x (ls : list string), List.map snd (tag x ls) = ls).
  { intros x ls. unfold tag. rewrite map_map. cbn [snd]. apply map_id. }
  rewrite !map_app, !Htag.
  unfold options_lines, close_lines, listen_shouts_lines, st'.
  cbn [pendingOptions pendingClose pendingListenVoiceHandle
       set_pendingOptions set_pendingClose set_pendingListenVoiceHandle].
  destruct o as [opts|], c, l as [on|]; reflexivity.
Qed.


Lemma pendingClose_not_due (st : Client) :
  due st = []%list -> pendingClose st = false.
Proof.
  intros Hdue. destruct (@due_nil float st Hdue) as (_ & _ & Hc & _).
  unfold close_lines in Hc. now destruct (pendingClose st).
Qed.

(** X25. A dialogue on the wire, on a connection with nothing else
    waiting and no refused write. When the dialogue menu opens with
    topics, the next cycle sends the batch of the options (OPEN|n, one
    OPT line for each topic, END) and then LISTEN|SHOUTS|0. When the
    menu opens and closes before the cycle, the cycle sends the batch,
    then CLOSE, then one LISTEN|SHOUTS line, 1 if the shouts are enabled.
    When the menu closes and opens again before the cycle, the CLOSE of
    the dialogue that ended is sent after the options of the one that
    began: the wire has the order of the blocks of [ThreadMain], not the
    order of the events. An event of another menu does nothing. *)
Theorem dialogue_on_the_wire (topics : option (list (option string)))
    (shouts : bool) (d : DialogueState) (st : Client) env :
  live st -> due st = []%list -> channel_ok env ->
  SnapshotDialogueOptions topics <> []%list ->
  let opts := SnapshotDialogueOptions topics in
  let wire := fun st' => List.map snd (sent (events (iteration env) st')) in
  let opened := ProcessEvent float "Dialogue Menu" true topics shouts in
  let closed := ProcessEvent float "Dialogue Menu" false topics shouts in
  wire (exec (snd (opened d)) st)
  = (options_batch opts ++ ["LISTEN|SHOUTS|0"])%list
  /\ wire (exec (snd (closed (fst (opened d)))) (exec (snd (opened d)) st))
     = (options_batch opts
          ++ ["CLOSE"; ("LISTEN|SHOUTS|" ++ bit shouts)%string])%list
  /\ wire (exec (snd (opened (fst (closed d)))) (exec (snd (closed d)) st))
     = (options_batch opts ++ ["CLOSE"; "LISTEN|SHOUTS|0"])%list
  /\ isOpen (fst (opened d)) = true
  /\ isOpen (fst (closed d)) = false
  /\ (forall name opening,
        name <> "Dialogue Menu" ->
        ProcessEvent float name opening topics shouts d = (d, ret tt)).
Proof.
  intros Hlive Hdue Hok Hne. cbv zeta.
  set (opts := SnapshotDialogueOptions topics) in *.
  pose proof (pendingClose_not_due st Hdue) as Hclose.
  assert (Hlog : forall inflight o,
             LogOptionsIfChanged float topics (mkDialogue [] inflight o)
             = (mkDialogue opts inflight o, SendOptions opts)).
  { intros inflight o. unfold LogOptionsIfChanged. fold opts.
    cbn [lastOptions selectInFlight isOpen].
    rewrite (list_eqb_neq Hne). unfold SendOptionsToPipe_IfAny.
    cbn [lastOptions]. destruct opts; [now elim Hne|reflexivity]. }
  assert (Hopen : forall d', ProcessEvent float "Dialogue Menu" true topics
                               shouts d'
                             = (mkDialogue opts false true,
                                SendListenShouts false ;; SendOptions opts)).
  { intros d'. unfold ProcessEvent. cbn [String.eqb Ascii.eqb Bool.eqb].
    now rewrite Hlog. }
  assert (Hwire : forall (st' : Client) o c l,
             st' = set_pendingListenVoiceHandle l
                     (set_pendingClose c (set_pendingOptions o st)) ->
             List.map snd (sent (events (iteration env) st'))
             = ((match o with Some opts => options_batch opts | None => [] end)
                  ++ (if c then ["CLOSE"] else [])
                  ++ match l with
                     | Some on => [("LISTEN|SHOUTS|" ++ bit on)%string]
                     | None => []
                     end)%list).
  { intros st' o c l ->.
    rewrite (@iteration_sent_ok float float_zero stof env); [|left|exact Hok].
    - now apply due_dialogue.
    - destruct Hlive as [? ?]. now split. }
  rewrite !Hopen. cbn [fst snd].
  split; [|split; [|split; [|split; [|split]]]].
  - rewrite (Hwire _ (Some opts) false (Some false));
      [now rewrite app_nil_l|].
    destruct st; cbn in Hclose; subst; reflexivity.
  - rewrite (Hwire _ (Some opts) true (Some shouts)); [reflexivity|].
    unfold ProcessEvent. cbn [String.eqb Ascii.eqb Bool.eqb snd].
    destruct shouts; destruct st; reflexivity.
  - rewrite (Hwire _ (Some opts) true (Some false)); [reflexivity|].
    unfold ProcessEvent. cbn [String.eqb Ascii.eqb Bool.eqb snd].
    destruct shouts; destruct st; reflexivity.
  - reflexivity.
  - reflexivity.
  - intros name opening Hname. unfold ProcessEvent.
    apply String.eqb_neq in Hname. now rewrite Hname.
Qed.

End DialogueProperties.

Module LauncherFacts.

Import Launcher.
Local Open Scope string_scope.

(** The walk of [EnvKeyStartsWithNoCase] compares the whole key. *)
Lemma starts_with_is_equality : forall entry prefix,
  EnvKeyStartsWithNoCase entry prefix
  = (Str.map towupper (key_of entry) =? Str.map towupper prefix).
Proof.
  induction entry as [|pc p IH]; intros [|kc k]; try reflexivity.
  - cbn [EnvKeyStartsWithNoCase key_of].
    destruct (Ascii.eqb pc EQ); reflexivity.
  - cbn [EnvKeyStartsWithNoCase key_of].
    destruct (Ascii.eqb pc EQ); [reflexivity|].
    cbn [Str.map String.eqb].
    destruct (Ascii.eqb (towupper pc) (towupper kc)); cbn [negb];
      [apply IH|reflexivity].
Qed.

Lemma contains_tail tok a s : contains tok s = true ->
  contains tok (String a s) = true.
Proof. intros H. cbn [contains]. rewrite H. apply orb_true_r. Qed.

Lemma prefix_contains tok s : String.prefix tok s = true ->
  contains tok s = true.
Proof. intros H. destruct s; cbn [contains]; now rewrite H. Qed.

(** A text that holds [a ++ b] holds [b]. *)
Lemma contains_suffix (a b : string) : forall s,
  contains (a ++ b) s = true -> contains b s = true.
Proof.
  assert (Hp : forall a s, String.prefix (a ++ b) s = true ->
                           contains b s = true).
  { clear. induction a as [|c a IH]; intros s H.
    - now apply prefix_contains.
    - destruct s as [|d s]; [discriminate|]. cbn [String.append prefix] in H.
      apply contains_tail, IH.
      destruct (Ascii.ascii_dec c d); [exact H|discriminate]. }
  induction s as [|d s IH]; intros H.
  - cbn [contains] in H. rewrite orb_false_r in H. now apply Hp in H.
  - cbn [contains] in H. apply orb_true_iff in H. destruct H as [H|H].
    + now apply Hp in H.
    + apply contains_tail, IH, H.
Qed.

Lemma join_all_app (a b : list string) :
  join_all (a ++ b) = join_all a ++ join_all b.
Proof.
  induction a as [|e a IH]; [reflexivity|].
  cbn [app join_all]. rewrite IH, StrFacts.append_assoc. reflexivity.
Qed.

Lemma cut_entries (es : list string) : forall rest,
  Forall (fun e => Str.mem NUL e = false) es ->
  Str.cut NUL (join_all es ++ rest)
  = ((es ++ fst (Str.cut NUL rest))%list, snd (Str.cut NUL rest)).
Proof.
  induction es as [|e es IH]; intros rest H.
  - simpl. now destruct (Str.cut NUL rest).
  - inversion H as [|? ? He Hes]; subst.
    cbn [join_all]. rewrite StrFacts.append_assoc.
    change (String NUL (join_all es) ++ rest)
      with (String NUL (join_all es ++ rest)).
    rewrite (StrFacts.cut_app_sep NUL e _ He), (IH rest Hes).
    reflexivity.
Qed.

Lemma copy_env_filter skip : forall envs out,
  Forall env_string envs ->
  copy_env skip envs out
  = out ++ join_all (List.filter (fun p => negb (skip p)) envs).
Proof.
  induction envs as [|p envs IH]; intros out H.
  - simpl. now rewrite CutFacts.append_empty_r.
  - inversion H as [|? ? [Hne _] Hrest]; subst. cbn [copy_env List.filter].
    apply String.eqb_neq in Hne. rewrite Hne.
    destruct (skip p); cbn [negb]; [now apply IH|].
    rewrite (IH _ Hrest). cbn [join_all].
    now rewrite !StrFacts.append_assoc.
Qed.

Lemma join_all_snoc (es : list string) (a : string) :
  join_all (es ++ [a]) = join_all es ++ a ++ String NUL "".
Proof. now rewrite join_all_app. Qed.

Lemma join_all_three (es : list string) (a b c rest : string) :
  (((join_all es ++ a ++ String NUL "") ++ b ++ String NUL "")
     ++ c ++ String NUL "") ++ rest
  = join_all (es ++ [a; b; c]) ++ rest.
Proof.
  rewrite <- !join_all_snoc, <- !app_assoc. reflexivity.
Qed.

Lemma JoinPath_clean a b :
  Str.mem NUL a = false -> Str.mem NUL b = false ->
  Str.mem NUL (JoinPath a b) = false.
Proof.
  intros Ha Hb. unfold JoinPath.
  destruct (a =? ""); [exact Hb|]. destruct (b =? ""); [exact Ha|].
  destruct (last_char a) as [c|];
    [destruct (Ascii.eqb c "\" || Ascii.eqb c "/")|];
    rewrite !StrFacts.mem_app, ?Ha, ?Hb; reflexivity.
Qed.

(** No string that is kept has the key of a Python variable. *)
Lemma kept_without_key (vfs : string -> bool) (key : string) :
  (forall p, EnvKeyEqualsNoCase p key = true -> is_python_var p = true) ->
  forall envs,
    List.filter (fun e => EnvKeyEqualsNoCase e key)
      (List.filter (fun p => negb (is_python_var p || vfs p)) envs)
    = [].
Proof.
  intros Hkey. induction envs as [|p envs IH]; [reflexivity|].
  cbn [List.filter].
  destruct (is_python_var p) eqn:Ep; cbn [orb negb]; [exact IH|].
  destruct (vfs p); cbn [negb]; [exact IH|].
  cbn [List.filter].
  destruct (EnvKeyEqualsNoCase p key) eqn:Ek; [|exact IH].
  apply Hkey in Ek. congruence.
Qed.

End LauncherFacts.

Section LauncherProperties.

Import Launcher LauncherFacts.
Local Open Scope string_scope.

(** X26. What [IsVfsEnvVar] filters. The walk of
    [EnvKeyStartsWithNoCase] ends in success only when the key of the
    entry is used up together with the prefix, so it tests the key for
    equality, not for a prefix. [IsVfsEnvVar] therefore holds exactly for
    the entries whose key, in upper case, holds MO2 or VFS or is
    MODORGANIZER: a variable such as [ModOrganizer_Path] is not one of
    them. *)
Theorem vfs_filter_is_by_token (entry : string) :
  let K := Str.map towupper (key_of entry) in
  (forall prefix,
     EnvKeyStartsWithNoCase entry prefix = (K =? Str.map towupper prefix))
  /\ IsVfsEnvVar entry
     = contains "MO2" K || contains "VFS" K || (K =? "MODORGANIZER")
  /\ IsVfsEnvVar ("ModOrganizer_Path=" ++ entry) = false.
Proof.
  cbv zeta. split; [apply starts_with_is_equality|]. split; [|reflexivity].
  unfold IsVfsEnvVar, EnvKeyContainsTokenNoCase.
  rewrite !starts_with_is_equality.
  set (K := Str.map towupper (key_of entry)).
  change (Str.map towupper "USVFS") with "USVFS".
  change (Str.map towupper "MO2") with "MO2".
  change (Str.map towupper "VFS") with "VFS".
  change (Str.map towupper "MODORGANIZER") with "MODORGANIZER".
  destruct (String.eqb_spec K "USVFS") as [->|_]; [reflexivity|].
  destruct (String.eqb_spec K "MO2") as [->|_]; [reflexivity|].
  cbn [orb].
  destruct (contains "USVFS" K) eqn:Eus.
  - rewrite (@contains_suffix "US" "VFS" K Eus).
    now rewrite !orb_true_r.
  - destruct (K =? "MODORGANIZER"), (contains "MO2" K), (contains "VFS" K);
      reflexivity.
Qed.

(** X27. The environment that the runtime is started with. From the
    strings of the environment of the game (none of them empty or with a
    terminator inside), [BuildEnvBlock_ForRuntimeExe] builds a block
    whose strings are: the strings of the game, in their order, without
    those whose key is PYTHONHOME, PYTHONPATH or PYTHONNOUSERSITE in any
    case and without those that [IsVfsEnvVar] names; then the three
    Python variables of the runtime; then the empty string that ends
    the block. So the block holds exactly one string for each of the
    three keys, whatever the game had. *)
Theorem runtime_env_block (envs : list string) (runtimeDir logDir : string) :
  Forall env_string envs -> Str.mem NUL runtimeDir = false ->
  let block := BuildEnvBlock_ForRuntimeExe (Some envs) runtimeDir logDir in
  let internalDir := JoinPath runtimeDir "_internal" in
  let home := "PYTHONHOME=" ++ internalDir in
  let path := "PYTHONPATH=" ++ JoinPath internalDir "base_library.zip"
                ++ ";" ++ JoinPath internalDir "python3.12\lib-dynload"
                ++ ";" ++ internalDir in
  entries_of block
  = (List.filter (fun p => negb (is_python_var p || IsVfsEnvVar p)) envs
       ++ [home; path; "PYTHONNOUSERSITE=1"; ""])%list
  /\ entries_with_key "PYTHONHOME" block = [home]
  /\ entries_with_key "PYTHONPATH" block = [path]
  /\ entries_with_key "PYTHONNOUSERSITE" block = ["PYTHONNOUSERSITE=1"]
  /\ snd (Str.cut NUL block) = "".
Proof.
  intros Henv Hdir. cbv zeta.
  set (internalDir := JoinPath runtimeDir "_internal").
  set (zip := JoinPath internalDir "base_library.zip").
  set (dyn := JoinPath internalDir "python3.12\lib-dynload").
  set (kept := List.filter
                 (fun p => negb (is_python_var p || IsVfsEnvVar p)) envs).
  assert (Hint : Str.mem NUL internalDir = false)
    by (apply JoinPath_clean; [exact Hdir|reflexivity]).
  assert (Hzip : Str.mem NUL zip = false)
    by (apply JoinPath_clean; [exact Hint|reflexivity]).
  assert (Hdyn : Str.mem NUL dyn = false)
    by (apply JoinPath_clean; [exact Hint|reflexivity]).
  set (home := ("PYTHONHOME=" ++ internalDir)%string).
  set (path := ("PYTHONPATH=" ++ zip ++ ";" ++ dyn ++ ";" ++ internalDir)%string).
  assert (Hblock : BuildEnvBlock_ForRuntimeExe (Some envs) runtimeDir logDir
                   = (join_all (kept ++ [home; path; "PYTHONNOUSERSITE=1"])
                        ++ String NUL "")%string).
  { unfold BuildEnvBlock_ForRuntimeExe, AppendEnvVar.
    rewrite (copy_env_filter _ "" Henv). fold kept internalDir zip dyn.
    exact (join_all_three kept home path "PYTHONNOUSERSITE=1"
             (String NUL "")). }
  assert (Hclean : Forall (fun e => Str.mem NUL e = false)
                     (kept ++ [home; path; "PYTHONNOUSERSITE=1"])).
  { apply Forall_app. split.
    - unfold kept. apply Forall_forall. intros p Hp.
      apply filter_In in Hp. destruct Hp as [Hp _].
      rewrite Forall_forall in Henv. now apply Henv.
    - unfold home, path. repeat constructor;
        rewrite ?StrFacts.mem_app, ?Hint, ?Hzip, ?Hdyn; reflexivity. }
  assert (Hentries : entries_of
                       (BuildEnvBlock_ForRuntimeExe (Some envs) runtimeDir
                          logDir)
                     = (kept ++ [home; path; "PYTHONNOUSERSITE=1"; ""])%list).
  { unfold entries_of. rewrite Hblock, (cut_entries _ Hclean).
    cbn [fst]. rewrite <- app_assoc. reflexivity. }
  split; [exact Hentries|].
  unfold entries_with_key. rewrite Hentries, !filter_app.
  unfold kept.
  rewrite !kept_without_key.
  - split; [reflexivity|]. split; [reflexivity|]. split; [reflexivity|].
    rewrite Hblock, (cut_entries _ Hclean). reflexivity.
  - intros p Hp. unfold is_python_var. rewrite Hp. now rewrite !orb_true_r.
  - intros p Hp. unfold is_python_var. rewrite Hp. now rewrite !orb_true_r.
  - intros p Hp. unfold is_python_var. now rewrite Hp.
Qed.

End LauncherProperties.

(* ================================================================== *)
(** * The theorems at concrete inputs *)
(* ================================================================== *)

Module Checks.

Import Sample.
Local Open Scope string_scope.

Lemma accepts_ok : channel_ok env_silent.
Proof. intros n. reflexivity. Defined.


(** C2 in the burst of section 8.7: CFG|SHOUTS|1, then LISTEN|SHOUTS|1. *)
Lemma transmission_order_witness :
  cycle_begins env_silent client_burst
  /\ sent (events (iteration env_silent) client_burst)
     = [(SiteCfg CfgVoiceHandle, "CFG|SHOUTS|1");
        (SiteListenShouts, "LISTEN|SHOUTS|1")]
  /\ in_order (sent (events (iteration env_silent) client_burst)).
Proof.
  assert (H : cycle_begins env_silent client_burst)
    by (left; split; reflexivity).
  pose proof (@transmission_order Z 0%Z Milli.stof env_silent client_burst H)
    as (_ & Hd & Ho & _).
  split; [exact H|]. split; [exact (Hd accepts_ok)|exact Ho].
Defined.



(** C5 on the line of the specification. *)
Lemma decode_RES_total_witness :
  Str.starts_with "RES|" "RES|abc|xyz" = true
  /\ index (decode_RES 0%Z Milli.stof "RES|abc|xyz") = (-1)%Z
  /\ score (decode_RES 0%Z Milli.stof "RES|abc|xyz") = 0%Z.
Proof.
  pose proof (@decode_RES_total Z 0%Z Milli.stof "RES|abc|xyz" eq_refl)
    as (_ & _ & _ & H).
  destruct (H 7 eq_refl) as [Hfail _].
  split; [reflexivity|]. apply Hfail. left. reflexivity.
Defined.

(** C6 on a shout trigger whose power is not a number: score 0.0, kind,
    plugin and form id kept. *)
Lemma decode_TRIG_total_witness :
  Str.starts_with "TRIG|" trig_garbled = true
  /\ spec_trig_layout Milli.stof trig_garbled = false
  /\ score (decode_TRIG 0%Z Milli.stof trig_garbled) = 0%Z
  /\ trigKind (decode_TRIG 0%Z Milli.stof trig_garbled) = "shout"
  /\ shoutPlugin (decode_TRIG 0%Z Milli.stof trig_garbled) = "Skyrim.esm"
  /\ shoutFormID (decode_TRIG 0%Z Milli.stof trig_garbled) = "0x0013E09".
Proof.
  pose proof (@decode_TRIG_total Z 0%Z Milli.stof trig_garbled
                (mkWorld client_idle []) eq_refl)
    as (_ & _ & _ & Hscore & _ & Hfields).
  destruct (Hfields "shout" eq_refl) as (Hk & Hshout & _).
  destruct (Hshout eq_refl) as (Hp & Hf & _).
  split; [reflexivity|]. split; [reflexivity|].
  split; [exact (Hscore eq_refl)|]. split; [exact Hk|].
  split; [exact (Hp _ eq_refl)|exact (Hf _ eq_refl)].
Defined.



(** C8 on an idle client: nothing sent, the engine sleeps. *)
Lemma idle_sleep_witness :
  cycle_begins env_silent client_idle
  /\ favorites_framed client_idle
  /\ channel_ok env_silent
  /\ transmitted_any (events (iteration env_silent) client_idle) = false
  /\ slept_idle (events (iteration env_silent) client_idle) = true.
Proof.
  assert (H : cycle_begins env_silent client_idle)
    by (left; split; reflexivity).
  assert (Hf : favorites_framed client_idle) by discriminate.
  pose proof (@idle_sleep_when_nothing_sent Z 0%Z Milli.stof env_silent
                client_idle H Hf) as [Hiff _].
  split; [exact H|]. split; [exact Hf|]. split; [exact accepts_ok|].
  split; [reflexivity|]. apply (Hiff accepts_ok). reflexivity.
Defined.

(** C8 as stated fails: a debug line is read, nothing is sent, and the
    engine sleeps all the same. *)
Lemma idle_sleep_after_read :
  ~ idle_iff_nothing_sent_or_read (events (iteration env_talking) client_idle).
Proof.
  unfold idle_iff_nothing_sent_or_read. intros [H _].
  destruct (H eq_refl) as [_ Hr]. vm_compute in Hr. discriminate Hr.
Qed.

(** C9 on a client whose CFG|OPEN toggle is due: the one operation under a
    lock is the write of its line, under the send mutex. *)
Lemma lock_discipline_witness :
  link_consistent client_cfg_due
  /\ cycle_begins env_silent client_cfg_due
  /\ channel_ok env_silent
  /\ io_under_lock [] (events (iteration env_silent) client_cfg_due)
     = [(SendMutex, EvWrite (SiteCfg CfgOpen) "CFG|OPEN|1" true)].
Proof.
  assert (H : cycle_begins env_silent client_cfg_due)
    by (left; split; reflexivity).
  pose proof (@lock_discipline Z 0%Z Milli.stof env_silent client_cfg_due
                SetClose CfgOpen true "en") as (_ & _ & Hio).
  split; [reflexivity|]. split; [exact H|]. split; [exact accepts_ok|].
  exact (eq_trans (Hio H accepts_ok) eq_refl).
Defined.

(** C9 as stated fails: the engine writes to the channel while it holds the
    send mutex. *)
Lemma write_under_send_mutex :
  ~ no_io_under_lock (events (iteration env_silent) client_cfg_due).
Proof. unfold no_io_under_lock. vm_compute. discriminate. Qed.

(** X1 at a power trigger whose text holds no separator: the text is
    lost. *)
Lemma power_trigger_text_witness :
  Str.mem BAR "0x0002F3B8" = false
  /\ Str.mem BAR "0.91" = false
  /\ Milli.stof "0.91" = Some 910%Z
  /\ score (decode_TRIG 0%Z Milli.stof
              "TRIG|power|0x0002F3B8|0.91|become ethereal") = 910%Z
  /\ trigText (decode_TRIG 0%Z Milli.stof
                 "TRIG|power|0x0002F3B8|0.91|become ethereal") = "".
Proof.
  pose proof (@power_trigger_text Z 0%Z Milli.stof "0x0002F3B8" "0.91"
                "become ethereal" 910%Z eq_refl eq_refl eq_refl)
    as (_ & _ & Hs & Ht).
  split; [reflexivity|]. split; [reflexivity|]. split; [reflexivity|].
  split; [exact Hs|exact Ht].
Defined.

End Checks.

Module FormIDChecks.
Import FormID FormIDCases.
Local Open Scope Z_scope.

(** X3 at the form id of Unrelenting Force. *)
Lemma formid_hex_roundtrip_witness :
  0 <= 0x13E09 <= UINT32_MAX
  /\ FormIDToHex 0x13E09 = "13E09"%string
  /\ ParseHexFormID "0x13E09" = 0x13E09.
Proof.
  assert (H : 0 <= 0x13E09 <= UINT32_MAX) by (unfold UINT32_MAX; lia).
  split; [exact H|]. split; [reflexivity|].
  exact (proj1 (formid_hex_roundtrip H)).
Defined.

(** X5 at a message whose power was never set, on a shout with its three
    variations. *)
Lemma variation_index_witness :
  List.length (variations (mkTESShout [Some 1%nat; Some 2%nat; None])) = 3%nat
  /\ variation_index (resp_default 0) = 0.
Proof.
  assert (H : List.length (variations (mkTESShout [Some 1%nat; Some 2%nat; None]))
              = 3%nat) by reflexivity.
  split; [exact H|].
  pose proof (@variation_index_in_bounds Z (resp_default 0) _ H)
    as (_ & _ & _ & _ & Hlow & _).
  unfold variation_index. rewrite Hlow; [reflexivity|reflexivity].
Defined.

(** X6 at Unrelenting Force of Skyrim.esm, load index 0. *)
Lemma ComposeRuntimeFormID_witness :
  0 <= 0x13E09 <= UINT32_MAX
  /\ "Skyrim.esm"%string <> ""%string
  /\ ComposeRuntimeFormID (Some dh_skyrim) "Skyrim.esm" 0x13E09 = 0x13E09.
Proof.
  assert (H : 0 <= 0x13E09 <= UINT32_MAX) by (unfold UINT32_MAX; lia).
  assert (N : "Skyrim.esm"%string <> ""%string) by discriminate.
  split; [exact H|]. split; [exact N|].
  exact (proj1 (@ComposeRuntimeFormID_roundtrip dh_skyrim "Skyrim.esm"
                  0x13E09 H N) eq_refl).
Defined.

End FormIDChecks.

Module FavoritesChecks.
Import FormID FormIDCases Favorites FavoritesCases.
Local Open Scope string_scope.

Lemma scanned_force_ok : scanned_shout scanned_force.
Proof.
  exists (Some "Unrelenting Force"), (Some "Fus|Ro"), (Some "Skyrim.esm"),
    0x13E09%Z.
  reflexivity.
Defined.

(** X7 at a batch of one shout. *)
Lemma scanned_favorites_witness :
  Forall scanned_shout [scanned_force]
  /\ List.map recognize (favorites_lines [scanned_force] [] [] [] [])
     = [Some FavBegin;
        Some (FavShout "Skyrim.esm" "0x13E09" "Unrelenting Force" "Fus Ro");
        Some FavEnd].
Proof.
  assert (H : Forall scanned_shout [scanned_force])
    by (constructor; [exact scanned_force_ok|constructor]).
  split; [exact H|].
  exact (proj2 (@scanned_favorites_read_back [scanned_force] [] [] [] [] H
                  (Forall_nil _) (Forall_nil _) (Forall_nil _)
                  (Forall_nil _))).
Defined.

(** X8 at Unrelenting Force called with all three words. *)
Lemma shout_id_witness :
  ValidateShoutContext game_skyrim
    (decode_TRIG 0%Z Milli.stof
       "TRIG|shout|Skyrim.esm|0x13E09|3|0.93|fus ro dah")
  = Some (mkShoutContext 0x13E09 3
            (mkTESShout [Some 1%nat; Some 2%nat; Some 3%nat]) 3%nat).
Proof.
  assert (Hid : (0 <= 0x13E09 <= UINT32_MAX)%Z) by (unfold UINT32_MAX; lia).
  assert (Hb : Z.land 0x13E09 0x00FFFFFF <> 0%Z) by discriminate.
  exact (@shout_id_end_to_end Z 0%Z Milli.stof
           (Some "Unrelenting Force") (Some "Fus|Ro") (Some "Skyrim.esm")
           0x13E09%Z scanned_force "3" "0.93" "fus ro dah" 3%Z 930%Z
           game_skyrim dh_skyrim _ 3%nat Hid Hb eq_refl eq_refl eq_refl
           eq_refl eq_refl eq_refl eq_refl eq_refl eq_refl).
Defined.

(** X9 at a forced scan that collects nothing new. *)
Lemma ScanAllFavorites_witness :
  pendingFavorites
    (exec (snd (ScanAllFavorites Z scan_init true scan_init)) Sample.client_idle)
  = Some ["FAV|BEGIN"; "FAV|END"].
Proof.
  exact (proj1 (proj2 (proj2 (@ScanAllFavorites_sends_changes Z scan_init
                  scan_init true Sample.client_idle))) (or_introl eq_refl)).
Defined.

End FavoritesChecks.

Module EngineChecks.

Import Sample Cases.
Local Open Scope string_scope.

(** X2 at Unrelenting Force with power 2, at a spell whose text holds
    a separator, and at the trigger that opens the dialogue. *)
Lemma triggers_decode_witness :
  Str.mem BAR "0.91" = false
  /\ Milli.stof "0.91" = Some 910%Z
  /\ decode_TRIG 0%Z Milli.stof
       "TRIG|shout|Skyrim.esm|0x00013E09|2|0.91|fus ro dah"
     = mkResp (-1) 910%Z "TRIG" "shout" "fus ro dah" "Skyrim.esm"
         "0x00013E09" 2 "" ""
  /\ decode_TRIG 0%Z Milli.stof "TRIG|spell|0x00012FCD|0.91|flames|now"
     = mkResp (-1) 910%Z "TRIG" "spell" "flames|now" "" "" 0 "" "0x00012FCD"
  /\ decode_TRIG 0%Z Milli.stof "TRIG|open|0.91|hello there"
     = mkResp (-1) 910%Z "TRIG" "open" "hello there" "" "" 0 "" "".
Proof.
  split; [reflexivity|]. split; [reflexivity|]. split; [|split].
  - exact (proj1 (@well_formed_triggers_decode Z 0%Z Milli.stof "spell"
                    "Skyrim.esm" "0x00013E09" "2" "0.91" "fus ro dah" 2%Z
                    910%Z eq_refl eq_refl)
             eq_refl eq_refl eq_refl eq_refl).
  - exact (proj1 (proj2 (@well_formed_triggers_decode Z 0%Z Milli.stof
                           "spell" "" "0x00012FCD" "" "0.91" "flames|now"
                           0%Z 910%Z eq_refl eq_refl))
             (or_intror (or_introl eq_refl)) eq_refl).
  - refine (proj2 (proj2 (@well_formed_triggers_decode Z 0%Z Milli.stof
                            "open" "" "" "" "0.91" "hello there" 0%Z 910%Z
                            eq_refl eq_refl))
              eq_refl _ _ _ _ _); discriminate.
Defined.

Lemma client_after_round_reachable :
  reachable 0%Z Milli.stof client_after_round.
Proof.
  unfold client_after_round. apply reach_iteration, reach_produce, reach_init.
Defined.

(** The invariant at the client after one round: connected, the toggle
    acknowledged. *)
Lemma client_invariant_witness :
  reachable 0%Z Milli.stof client_after_round
  /\ connected client_after_round = true
  /\ connected client_after_round = pipe client_after_round
  /\ (List.length (responses client_after_round) <= 128)%nat.
Proof.
  pose proof (@client_invariant Z 0%Z Milli.stof client_after_round
                client_after_round_reachable) as (Hl & Hq & _).
  split; [exact client_after_round_reachable|].
  split; [reflexivity|]. split; [exact Hl|exact Hq].
Defined.

(** The lines written from the client as constructed, once the language
    is set with a line break inside. *)
Lemma writes_are_frames_witness :
  reachable 0%Z Milli.stof
    (exec (@produce Z (Language ("en" ++ String LF "US"))) client_init)
  /\ In (EvWrite SiteLang "LANG|en US" true)
        (events (iteration env_silent)
           (exec (@produce Z (Language ("en" ++ String LF "US")))
              client_init))
  /\ one_frame "LANG|en US".
Proof.
  assert (R : reachable 0%Z Milli.stof
                (exec (@produce Z (Language ("en" ++ String LF "US")))
                   client_init))
    by apply reach_produce, reach_init.
  assert (I : In (EvWrite SiteLang "LANG|en US" true)
                (events (iteration env_silent)
                   (exec (@produce Z (Language ("en" ++ String LF "US")))
                      client_init)))
    by (vm_compute; auto 10).
  split; [exact R|]. split; [exact I|].
  exact (@writes_are_frames Z 0%Z Milli.stof env_silent _ R _ _ _ I).
Defined.

(** A response that arrives in three reads. *)
Lemma chunking_witness :
  live client_idle
  /\ read_chunks 0%Z Milli.stof
       ["RES|3"; "|0.5"; String LF "DBG|x"] client_idle
     = exec (read_chunk 0%Z Milli.stof ("RES|3|0.5" ++ String LF "DBG|x"))
         client_idle
  /\ List.map (@index Z)
       (responses
          (read_chunks 0%Z Milli.stof
             ["RES|3"; "|0.5"; String LF "DBG|x"] client_idle))
     = [3%Z].
Proof.
  assert (L : live client_idle) by (split; reflexivity).
  split; [exact L|]. split; [|reflexivity].
  refine (@chunking_is_irrelevant Z 0%Z Milli.stof "RES|3"
            ["|0.5"; String LF "DBG|x"] client_idle L _ _).
  - discriminate.
  - repeat constructor; discriminate.
Defined.

(** The start of a response is left in the buffer, the link is lost and
    made again: the first line of the new link is read as the end of that
    response. *)
Lemma stale_bytes_witness :
  live client_partial
  /\ connected (exec (iteration env_peek_fails) client_partial) = false
  /\ List.map (@index Z)
       (responses
          (exec (iteration env_line_end)
             (exec (iteration env_peek_fails) client_partial)))
     = [7%Z].
Proof.
  assert (L : live client_partial) by (split; reflexivity).
  assert (O1 : channel_ok env_peek_fails) by (intros n; reflexivity).
  assert (O2 : channel_ok env_line_end) by (intros n; reflexivity).
  assert (N : "7|0.5" ++ String LF "" <> "") by discriminate.
  pose proof (@stale_bytes_after_reconnect Z 0%Z Milli.stof env_peek_fails
                env_line_end _ client_partial L O1 eq_refl eq_refl O2
                eq_refl N) as (H1 & _ & _ & _ & H5).
  split; [exact L|]. split; [exact H1|].
  unfold iteration. rewrite H5. reflexivity.
Defined.

(** The client at rest after the round that sent its toggle. *)
Lemma idle_round_witness :
  cycle_begins env_silent client_cfg_due
  /\ channel_ok env_silent
  /\ run (iteration env_silent) (exec (iteration env_silent) client_cfg_due)
     = (Done tt,
        mkWorld (exec (iteration env_silent) client_cfg_due)
          [EvLock SendMutex; EvUnlock SendMutex; EvPeek true; EvSleep 15]).
Proof.
  assert (B : cycle_begins env_silent client_cfg_due)
    by (left; split; reflexivity).
  assert (O : channel_ok env_silent) by (intros n; reflexivity).
  split; [exact B|]. split; [exact O|].
  exact (@idle_round_is_a_fixpoint Z 0%Z Milli.stof env_silent env_silent
           client_cfg_due B O eq_refl eq_refl).
Defined.

(** The third write of a dialogue is refused: the options are lost, the
    CLOSE and the LISTEN command still wait. *)
Lemma refused_write_witness :
  connected client_dialogue = pipe client_dialogue
  /\ write_failed (events (iteration env_refusing_third) client_dialogue)
     = true
  /\ (exists pre p rest,
        due client_dialogue = (pre ++ p :: rest)%list
        /\ sent (events (iteration env_refusing_third) client_dialogue) = pre
        /\ In (EvWrite (fst p) (snd p) false)
              (events (iteration env_refusing_third) client_dialogue)
        /\ exec (iteration env_refusing_third) client_dialogue
           = disconnected (drained (site_rank (fst p)) client_dialogue))
  /\ sent (events (iteration env_refusing_third) client_dialogue)
     = [(SiteOptions, "OPEN|2"); (SiteOptions, "OPT|Hello")]
  /\ pendingOptions (exec (iteration env_refusing_third) client_dialogue)
     = None
  /\ pendingClose (exec (iteration env_refusing_third) client_dialogue)
     = true
  /\ pendingListen (exec (iteration env_refusing_third) client_dialogue)
     = Some true.
Proof.
  assert (L : connected client_dialogue = pipe client_dialogue)
    by reflexivity.
  assert (F : write_failed
                (events (iteration env_refusing_third) client_dialogue)
              = true) by reflexivity.
  split; [exact L|]. split; [exact F|].
  split; [exact (@refused_write_outcome Z 0%Z Milli.stof env_refusing_third
                   client_dialogue L F)|].
  repeat split; reflexivity.
Defined.

End EngineChecks.

Module LanguageChecks.

Import Language LanguageCases Sample.
Local Open Scope string_scope.

(** The language of [ini_french] is found in its section [General], the
    first assignment there, trimmed and in lower case. *)
Lemma ini_french_read :
  ReadLanguageFromIni (Some ini_french) = "french"
  /\ code (DetectGameLanguage (Some "ENGLISH")
             (mkIniFiles true None (Some ini_french))) = "fr".
Proof. split; reflexivity. Qed.

(** X17 at a file whose assignments are all outside [General]; the game
    says Polish. *)
Lemma ini_language_witness :
  Forall (fun l => TrimLower l <> "[general]") ini_elsewhere
  /\ ReadLanguageFromIni (Some ini_elsewhere) = ""
  /\ code (DetectGameLanguage (Some "Polish")
             (mkIniFiles true (Some ini_elsewhere) (Some ini_elsewhere)))
     = "pl".
Proof.
  assert (H : Forall (fun l => TrimLower l <> "[general]") ini_elsewhere)
    by (repeat constructor; discriminate).
  pose proof (@ini_language_needs_general ini_elsewhere ini_elsewhere
                (Some "Polish") H) as (_ & E & _ & _).
  split; [exact H|]. split; [exact E|reflexivity].
Defined.

(** X16 at a language that the plugin does not know: nothing is asked of
    the client. *)
Lemma unknown_language_not_sent :
  run (@TryDetectAndSendGameLanguage Z (Some "Klingon")
         (mkIniFiles false None None)) client_idle
  = (Done tt, mkWorld client_idle []).
Proof.
  exact (proj1 (proj2 (@only_known_languages Z (Some "Klingon")
                         (mkIniFiles false None None) client_idle))
           eq_refl).
Defined.

End LanguageChecks.

Module SettingsChecks.

Import Settings SettingsCases Sample.
Local Open Scope Z_scope.

(** X18 at the default settings, saved after a record of another
    version, loaded over other settings. *)
Lemma settings_roundtrip_witness :
  Forall (@foreign) [record_v2]
  /\ SaveSettings true true (fun _ => true) defaults
     = Some (mkRecord kSettingsRecord 1 [1; 1; 1; 1; 0; 1; 0; 0; 0; 0; 0])
  /\ fst (LoadSettings Z
            (Some [record_v2;
                   mkRecord kSettingsRecord 1
                     [1; 1; 1; 1; 0; 1; 0; 0; 0; 0; 0; 7; 7]])
            quiet_shouts true)
     = defaults.
Proof.
  assert (H : Forall (@foreign) [record_v2])
    by (constructor; [right; discriminate|constructor]).
  destruct (@settings_survive_save_and_load Z defaults quiet_shouts true
              [record_v2] [] [7; 7] H (Forall_nil _))
    as (bytes & Hs & _ & Hl).
  injection Hs as <-.
  split; [exact H|]. split; [reflexivity|exact Hl].
Defined.

(** X19 at a save whose fourth write fails: three bytes are written, and
    the load leaves the settings as they were, although a complete
    record follows. *)
Lemma truncated_record_witness :
  (3 < kSettingsDataSize)%nat
  /\ fails_at_fourth 3 = false
  /\ SaveSettings true true fails_at_fourth defaults
     = Some (mkRecord kSettingsRecord 1 [1; 1; 1])
  /\ LoadSettings Z
       (Some [mkRecord kSettingsRecord 1 [1; 1; 1];
              mkRecord kSettingsRecord 1 [1; 1; 1; 1; 0; 1; 0; 0; 0; 0; 0]])
       quiet_shouts true
     = (quiet_shouts, ret tt).
Proof.
  assert (Hk : (3 < kSettingsDataSize)%nat) by (unfold kSettingsDataSize; lia).
  assert (Hb : forall j, (j < 3)%nat -> fails_at_fourth j = true).
  { intros j Hj. unfold fails_at_fourth. now apply Nat.ltb_lt. }
  destruct (@truncated_settings_record Z defaults quiet_shouts true
              fails_at_fourth 3
              [mkRecord kSettingsRecord 1 [1; 1; 1; 1; 0; 1; 0; 0; 0; 0; 0]]
              Hk Hb eq_refl)
    as (bytes & Hs & _ & Hl).
  injection Hs as <-.
  split; [exact Hk|]. split; [reflexivity|]. split; [reflexivity|exact Hl].
Defined.


End SettingsChecks.

Module RuntimeChecks.

Import RuntimeCases Sample.
Local Open Scope string_scope.

(** X21 at a selection of the third option, at a line whose score does
    not convert, and at the request to close. *)
Lemma voice_selection_witness :
  dispatch (decode_RES 0%Z Milli.stof "RES|2|0.87") true true true
  = ActSelect 2
  /\ dispatch (decode_RES 0%Z Milli.stof "RES|2|high") true true true
     = ActNothing
  /\ dispatch (decode_RES 0%Z Milli.stof "RES|-2|1.0") true false true
     = ActNothing
  /\ dispatch (decode_RES 0%Z Milli.stof "RES|-2|1.0") true true true
     = ActHideMenu
  /\ (0 <= 2)%Z.
Proof.
  split; [reflexivity|]. split; [reflexivity|]. split; [reflexivity|].
  split; [reflexivity|].
  exact (proj1 (proj2 (proj2
           (proj1 (proj2 (@voice_selection_is_guarded Z 0%Z Milli.stof
                            "RES|2|0.87" true true true))
              2%Z eq_refl)))).
Defined.


(** X23 after the first four polls of the glance: the trigger activates
    actor 7, although actor 9 is in front. *)
Lemma open_trigger_witness :
  live client_idle
  /\ channel_ok env_silent
  /\ focusedActorHandle
       (fst (focus_polls ns_per_ms focus_init (firstn 4 a_glance)))
     = Some 7
  /\ snd (HandleOpenTrigger Z true all_valid
            (fst (focus_polls ns_per_ms focus_init (firstn 4 a_glance))))
     = [ActivateTask 7]
  /\ List.map snd
       (sent (events (iteration env_silent)
                (exec (snd (fst (HandleOpenTrigger Z true all_valid
                                   (fst (focus_polls ns_per_ms focus_init
                                           (firstn 4 a_glance))))))
                   client_idle)))
     = ["LISTEN|0"; "LISTEN|SHOUTS|0"].
Proof.
  assert (L : live client_idle) by (split; reflexivity).
  assert (O : channel_ok env_silent) by (intros n; reflexivity).
  pose proof (@open_trigger_activates_focus Z 0%Z Milli.stof ns_per_ms
                "0.75" "hello there" 750%Z true true true
                (fst (focus_polls ns_per_ms focus_init (firstn 4 a_glance)))
                7 all_valid client_idle env_silent (sees 9 1450)
                eq_refl eq_refl eq_refl L eq_refl O)
    as (_ & _ & H & _).
  destruct (H eq_refl) as (_ & Ht & Hs).
  split; [exact L|]. split; [exact O|]. split; [reflexivity|].
  split; [exact Ht|exact Hs].
Defined.

End RuntimeChecks.

Module DialogueChecks.

Import Dialogue DialogueCases Sample.
Local Open Scope string_scope.

(** X24 at a snapshot of two topics, polled twice. *)
Lemma options_witness :
  SnapshotDialogueOptions two_topics = ["Who are you?"; "Farewell."]
  /\ pendingOptions
       (exec (snd (LogOptionsIfChanged Z two_topics dialogue_init))
          client_idle)
     = Some ["Who are you?"; "Farewell."]
  /\ LogOptionsIfChanged Z two_topics
       (fst (LogOptionsIfChanged Z two_topics dialogue_init))
     = (fst (LogOptionsIfChanged Z two_topics dialogue_init), ret tt).
Proof.
  pose proof (@options_are_sent_on_change Z two_topics dialogue_init
                client_idle) as (_ & _ & Hs & _ & Hagain).
  split; [reflexivity|]. split; [|exact Hagain].
  rewrite Hs; [reflexivity|discriminate|discriminate].
Defined.

(** X25 at a dialogue of two topics that closes and opens again between
    two cycles. *)
Lemma dialogue_witness :
  live client_idle
  /\ channel_ok env_silent
  /\ List.map snd
       (sent (events (iteration env_silent)
                (exec (snd (ProcessEvent Z "Dialogue Menu" true two_topics
                              true dialogue_init))
                   client_idle)))
     = ["OPEN|2"; "OPT|Who are you?"; "OPT|Farewell."; "END";
        "LISTEN|SHOUTS|0"]
  /\ List.map snd
       (sent (events (iteration env_silent)
                (exec (snd (ProcessEvent Z "Dialogue Menu" true two_topics
                              true
                              (fst (ProcessEvent Z "Dialogue Menu" false
                                      two_topics true dialogue_init))))
                   (exec (snd (ProcessEvent Z "Dialogue Menu" false
                                 two_topics true dialogue_init))
                      client_idle))))
     = ["OPEN|2"; "OPT|Who are you?"; "OPT|Farewell."; "END"; "CLOSE";
        "LISTEN|SHOUTS|0"].
Proof.
  assert (L : live client_idle) by (split; reflexivity).
  assert (O : channel_ok env_silent) by (intros n; reflexivity).
  assert (N : SnapshotDialogueOptions two_topics <> []) by discriminate.
  pose proof (@dialogue_on_the_wire Z 0%Z Milli.stof two_topics true
                dialogue_init client_idle env_silent L eq_refl O N)
    as (H1 & _ & H3 & _).
  split; [exact L|]. split; [exact O|]. split; [exact H1|exact H3].
Defined.

End DialogueChecks.

Module LauncherChecks.

Import Launcher LauncherCases.
Local Open Scope string_scope.

(** X26 at the variables of a mod manager: those of the walk that
    compares the whole key, and those of the search for a token. *)
Lemma vfs_filter_witness :
  List.map IsVfsEnvVar
    ["USVFS_LOGLEVEL=2"; "MO2_PROFILE=Default"; "ModOrganizer_Path=C:\MO2";
     "MODORGANIZER=1"; "TEMP=C:\Temp"]
  = [true; true; false; true; false]
  /\ EnvKeyStartsWithNoCase "USVFS_LOGLEVEL=2" "USVFS" = false.
Proof.
  split; [reflexivity|].
  rewrite (proj1 (@vfs_filter_is_by_token "USVFS_LOGLEVEL=2") "USVFS").
  reflexivity.
Defined.

(** X27 at the environment under a mod manager. *)
Lemma runtime_env_witness :
  Forall env_string env_mo2
  /\ entries_of (BuildEnvBlock_ForRuntimeExe (Some env_mo2) "C:\DVC" "")
     = ["=C:=C:\Games"; "Path=C:\Windows"; "ModOrganizer_Path=C:\MO2";
        "TEMP=C:\Temp"; "PYTHONHOME=C:\DVC\_internal";
        "PYTHONPATH=C:\DVC\_internal\base_library.zip;C:\DVC\_internal\python3.12\lib-dynload;C:\DVC\_internal";
        "PYTHONNOUSERSITE=1"; ""]
  /\ entries_with_key "PYTHONHOME"
       (BuildEnvBlock_ForRuntimeExe (Some env_mo2) "C:\DVC" "")
     = ["PYTHONHOME=C:\DVC\_internal"].
Proof.
  assert (H : Forall env_string env_mo2)
    by (repeat constructor; discriminate).
  pose proof (@runtime_env_block env_mo2 "C:\DVC" "" H eq_refl)
    as (He & Hh & _).
  split; [exact H|]. split; [exact He|exact Hh].
Defined.

End LauncherChecks.
